(** * microps: protocol dispatcher (net.c) and ARP (arp.c)

    A shallow embedding of the two C translation units and the properties
    of the specification that concern them.

    - Integers of the C code are [Z]; raw frame bytes are [list byte].
    - Pointers into the static ARP table are slot indices ([nat]); a NULL
      pointer is [None].
    - The protocol list of net.c is a linked structure with [next]
      pointers, so it is modelled as a store of nodes addressed by [nat];
      list traversals take fuel, and running out of fuel is a distinct
      outcome.
    - Calls that leave the translation unit (driver transmit callback,
      protocol handlers, mutex, software interrupt) are recorded in an
      event log. *)

From Stdlib Require Import ZArith List Lia Bool.
From Stdlib Require Import Strings.Byte.
From stdpp Require Import base list.
Import ListNotations.
Open Scope Z_scope.

(** ** util.h: byte order and the generic queue *)

Module Util.

Definition byte_to_Z (b : byte) : Z := Z.of_N (Byte.to_N b).

Definition Z_to_byte (z : Z) : byte :=
  match Byte.of_N (Z.to_N (z mod 256)) with
  | Some b => b
  | None => x00
  end.

Definition u32 (v : Z) : Prop := 0 <= v < 4294967296.

(** Modelled from the spec: util.c (byteswap16/byteswap32, hton16, ntoh16,
    ntoh32) is not part of the sources.  §6 fixes every multi-byte wire
    field as big-endian; [host_le] says whether the host stores integers
    little-endian, in which case the conversions swap bytes, and are the
    identity otherwise. *)
Definition byteswap16 (v : Z) : Z :=
  (v mod 256) * 256 + (v / 256) mod 256.

Definition byteswap32 (v : Z) : Z :=
  (v mod 256) * 16777216 + ((v / 256) mod 256) * 65536
  + ((v / 65536) mod 256) * 256 + (v / 16777216) mod 256.

Section ByteOrder.
Variable host_le : bool.

Definition ntoh16 (v : Z) : Z := if host_le then byteswap16 v else v.
Definition hton16 (v : Z) : Z := if host_le then byteswap16 v else v.
Definition ntoh32 (v : Z) : Z := if host_le then byteswap32 v else v.

(** Reading and writing an integer object through a [uint8_t *]
    (the casts between [uint8_t *] and [struct arp_ether_ip *], and
    [memcpy] to and from an [ip_addr_t]). *)
Definition load16 (bs : list byte) : Z :=
  match bs with
  | [b0; b1] =>
      if host_le then byte_to_Z b0 + 256 * byte_to_Z b1
      else 256 * byte_to_Z b0 + byte_to_Z b1
  | _ => 0
  end.

Definition store16 (v : Z) : list byte :=
  if host_le then [Z_to_byte v; Z_to_byte (v / 256)]
  else [Z_to_byte (v / 256); Z_to_byte v].

Definition load32 (bs : list byte) : Z :=
  match bs with
  | [b0; b1; b2; b3] =>
      if host_le
      then byte_to_Z b0 + 256 * byte_to_Z b1
           + 65536 * byte_to_Z b2 + 16777216 * byte_to_Z b3
      else 16777216 * byte_to_Z b0 + 65536 * byte_to_Z b1
           + 256 * byte_to_Z b2 + byte_to_Z b3
  | _ => 0
  end.

Definition store32 (v : Z) : list byte :=
  if host_le
  then [Z_to_byte v; Z_to_byte (v / 256);
        Z_to_byte (v / 65536); Z_to_byte (v / 16777216)]
  else [Z_to_byte (v / 16777216); Z_to_byte (v / 65536);
        Z_to_byte (v / 256); Z_to_byte v].
End ByteOrder.

(** Modelled from the spec: util.c's queue (queue_push, queue_pop) is not
    part of the sources.  §2: a generic FIFO of opaque entries; push
    appends at the tail, pop removes from the head and yields NULL on an
    empty queue. *)
Definition queue_head (A : Type) : Type := list A.

Definition queue_push {A} (q : queue_head A) (x : A) : queue_head A := q ++ [x].

Definition queue_pop {A} (q : queue_head A) : option A * queue_head A :=
  match q with
  | [] => (None, [])
  | x :: q' => (Some x, q')
  end.

End Util.

Export Util.

(** ** Shared declarations (net.h, ether.h, ip.h) *)

Definition ETHER_ADDR_LEN : nat := 6.
Definition IP_ADDR_LEN : nat := 4.

(** Protocol addresses are [uint32_t] objects. *)
Definition ip_addr_t : Type := Z.

(** The driver capability table.  Only [transmit] is mandatory; its
    arguments after the device are the type tag, the payload, its length
    and the destination hint, and it returns a C [int]. *)
Record net_device_ops := {
  transmit : Z -> list byte -> Z -> option (list byte) -> Z
}.

Record net_device := {
  index : Z;
  type : Z;
  mtu : Z;
  flags : Z;
  addr : list byte;
  ops : net_device_ops
}.

(** A logical interface attached to a device; the IP interface
    ([struct ip_iface]) extends it with its unicast address. *)
Record net_iface := {
  dev : net_device;
  family : Z;
  unicast : ip_addr_t
}.

(** What the code does outside its own translation unit. *)
Inductive event :=
| EvLock
| EvUnlock
| EvTransmit (d : net_device) (ty : Z) (data : list byte) (len : Z)
             (dst : option (list byte))
| EvHandler (h : nat) (data : list byte) (len : Z) (d : net_device)
| EvRaiseIrq.

(** How a call ends: it returns, it is still running when the fuel of its
    list traversal is used up, or it dereferences a pointer that designates
    no object (NULL, or an address that holds no node). *)
Inductive outcome (A : Type) :=
| Ret (a : A)
| OutOfFuel
| Fault.
Arguments Ret {A} a.
Arguments OutOfFuel {A}.
Arguments Fault {A}.

(** ** net.c: device output, protocol registry and dispatcher *)

Module Net.

Record net_protocol_queue_entry := {
  entry_dev : net_device;
  entry_len : Z;
  entry_data : list byte
}.

(** [struct net_protocol]; the handler is a function pointer, identified
    here by a number. *)
Record net_protocol := {
  p_next : option nat;
  p_type : Z;
  p_queue : queue_head net_protocol_queue_entry;
  p_handler : nat
}.

(** The static [protocols] pointer, the nodes obtained from memory_alloc
    (the address of a node is its position in [heap]) and the event log. *)
Record net_state := {
  heap : list net_protocol;
  protocols : option nat;
  log : list event
}.

Definition net_init_state : net_state :=
  {| heap := []; protocols := None; log := [] |}.

Definition set_queue (q : queue_head net_protocol_queue_entry)
    (p : net_protocol) : net_protocol :=
  {| p_next := p_next p; p_type := p_type p; p_queue := q;
     p_handler := p_handler p |}.

Section Device.
(** net.h is not part of the sources: the bit of [flags] that
    NET_DEVICE_IS_UP tests is a parameter. *)
Variable NET_DEVICE_FLAG_UP : Z.

Definition NET_DEVICE_IS_UP (d : net_device) : bool :=
  negb (Z.land (flags d) NET_DEVICE_FLAG_UP =? 0).

(** [net_device_output] (net.c:107).  The second component is the log
    extended with the driver calls made. *)
Definition net_device_output (d : net_device) (ty : Z) (data : list byte)
    (len : Z) (dst : option (list byte)) (lg : list event)
    : Z * list event :=
  if negb (NET_DEVICE_IS_UP d) then (-1, lg)
  else if len >? mtu d then (-1, lg)
  else
    let ret_ops_transmit := transmit (ops d) ty data len dst in
    let lg' := lg ++ [EvTransmit d ty data len dst] in
    if ret_ops_transmit =? -1 then (-1, lg') else (0, lg').
End Device.

(** The duplicate check of [net_protocol_register] (net.c:140):
    [Ret true] when a node of this type is met, [Ret false] when the walk
    reaches NULL. *)
Fixpoint register_scan (fuel : nat) (hp : list net_protocol)
    (proto : option nat) (ty : Z) : outcome bool :=
  match proto with
  | None => Ret false
  | Some p =>
      match fuel with
      | O => OutOfFuel
      | S fuel' =>
          match hp !! p with
          | None => Fault
          | Some node =>
              if ty =? p_type node then Ret true
              else register_scan fuel' hp (p_next node) ty
          end
      end
  end.

(** [net_protocol_register] (net.c:135).  [alloc_ok] tells whether
    memory_alloc yields memory (zeroed) or NULL.  The new node's [next] is
    set to the node itself (net.c:159). *)
Definition net_protocol_register (fuel : nat) (alloc_ok : bool) (ty : Z)
    (handler : nat) (s : net_state) : outcome Z * net_state :=
  match register_scan fuel (heap s) (protocols s) ty with
  | OutOfFuel => (OutOfFuel, s)
  | Fault => (Fault, s)
  | Ret true => (Ret (-1), s)
  | Ret false =>
      if negb alloc_ok then (Ret (-1), s)
      else
        let proto := length (heap s) in
        let node := {| p_next := Some proto; p_type := ty; p_queue := [];
                       p_handler := handler |} in
        (Ret 0, {| heap := heap s ++ [node]; protocols := Some proto;
                   log := log s |})
  end.

(** The search loop of [net_input_handler] (net.c:171): the matching node,
    or [None] when the walk reaches NULL. *)
Fixpoint input_scan (fuel : nat) (hp : list net_protocol)
    (proto : option nat) (ty : Z) : outcome (option nat) :=
  match proto with
  | None => Ret None
  | Some p =>
      match fuel with
      | O => OutOfFuel
      | S fuel' =>
          match hp !! p with
          | None => Fault
          | Some node =>
              if p_type node =? ty then Ret (Some p)
              else input_scan fuel' hp (p_next node) ty
          end
      end
  end.

(** [net_input_handler] (net.c:166).  The entry is pushed onto the queue
    of the node [protocols] points to (net.c:186). *)
Definition net_input_handler (fuel : nat) (alloc_ok : bool) (ty : Z)
    (data : list byte) (len : Z) (d : net_device) (s : net_state)
    : outcome Z * net_state :=
  match input_scan fuel (heap s) (protocols s) ty with
  | OutOfFuel => (OutOfFuel, s)
  | Fault => (Fault, s)
  | Ret None => (Ret 0, s)
  | Ret (Some _) =>
      if negb alloc_ok then (Ret (-1), s)
      else
        let entry := {| entry_dev := d; entry_len := len;
                        entry_data := firstn (Z.to_nat len) data |} in
        match protocols s with
        | None => (Fault, s)
        | Some hd =>
            match heap s !! hd with
            | None => (Fault, s)
            | Some node =>
                (Ret 0,
                 {| heap := <[hd := set_queue (queue_push (p_queue node) entry)
                                      node]> (heap s);
                    protocols := protocols s;
                    log := log s ++ [EvRaiseIrq] |})
            end
        end
  end.

(** The inner [while (1)] of [net_softirq_handler] (net.c:211): pop until
    the queue is empty, handing each entry to the handler. *)
Fixpoint softirq_drain (handler : nat)
    (q : queue_head net_protocol_queue_entry) (lg : list event)
    : queue_head net_protocol_queue_entry * list event :=
  match q with
  | [] => ([], lg)
  | entry :: q' =>
      softirq_drain handler q'
        (lg ++ [EvHandler handler (entry_data entry) (entry_len entry)
                          (entry_dev entry)])
  end.

(** The outer [for] of [net_softirq_handler] (net.c:209). *)
Fixpoint softirq_loop (fuel : nat) (proto : option nat)
    (hp : list net_protocol) (lg : list event)
    : outcome Z * (list net_protocol * list event) :=
  match proto with
  | None => (Ret 0, (hp, lg))
  | Some p =>
      match fuel with
      | O => (OutOfFuel, (hp, lg))
      | S fuel' =>
          match hp !! p with
          | None => (Fault, (hp, lg))
          | Some node =>
              let '(q', lg') := softirq_drain (p_handler node) (p_queue node) lg in
              softirq_loop fuel' (p_next node) (<[p := set_queue q' node]> hp) lg'
          end
      end
  end.

Definition net_softirq_handler (fuel : nat) (s : net_state)
    : outcome Z * net_state :=
  let '(r, (hp, lg)) := softirq_loop fuel (protocols s) (heap s) (log s) in
  (r, {| heap := hp; protocols := protocols s; log := lg |}).

(** *** The device list (net.c:27-105, 231-262) *)

(** A device on the list: [net_device] together with the members of
    [struct net_device] that only the registry uses, its [next] link, its
    name, and the optional open and close entries of its driver table
    (NULL is [None]; a driver entry is known here by the [int] it
    returns for the device). *)
Record net_device_node := {
  nd_dev : net_device;
  nd_next : option nat;
  nd_name : list byte;
  nd_open : option (net_device -> Z);
  nd_close : option (net_device -> Z)
}.

(** Calls into the drivers and the interrupt subsystem. *)
Inductive dev_event :=
| EvOpen (a : nat)
| EvClose (a : nat)
| EvIntrRun
| EvIntrShutdown.

(** The static [devices] pointer, the device objects (a device's address
    is its position in [dev_heap]), the static counter [index] of
    net_device_register, and the calls made so far. *)
Record dev_state := {
  dev_heap : list net_device_node;
  devices : option nat;
  dev_index : Z;
  dev_log : list dev_event
}.

Definition set_flags (f : Z) (d : net_device) : net_device :=
  {| index := index d; type := type d; mtu := mtu d; flags := f;
     addr := addr d; ops := ops d |}.

Definition set_index (i : Z) (d : net_device) : net_device :=
  {| index := i; type := type d; mtu := mtu d; flags := flags d;
     addr := addr d; ops := ops d |}.

Definition set_dev (d : net_device) (n : net_device_node) : net_device_node :=
  {| nd_dev := d; nd_next := nd_next n; nd_name := nd_name n;
     nd_open := nd_open n; nd_close := nd_close n |}.

Definition set_node (a : nat) (n : net_device_node) (st : dev_state)
    : dev_state :=
  {| dev_heap := <[a := n]> (dev_heap st); devices := devices st;
     dev_index := dev_index st; dev_log := dev_log st |}.

Definition log_dev (ev : dev_event) (st : dev_state) : dev_state :=
  {| dev_heap := dev_heap st; devices := devices st;
     dev_index := dev_index st; dev_log := dev_log st ++ [ev] |}.

Section DeviceList.
(** net.h is not part of the sources: the up bit is a parameter, and so is
    the text snprintf produces for "net%d". *)
Variable NET_DEVICE_FLAG_UP : Z.
Variable snprintf_name : Z -> list byte.

(** [net_device_register] (net.c:46); [index] is an [unsigned int]. *)
Definition net_device_register (a : nat) (st : dev_state)
    : outcome Z * dev_state :=
  match dev_heap st !! a with
  | None => (Fault, st)
  | Some node =>
      let i := dev_index st in
      let node' :=
        {| nd_dev := set_index i (nd_dev node);
           nd_next := devices st;
           nd_name := snprintf_name i;
           nd_open := nd_open node;
           nd_close := nd_close node |} in
      (Ret 0,
       {| dev_heap := <[a := node']> (dev_heap st);
          devices := Some a;
          dev_index := (i + 1) mod 4294967296;
          dev_log := dev_log st |})
  end.

(** [net_device_open] (net.c:59). *)
Definition net_device_open (a : nat) (st : dev_state)
    : outcome Z * dev_state :=
  match dev_heap st !! a with
  | None => (Fault, st)
  | Some node =>
      let d := nd_dev node in
      if NET_DEVICE_IS_UP NET_DEVICE_FLAG_UP d then (Ret (-1), st)
      else
        let up :=
          set_dev (set_flags (Z.lor (flags d) NET_DEVICE_FLAG_UP) d) node in
        match nd_open node with
        | Some open =>
            let ret_ops_open := open d in
            if ret_ops_open =? -1 then (Ret (-1), log_dev (EvOpen a) st)
            else (Ret 0, set_node a up (log_dev (EvOpen a) st))
        | None => (Ret 0, set_node a up st)
        end
  end.

(** [net_device_close] (net.c:83). *)
Definition net_device_close (a : nat) (st : dev_state)
    : outcome Z * dev_state :=
  match dev_heap st !! a with
  | None => (Fault, st)
  | Some node =>
      let d := nd_dev node in
      if negb (NET_DEVICE_IS_UP NET_DEVICE_FLAG_UP d) then (Ret (-1), st)
      else
        let down :=
          set_dev (set_flags (Z.land (flags d) (Z.lnot NET_DEVICE_FLAG_UP)) d)
                  node in
        match nd_close node with
        | Some close =>
            let ret_ops_close := close d in
            if ret_ops_close =? -1 then (Ret (-1), log_dev (EvClose a) st)
            else (Ret 0, set_node a down (log_dev (EvClose a) st))
        | None => (Ret 0, set_node a down st)
        end
  end.

(** The loop of [net_run] (net.c:242): the result of each
    net_device_open is ignored. *)
Fixpoint open_all (fuel : nat) (d : option nat) (st : dev_state)
    : outcome unit * dev_state :=
  match d with
  | None => (Ret tt, st)
  | Some a =>
      match fuel with
      | O => (OutOfFuel, st)
      | S fuel' =>
          match net_device_open a st with
          | (Ret _, st') =>
              match dev_heap st' !! a with
              | Some node => open_all fuel' (nd_next node) st'
              | None => (Fault, st')
              end
          | (OutOfFuel, st') => (OutOfFuel, st')
          | (Fault, st') => (Fault, st')
          end
      end
  end.

(** [net_run] (net.c:231); [ret_intr_run] is what intr_run returns. *)
Definition net_run (fuel : nat) (ret_intr_run : Z) (st : dev_state)
    : outcome Z * dev_state :=
  let st0 := log_dev EvIntrRun st in
  if ret_intr_run =? -1 then (Ret (-1), st0)
  else
    match open_all fuel (devices st0) st0 with
    | (Ret _, st') => (Ret 0, st')
    | (OutOfFuel, st') => (OutOfFuel, st')
    | (Fault, st') => (Fault, st')
    end.

(** The loop of [net_shutdown] (net.c:256). *)
Fixpoint close_all (fuel : nat) (d : option nat) (st : dev_state)
    : outcome unit * dev_state :=
  match d with
  | None => (Ret tt, st)
  | Some a =>
      match fuel with
      | O => (OutOfFuel, st)
      | S fuel' =>
          match net_device_close a st with
          | (Ret _, st') =>
              match dev_heap st' !! a with
              | Some node => close_all fuel' (nd_next node) st'
              | None => (Fault, st')
              end
          | (OutOfFuel, st') => (OutOfFuel, st')
          | (Fault, st') => (Fault, st')
          end
      end
  end.

(** [net_shutdown] (net.c:251). *)
Definition net_shutdown (fuel : nat) (st : dev_state)
    : outcome unit * dev_state :=
  match close_all fuel (devices st) st with
  | (Ret _, st') => (Ret tt, log_dev EvIntrShutdown st')
  | (OutOfFuel, st') => (OutOfFuel, st')
  | (Fault, st') => (Fault, st')
  end.

End DeviceList.

End Net.

(** ** arp.c: the ARP cache and the ARP protocol handler *)

Module Arp.

Definition ARP_HRD_ETHER : Z := 0x0001.
(** ARP_PRO_IP is ETHER_TYPE_IP; ether.h is not part of the sources and §6
    gives the value, 0x0800. *)
Definition ARP_PRO_IP : Z := 0x0800.

Definition ARP_OP_REQUEST : Z := 1.
Definition ARP_OP_REPLY : Z := 2.

Definition ARP_CACHE_SIZE : nat := 32.

Definition ARP_CACHE_STATE_FREE : Z := 0.
Definition ARP_CACHE_STATE_INCOMPLETE : Z := 1.
Definition ARP_CACHE_STATE_RESOLVED : Z := 2.
Definition ARP_CACHE_STATE_STATIC : Z := 3.

Record arp_hdr := {
  hrd : Z;
  pro : Z;
  hln : Z;
  pln : Z;
  op : Z
}.

Record arp_ether_ip := {
  hdr : arp_hdr;
  sha : list byte;
  spa : list byte;
  tha : list byte;
  tpa : list byte
}.

(** [struct timeval] with the <sys/time.h> macros the code uses:
    timerclear, and timercmp with [>], which compares seconds first and
    microseconds when the seconds are equal. *)
Record timeval := {
  tv_sec : Z;
  tv_usec : Z
}.

Definition timerclear : timeval := {| tv_sec := 0; tv_usec := 0 |}.

Definition timercmp_gt (a b : timeval) : bool :=
  if tv_sec a =? tv_sec b then tv_usec a >? tv_usec b
  else tv_sec a >? tv_sec b.

Record arp_cache := {
  state : Z;
  pa : ip_addr_t;
  ha : list byte;
  timestamp : timeval
}.

(** The static table [caches] and the event log. *)
Record arp_state := {
  caches : list arp_cache;
  log : list event
}.

Inductive arp_resolve_result :=
| ARP_RESOLVE_ERROR
| ARP_RESOLVE_FOUND.

(** sizeof(struct arp_ether_ip): 8 header bytes and 6 + 4 + 6 + 4 address
    bytes, no padding. *)
Definition sizeof_arp_ether_ip : Z := 28.

(** [arp_cache_delete] (arp.c:106). *)
Definition arp_cache_delete (cache : arp_cache) : arp_cache :=
  {| state := ARP_CACHE_STATE_FREE;
     pa := 0;
     ha := repeat x00 ETHER_ADDR_LEN;
     timestamp := timerclear |}.

(** The scan of [arp_cache_alloc] (arp.c:130) over the slots from [entry]
    on: [inl] is the early return of a FREE slot, [inr] the value of
    [oldest] when the scan ends.  [oldest] carries the slot it points to. *)
Fixpoint alloc_scan (rest : list arp_cache) (entry : nat)
    (oldest : option (nat * arp_cache)) : nat + option (nat * arp_cache) :=
  match rest with
  | [] => inr oldest
  | e :: rest' =>
      if state e =? ARP_CACHE_STATE_FREE then inl entry
      else
        let oldest' :=
          match oldest with
          | None => Some (entry, e)
          | Some (o, eo) =>
              if timercmp_gt (timestamp eo) (timestamp e)
              then Some (entry, e) else oldest
          end in
        alloc_scan rest' (S entry) oldest'
  end.

(** [arp_cache_alloc] (arp.c:124): the returned pointer and the table.
    With [oldest] still NULL after the scan, arp_cache_delete would write
    through NULL. *)
Definition arp_cache_alloc (cs : list arp_cache)
    : outcome (option nat * list arp_cache) :=
  match alloc_scan cs 0 None with
  | inl entry => Ret (Some entry, cs)
  | inr (Some (o, eo)) => Ret (Some o, <[o := arp_cache_delete eo]> cs)
  | inr None => Fault
  end.

Section Handler.
Variable host_le : bool.

(** The scan of [arp_cache_select] (arp.c:158): the slot found, with the
    entry it holds. *)
Fixpoint select_scan (pa0 : ip_addr_t) (rest : list arp_cache) (entry : nat)
    : option (nat * arp_cache) :=
  match rest with
  | [] => None
  | e :: rest' =>
      if state e =? ARP_CACHE_STATE_FREE then select_scan pa0 rest' (S entry)
      else if ntoh32 host_le (pa e) =? ntoh32 host_le pa0 then Some (entry, e)
      else select_scan pa0 rest' (S entry)
  end.

(** [arp_cache_select] (arp.c:149). *)
Definition arp_cache_select (pa0 : ip_addr_t) (cs : list arp_cache)
    : option (nat * arp_cache) :=
  select_scan pa0 cs 0.

(** [arp_cache_update] (arp.c:177); [now] is what gettimeofday stores. *)
Definition arp_cache_update (now : timeval) (pa0 : ip_addr_t)
    (ha0 : list byte) (cs : list arp_cache) : option nat * list arp_cache :=
  match arp_cache_select pa0 cs with
  | None => (None, cs)
  | Some (cache, c) =>
      (Some cache,
       <[cache := {| state := ARP_CACHE_STATE_RESOLVED; pa := pa c;
                     ha := ha c; timestamp := now |}]> cs)
  end.

(** [arp_cache_insert] (arp.c:203). *)
Definition arp_cache_insert (now : timeval) (pa0 : ip_addr_t)
    (ha0 : list byte) (cs : list arp_cache)
    : outcome (option nat * list arp_cache) :=
  match arp_cache_alloc cs with
  | Ret (None, cs') => Ret (None, cs')
  | Ret (Some cache, cs') =>
      Ret (Some cache,
           <[cache := {| state := ARP_CACHE_STATE_RESOLVED; pa := pa0;
                         ha := take ETHER_ADDR_LEN ha0;
                         timestamp := now |}]> cs')
  | OutOfFuel => OutOfFuel
  | Fault => Fault
  end.

(** The cast [(struct arp_ether_ip * )data] and its inverse. *)
Definition msg_of_bytes (data : list byte) : arp_ether_ip :=
  {| hdr := {| hrd := load16 host_le (take 2 data);
               pro := load16 host_le (take 2 (drop 2 data));
               hln := byte_to_Z (nth 4 data x00);
               pln := byte_to_Z (nth 5 data x00);
               op := load16 host_le (take 2 (drop 6 data)) |};
     sha := take ETHER_ADDR_LEN (drop 8 data);
     spa := take IP_ADDR_LEN (drop 14 data);
     tha := take ETHER_ADDR_LEN (drop 18 data);
     tpa := take IP_ADDR_LEN (drop 24 data) |}.

Definition bytes_of_msg (m : arp_ether_ip) : list byte :=
  store16 host_le (hrd (hdr m)) ++ store16 host_le (pro (hdr m))
  ++ [Z_to_byte (hln (hdr m)); Z_to_byte (pln (hdr m))]
  ++ store16 host_le (op (hdr m))
  ++ sha m ++ spa m ++ tha m ++ tpa m.

(** Constants of net.h and ether.h, and net_device_get_iface, which this
    revision of net.c does not define: parameters. *)
Variable NET_DEVICE_FLAG_UP : Z.
Variable NET_DEVICE_TYPE_ETHERNET : Z.
Variable NET_IFACE_FAMILY_IP : Z.
Variable ETHER_TYPE_ARP : Z.
Variable net_device_get_iface : net_device -> Z -> option net_iface.

(** [arp_reply] (arp.c:232). *)
Definition arp_reply (iface : net_iface) (tha0 : list byte)
    (tpa0 : ip_addr_t) (dst : list byte) (lg : list event)
    : Z * list event :=
  let reply :=
    {| hdr := {| hrd := hton16 host_le ARP_HRD_ETHER;
                 pro := hton16 host_le ARP_PRO_IP;
                 hln := Z.of_nat ETHER_ADDR_LEN;
                 pln := Z.of_nat IP_ADDR_LEN;
                 op := hton16 host_le ARP_OP_REPLY |};
       sha := take ETHER_ADDR_LEN (addr (dev iface));
       spa := store32 host_le (unicast iface);
       tha := take ETHER_ADDR_LEN tha0;
       tpa := store32 host_le tpa0 |} in
  Net.net_device_output NET_DEVICE_FLAG_UP (dev iface) ETHER_TYPE_ARP
    (bytes_of_msg reply) sizeof_arp_ether_ip (Some dst) lg.

(** [arp_input] (arp.c:256). *)
Definition arp_input (now : timeval) (data : list byte) (len : Z)
    (d : net_device) (st : arp_state) : outcome arp_state :=
  if len <? sizeof_arp_ether_ip then Ret st
  else
    let msg := msg_of_bytes data in
    let spa0 := load32 host_le (spa msg) in
    let tpa0 := load32 host_le (tpa msg) in
    if negb (ntoh16 host_le (hrd (hdr msg)) =? ARP_HRD_ETHER)
       || negb (hln (hdr msg) =? Z.of_nat ETHER_ADDR_LEN)
    then Ret st
    else if negb (ntoh16 host_le (pro (hdr msg)) =? ARP_PRO_IP)
            || negb (pln (hdr msg) =? Z.of_nat IP_ADDR_LEN)
    then Ret st
    else
      let '(updated, cs1) := arp_cache_update now spa0 (sha msg) (caches st) in
      let merge := match updated with Some _ => 1 | None => 0 end in
      let lg1 := log st ++ [EvLock; EvUnlock] in
      match net_device_get_iface d NET_IFACE_FAMILY_IP with
      | None => Ret {| caches := cs1; log := lg1 |}
      | Some iface =>
          if unicast iface =? tpa0 then
            let inserted :=
              if merge =? 0 then
                match arp_cache_insert now spa0 (sha msg) cs1 with
                | Ret (_, cs2) => Ret (cs2, lg1 ++ [EvLock; EvUnlock])
                | OutOfFuel => OutOfFuel
                | Fault => Fault
                end
              else Ret (cs1, lg1) in
            match inserted with
            | Ret (cs2, lg2) =>
                if ntoh16 host_le (op (hdr msg)) =? ARP_OP_REQUEST then
                  let '(_, lg3) :=
                    arp_reply iface (sha msg) spa0 (sha msg) lg2 in
                  Ret {| caches := cs2; log := lg3 |}
                else Ret {| caches := cs2; log := lg2 |}
            | OutOfFuel => OutOfFuel
            | Fault => Fault
            end
          else Ret {| caches := cs1; log := lg1 |}
      end.

(** [arp_resolve] (arp.c:320): the result, the caller's buffer [ha0]
    after the call, and the state. *)
Definition arp_resolve (iface : net_iface) (pa0 : ip_addr_t)
    (ha0 : list byte) (st : arp_state)
    : arp_resolve_result * list byte * arp_state :=
  if negb (type (dev iface) =? NET_DEVICE_TYPE_ETHERNET)
  then (ARP_RESOLVE_ERROR, ha0, st)
  else if negb (family iface =? NET_IFACE_FAMILY_IP)
  then (ARP_RESOLVE_ERROR, ha0, st)
  else
    match arp_cache_select pa0 (caches st) with
    | None =>
        (ARP_RESOLVE_ERROR, ha0,
         {| caches := caches st; log := log st ++ [EvLock; EvUnlock] |})
    | Some (_, cache) =>
        (ARP_RESOLVE_FOUND,
         take ETHER_ADDR_LEN (ha cache) ++ drop ETHER_ADDR_LEN ha0,
         {| caches := caches st; log := log st ++ [EvLock; EvUnlock] |})
    end.

End Handler.

(** [arp_init] (arp.c:358).  NET_PROTOCOL_TYPE_ARP (net.h) is a parameter;
    [arp_input_handler] is the number that stands for the function
    pointer arp_input in the protocol list. *)
Definition arp_init (NET_PROTOCOL_TYPE_ARP : Z) (arp_input_handler : nat)
    (fuel : nat) (alloc_ok : bool) (s : Net.net_state)
    : outcome Z * Net.net_state :=
  match Net.net_protocol_register fuel alloc_ok NET_PROTOCOL_TYPE_ARP
          arp_input_handler s with
  | (Ret r, s') => if r =? -1 then (Ret (-1), s') else (Ret 0, s')
  | (OutOfFuel, s') => (OutOfFuel, s')
  | (Fault, s') => (Fault, s')
  end.

End Arp.

(** ** Vocabulary of the specification *)

Module Spec.
Import Arp.

(** Order on timestamps: seconds first, then microseconds. *)
Definition tv_lt (a b : timeval) : Prop :=
  tv_sec a < tv_sec b \/ (tv_sec a = tv_sec b /\ tv_usec a < tv_usec b).

Definition tv_le (a b : timeval) : Prop :=
  tv_sec a < tv_sec b \/ (tv_sec a = tv_sec b /\ tv_usec a <= tv_usec b).

(** Slot [i] holds an oldest entry, and no slot before it is as old. *)
Definition first_oldest (cs : list arp_cache) (i : nat) : Prop :=
  exists e, cs !! i = Some e /\
    forall j ej, cs !! j = Some ej ->
      tv_le (timestamp e) (timestamp ej) /\
      ((j < i)%nat -> tv_lt (timestamp e) (timestamp ej)).

Definition non_free (e : arp_cache) : Prop := state e <> ARP_CACHE_STATE_FREE.

(** A non-FREE entry that holds protocol address [p]. *)
Definition holds (p : ip_addr_t) (e : arp_cache) : Prop :=
  non_free e /\ pa e = p.

(** Slot [i] is the first one, in scan order, that satisfies [P]. *)
Definition first_slot (P : arp_cache -> Prop) (cs : list arp_cache)
    (i : nat) : Prop :=
  (exists e, cs !! i = Some e /\ P e) /\
  forall j ej, (j < i)%nat -> cs !! j = Some ej -> ~ P ej.

(** The table has its 32 slots and every protocol address in it is a
    32-bit value. *)
Definition wf_caches (cs : list arp_cache) : Prop :=
  length cs = ARP_CACHE_SIZE /\ Forall (fun e => u32 (pa e)) cs.

(** Invariant of the scan for the oldest entry: [o] is the value of
    [oldest] once the slots [pre] have been visited. *)
Definition scan_inv (pre : list arp_cache) (o : option (nat * arp_cache))
    : Prop :=
  match o with
  | None => pre = []
  | Some (i, e) =>
      pre !! i = Some e /\
      forall j ej, pre !! j = Some ej ->
        tv_le (timestamp e) (timestamp ej) /\
        ((j < i)%nat -> tv_lt (timestamp e) (timestamp ej))
  end.

Definition is_free (e : arp_cache) : Prop := state e = ARP_CACHE_STATE_FREE.

(** A reclaimed slot: state FREE, addresses zeroed, timestamp cleared. *)
Definition free_entry : arp_cache :=
  {| state := ARP_CACHE_STATE_FREE; pa := 0;
     ha := [x00; x00; x00; x00; x00; x00];
     timestamp := {| tv_sec := 0; tv_usec := 0 |} |}.

(** What insert and update leave in a slot. *)
Definition resolved_entry (p : ip_addr_t) (h : list byte) (now : timeval)
    : arp_cache :=
  {| state := ARP_CACHE_STATE_RESOLVED; pa := p; ha := h; timestamp := now |}.

(** The 28-byte ARP-over-Ethernet/IPv4 message of §6: hrd = 1,
    pro = 0x0800, hln = 6, pln = 4, the opcode, then sha, spa, tha, tpa;
    multi-byte fields big-endian. *)
Definition arp_wire (opcode : Z) (sha0 spa0 tha0 tpa0 : list byte)
    : list byte :=
  [x00; x01; x08; x00; x06; x04; Z_to_byte (opcode / 256); Z_to_byte opcode]
  ++ sha0 ++ spa0 ++ tha0 ++ tpa0.

(** Node [p] is met when the protocol list is walked from [start]. *)
Inductive reaches (hp : list Net.net_protocol) : option nat -> nat -> Prop :=
| reaches_here p : reaches hp (Some p) p
| reaches_next p node q :
    hp !! p = Some node -> reaches hp (Net.p_next node) q ->
    reaches hp (Some p) q.

(** Type [ty] is registered: a node of that type is on the protocol list. *)
Definition registered (s : Net.net_state) (ty : Z) : Prop :=
  exists p node,
    reaches (Net.heap s) (Net.protocols s) p /\
    Net.heap s !! p = Some node /\ Net.p_type node = ty.

(** The handler call that delivers a queued entry. *)
Definition delivery (h : nat) (e : Net.net_protocol_queue_entry) : event :=
  EvHandler h (Net.entry_data e) (Net.entry_len e) (Net.entry_dev e).

(** The entry [net_input_handler] builds for a frame. *)
Definition entry_of (f : list byte * Z * net_device)
    : Net.net_protocol_queue_entry :=
  let '(data, len, d) := f in
  {| Net.entry_dev := d; Net.entry_len := len;
     Net.entry_data := take (Z.to_nat len) data |}.

(** A sequence of frames input one after the other with the same type,
    memory being available; it stops at the first call that does not
    return 0. *)
Fixpoint input_all (fuel : nat) (ty : Z)
    (frames : list (list byte * Z * net_device)) (s : Net.net_state)
    : outcome Z * Net.net_state :=
  match frames with
  | [] => (Ret 0, s)
  | (data, len, d) :: rest =>
      match Net.net_input_handler fuel true ty data len d s with
      | (Ret 0, s') => input_all fuel ty rest s'
      | other => other
      end
  end.

(** The node [protocols] designates is of type [ty] with handler [h] and
    queue [q], and is its own successor. *)
Definition sole_protocol (s : Net.net_state) (ty : Z) (h : nat)
    (q : list Net.net_protocol_queue_entry) : Prop :=
  exists p, Net.protocols s = Some p /\
    Net.heap s !! p
    = Some {| Net.p_next := Some p; Net.p_type := ty; Net.p_queue := q;
              Net.p_handler := h |}.

(** The state after the mutex was taken and released once. *)
Definition locked (st : arp_state) : arp_state :=
  {| caches := caches st; log := log st ++ [EvLock; EvUnlock] |}.

Definition is_lock_event (ev : event) : Prop :=
  ev = EvLock \/ ev = EvUnlock.

End Spec.

(** ** Concrete inputs *)

Module Examples.
Import Arp Spec.

Definition ex_now : timeval := {| tv_sec := 1000; tv_usec := 250 |}.

Definition ex_ha : list byte := [xaa; xaa; xaa; xaa; xaa; xaa].

(** 10.0.0.1 and 10.0.0.2 as the 32-bit objects a little-endian host
    holds for them. *)
Definition ex_ip1 : ip_addr_t := 0x0100000a.
Definition ex_ip2 : ip_addr_t := 0x0200000a.

Definition ex_entry (sec : Z) (p : ip_addr_t) : arp_cache :=
  {| state := ARP_CACHE_STATE_RESOLVED; pa := p;
     ha := [x02; x00; x00; x00; x00; x01];
     timestamp := {| tv_sec := sec; tv_usec := 0 |} |}.

(** A full table: slot [k] holds address [100 + k]; slots 7 and 20 share
    the smallest timestamp. *)
Definition ex_full : list arp_cache :=
  map (fun k => ex_entry (if (k =? 7) || (k =? 20) then 5 else 10 + k)
                         (100 + k))
      (map Z.of_nat (seq 0 32)).

(** The same table with slots 3 and 9 FREE. *)
Definition ex_partial : list arp_cache :=
  <[9%nat := free_entry]> (<[3%nat := free_entry]> ex_full).

(** An Ethernet device that is up, with an IP interface owning 10.0.0.2,
    under the usual values of the net.h constants (NET_DEVICE_FLAG_UP = 1,
    NET_DEVICE_TYPE_ETHERNET = 2, NET_IFACE_FAMILY_IP = 1,
    ETHER_TYPE_ARP = 0x0806). *)
Definition ex_ops : net_device_ops := {| transmit := fun _ _ _ _ => 0 |}.

Definition ex_dev : net_device :=
  {| index := 0; type := 2; mtu := 1500; flags := 1;
     addr := [x02; x00; x00; x00; x00; x02; x00; x00;
              x00; x00; x00; x00; x00; x00; x00; x00];
     ops := ex_ops |}.

Definition ex_iface : net_iface :=
  {| dev := ex_dev; family := 1; unicast := ex_ip2 |}.

Definition ex_get_iface (d : net_device) (fam : Z) : option net_iface :=
  if fam =? 1 then Some ex_iface else None.

(** A loopback-type device (type 1) with the same interface. *)
Definition ex_loopback_iface : net_iface :=
  {| dev := {| index := 1; type := 1; mtu := 65535; flags := 1; addr := [];
               ops := ex_ops |};
     family := 1; unicast := ex_ip2 |}.

(** The REQUEST of §8 (spa 10.0.0.1, sha AA:AA:AA:AA:AA:AA, tpa 10.0.0.2)
    and the REPLY expected for it. *)
Definition ex_request : list byte :=
  arp_wire ARP_OP_REQUEST ex_ha [x0a; x00; x00; x01]
    [x00; x00; x00; x00; x00; x00] [x0a; x00; x00; x02].

Definition ex_reply : list byte :=
  arp_wire ARP_OP_REPLY [x02; x00; x00; x00; x00; x02] [x0a; x00; x00; x02]
    ex_ha [x0a; x00; x00; x01].

(** The registry after [net_protocol_register(0x0800, handler 1)] on the
    initial state. *)
Definition ex_net_ip : Net.net_state :=
  snd (Net.net_protocol_register 1 true 0x0800 1 Net.net_init_state).

(** A registry holding two protocols as a NULL-terminated list: IP
    (handler 1) at the head, then ARP (handler 2). *)
Definition ex_net_two : Net.net_state :=
  {| Net.heap :=
       [ {| Net.p_next := None; Net.p_type := 0x0806; Net.p_queue := [];
            Net.p_handler := 2 |};
         {| Net.p_next := Some 0%nat; Net.p_type := 0x0800;
            Net.p_queue := []; Net.p_handler := 1 |} ];
     Net.protocols := Some 1%nat;
     Net.log := [] |}.

Definition ex_frame : list byte := [xde; xad; xbe].

Definition ex_arp_full : arp_state := {| caches := ex_full; log := [] |}.

Definition ex_arp_empty : arp_state :=
  {| caches := repeat free_entry 32; log := [] |}.

End Examples.

(** ** Further vocabulary: invariants and well-formed lists *)

Module Props.
Import Arp Spec.

(** The table has its 32 slots, every protocol address in it is a 32-bit
    value and every hardware address has its 6 bytes. *)
Definition table_ok (cs : list arp_cache) : Prop :=
  length cs = ARP_CACHE_SIZE /\
  Forall (fun e => u32 (pa e) /\ length (ha e) = ETHER_ADDR_LEN) cs.

(** No two non-FREE slots hold the same protocol address. *)
Definition unique_holders (cs : list arp_cache) : Prop :=
  forall i j ei ej,
    cs !! i = Some ei -> cs !! j = Some ej ->
    non_free ei -> non_free ej -> pa ei = pa ej -> i = j.

Definition is_transmit (ev : event) : Prop :=
  match ev with
  | EvTransmit _ _ _ _ _ => True
  | _ => False
  end.

(** The message passes the length and address-type checks of arp_input. *)
Definition accepted (le : bool) (data : list byte) (len : Z) : bool :=
  let h := hdr (msg_of_bytes le data) in
  negb (len <? sizeof_arp_ether_ip)
  && (ntoh16 le (hrd h) =? ARP_HRD_ETHER)
  && (hln h =? Z.of_nat ETHER_ADDR_LEN)
  && (ntoh16 le (pro h) =? ARP_PRO_IP)
  && (pln h =? Z.of_nat IP_ADDR_LEN).

(** The message is addressed to the IP interface of the device. *)
Definition for_us (le : bool)
    (get_iface : net_device -> Z -> option net_iface) (family_ip : Z)
    (d : net_device) (data : list byte) (iface : net_iface) : Prop :=
  get_iface d family_ip = Some iface /\
  unicast iface = load32 le (tpa (msg_of_bytes le data)).

(** [data] points to at least [len] bytes. *)
Definition buffer_ok (data : list byte) (len : Z) : Prop :=
  len <= Z.of_nat (length data).

(** Walking the [next] links from [start] visits the addresses [ps], in
    this order, and then reaches NULL. *)
Inductive chain {A : Type} (next : A -> option nat) (hp : list A)
    : option nat -> list nat -> Prop :=
| chain_nil : chain next hp None []
| chain_cons p node ps :
    hp !! p = Some node -> chain next hp (next node) ps ->
    chain next hp (Some p) (p :: ps).

(** The handler calls that drain the queue of node [p]. *)
Definition deliveries (hp : list Net.net_protocol) (p : nat) : list event :=
  match hp !! p with
  | Some node => map (delivery (Net.p_handler node)) (Net.p_queue node)
  | None => []
  end.

(** States the registry can be in: the initial one, and what a returning
    call of the three entry points leaves. *)
Inductive reachable : Net.net_state -> Prop :=
| reachable_init : reachable Net.net_init_state
| reachable_register fuel alloc_ok ty handler s r s' :
    reachable s ->
    Net.net_protocol_register fuel alloc_ok ty handler s = (Ret r, s') ->
    reachable s'
| reachable_input fuel alloc_ok ty data len d s r s' :
    reachable s ->
    Net.net_input_handler fuel alloc_ok ty data len d s = (Ret r, s') ->
    reachable s'
| reachable_softirq fuel s r s' :
    reachable s ->
    Net.net_softirq_handler fuel s = (Ret r, s') ->
    reachable s'.

(** A device is up. *)
Definition is_up (flag_up : Z) (n : Net.net_device_node) : Prop :=
  Net.NET_DEVICE_IS_UP flag_up (Net.nd_dev n) = true.

(** The open (close) entry of the node's driver is absent or succeeds. *)
Definition open_succeeds (n : Net.net_device_node) : Prop :=
  match Net.nd_open n with
  | Some open => open (Net.nd_dev n) <> -1
  | None => True
  end.

Definition close_succeeds (n : Net.net_device_node) : Prop :=
  match Net.nd_close n with
  | Some close => close (Net.nd_dev n) <> -1
  | None => True
  end.

(** The node with its device marked up (down): only [flags] changes. *)
Definition marked_up (flag_up : Z) (n : Net.net_device_node)
    : Net.net_device_node :=
  Net.set_dev
    (Net.set_flags (Z.lor (flags (Net.nd_dev n)) flag_up) (Net.nd_dev n)) n.

Definition marked_down (flag_up : Z) (n : Net.net_device_node)
    : Net.net_device_node :=
  Net.set_dev
    (Net.set_flags (Z.land (flags (Net.nd_dev n)) (Z.lnot flag_up))
       (Net.nd_dev n)) n.

(** What net_device_open (net_device_close) makes of a node. *)
Definition opened_as (flag_up : Z) (n n' : Net.net_device_node) : Prop :=
  (is_up flag_up n /\ n' = n)
  \/ (~ is_up flag_up n /\ ~ open_succeeds n /\ n' = n)
  \/ (~ is_up flag_up n /\ open_succeeds n /\ n' = marked_up flag_up n).

Definition closed_as (flag_up : Z) (n n' : Net.net_device_node) : Prop :=
  (~ is_up flag_up n /\ n' = n)
  \/ (is_up flag_up n /\ ~ close_succeeds n /\ n' = n)
  \/ (is_up flag_up n /\ close_succeeds n /\ n' = marked_down flag_up n).

End Props.

(** ** Further concrete inputs *)

Module MoreExamples.
Import Arp Spec Props Examples.

(** A 28-byte message whose hardware type is 6 (IEEE 802), not Ethernet. *)
Definition ex_bad_frame : list byte :=
  [x00; x06; x08; x00; x06; x04; x00; x01] ++ repeat x00 20.

(** A device without IP interface. *)
Definition ex_no_iface (d : net_device) (fam : Z) : option net_iface := None.

(** A REQUEST for 10.0.0.2 from the address slot 5 of [ex_full] holds (105
    as a little-endian object), sent from hardware address
    BB:BB:BB:BB:BB:BB. *)
Definition ex_known_request : list byte :=
  arp_wire ARP_OP_REQUEST [xbb; xbb; xbb; xbb; xbb; xbb] [x69; x00; x00; x00]
    [x00; x00; x00; x00; x00; x00] [x0a; x00; x00; x02].

(** The requesting host of [ex_request]: a big-endian host whose
    interface owns 10.0.0.1. *)
Definition ex_iface_a : net_iface :=
  {| dev := ex_dev; family := 1; unicast := 0x0a000001 |}.

Definition ex_get_iface_a (d : net_device) (fam : Z) : option net_iface :=
  if fam =? 1 then Some ex_iface_a else None.

(** Two little-endian hosts for an exchange in which the requester already
    holds an entry for the owner: the requester owns address 105, the
    owner address 107, which slot 7 of [ex_full] holds with hardware
    address 02:00:00:00:00:01. *)
Definition ex_iface_105 : net_iface :=
  {| dev := ex_dev; family := 1; unicast := 105 |}.

Definition ex_get_iface_105 (d : net_device) (fam : Z) : option net_iface :=
  if fam =? 1 then Some ex_iface_105 else None.

Definition ex_iface_107 : net_iface :=
  {| dev := ex_dev; family := 1; unicast := 107 |}.

Definition ex_get_iface_107 (d : net_device) (fam : Z) : option net_iface :=
  if fam =? 1 then Some ex_iface_107 else None.

Definition ex_stale_reply : list byte :=
  arp_wire ARP_OP_REPLY [x02; x00; x00; x00; x00; x02] [x6b; x00; x00; x00]
    ex_ha [x69; x00; x00; x00].

(** The two-protocol list with a backlog: two entries queued on the IP
    node (the head), one on the ARP node. *)
Definition ex_entry1 : Net.net_protocol_queue_entry :=
  {| Net.entry_dev := ex_dev; Net.entry_len := 3; Net.entry_data := ex_frame |}.

Definition ex_entry2 : Net.net_protocol_queue_entry :=
  {| Net.entry_dev := ex_dev; Net.entry_len := 1; Net.entry_data := [x01] |}.

Definition ex_entry3 : Net.net_protocol_queue_entry :=
  {| Net.entry_dev := ex_dev; Net.entry_len := 2;
     Net.entry_data := [x02; x03] |}.

Definition ex_net_backlog : Net.net_state :=
  {| Net.heap :=
       [ {| Net.p_next := None; Net.p_type := 0x0806;
            Net.p_queue := [ex_entry3]; Net.p_handler := 2 |};
         {| Net.p_next := Some 0%nat; Net.p_type := 0x0800;
            Net.p_queue := [ex_entry1; ex_entry2]; Net.p_handler := 1 |} ];
     Net.protocols := Some 1%nat;
     Net.log := [] |}.

(** Two devices: a loopback without open and close entries, and an
    Ethernet device whose open and close succeed; both allocated and
    down, none registered yet. *)
Definition ex_node_lo : Net.net_device_node :=
  {| Net.nd_dev := {| index := 0; type := 1; mtu := 65535; flags := 0x10;
                      addr := []; ops := ex_ops |};
     Net.nd_next := None; Net.nd_name := [];
     Net.nd_open := None; Net.nd_close := None |}.

Definition ex_node_eth : Net.net_device_node :=
  {| Net.nd_dev := {| index := 0; type := 2; mtu := 1500; flags := 0x20;
                      addr := [x02; x00; x00; x00; x00; x02];
                      ops := ex_ops |};
     Net.nd_next := None; Net.nd_name := [];
     Net.nd_open := Some (fun _ => 0); Net.nd_close := Some (fun _ => 0) |}.

Definition ex_devs0 : Net.dev_state :=
  {| Net.dev_heap := [ex_node_lo; ex_node_eth]; Net.devices := None;
     Net.dev_index := 0; Net.dev_log := [] |}.

(** A device whose driver opens but refuses to close. *)
Definition ex_node_stuck : Net.net_device_node :=
  {| Net.nd_dev := {| index := 0; type := 2; mtu := 1500; flags := 0x20;
                      addr := [x02; x00; x00; x00; x00; x03];
                      ops := ex_ops |};
     Net.nd_next := None; Net.nd_name := [];
     Net.nd_open := Some (fun _ => 0); Net.nd_close := Some (fun _ => -1) |}.

Definition ex_devs_stuck : Net.dev_state :=
  {| Net.dev_heap := [ex_node_stuck]; Net.devices := None;
     Net.dev_index := 0; Net.dev_log := [] |}.


Definition ex_name (i : Z) : list byte := [x6e; x65; x74; Z_to_byte (48 + i)].

(** Both registered: the loopback first, then the Ethernet device. *)
Definition ex_devs2 : Net.dev_state :=
  snd (Net.net_device_register ex_name 1
         (snd (Net.net_device_register ex_name 0 ex_devs0))).

End MoreExamples.

(** ** Byte order *)

Module UtilFacts.

Lemma byte_to_Z_range (b : byte) : 0 <= byte_to_Z b < 256.
Proof.
  unfold byte_to_Z. pose proof (Byte.to_N_bounded b). lia.
Qed.

Lemma Z_to_byte_to_Z (b : byte) : Z_to_byte (byte_to_Z b) = b.
Proof.
  unfold Z_to_byte. pose proof (byte_to_Z_range b) as Hb.
  rewrite Z.mod_small by exact Hb.
  unfold byte_to_Z. rewrite N2Z.id, Byte.of_to_N. reflexivity.
Qed.

Lemma Z_to_byte_low (x y : Z) :
  0 <= x < 256 -> Z_to_byte (x + 256 * y) = Z_to_byte x.
Proof.
  intros Hx. unfold Z_to_byte.
  assert (E : (x + 256 * y) mod 256 = x mod 256).
  { rewrite (Z.mul_comm 256 y). apply Z_mod_plus_full. }
  rewrite E. reflexivity.
Qed.

Lemma div_256_low (x y : Z) : 0 <= x < 256 -> (x + 256 * y) / 256 = y.
Proof. intros Hx. Z.div_mod_to_equations. lia. Qed.

Lemma load32_range (le : bool) (bs : list byte) : u32 (load32 le bs).
Proof.
  unfold u32, load32.
  destruct bs as [|b0 [|b1 [|b2 [|b3 [|? ?]]]]]; try lia.
  pose proof (byte_to_Z_range b0). pose proof (byte_to_Z_range b1).
  pose proof (byte_to_Z_range b2). pose proof (byte_to_Z_range b3).
  destruct le; lia.
Qed.

Lemma digits4 (x0 x1 x2 x3 : Z) :
  0 <= x0 < 256 -> 0 <= x1 < 256 -> 0 <= x2 < 256 -> 0 <= x3 < 256 ->
  let v := x0 + 256 * x1 + 65536 * x2 + 16777216 * x3 in
  Z_to_byte v = Z_to_byte x0 /\ Z_to_byte (v / 256) = Z_to_byte x1 /\
  Z_to_byte (v / 65536) = Z_to_byte x2 /\
  Z_to_byte (v / 16777216) = Z_to_byte x3.
Proof.
  intros H0 H1 H2 H3 v.
  assert (D1 : v / 256 = x1 + 256 * (x2 + 256 * x3)).
  { unfold v.
    replace (x0 + 256 * x1 + 65536 * x2 + 16777216 * x3)
      with (x0 + 256 * (x1 + 256 * (x2 + 256 * x3))) by lia.
    apply div_256_low; exact H0. }
  assert (D2 : v / 65536 = x2 + 256 * x3).
  { replace (v / 65536) with (v / 256 / 256)
      by (rewrite Z.div_div by lia; reflexivity).
    rewrite D1. apply div_256_low; exact H1. }
  assert (D3 : v / 16777216 = x3).
  { replace (v / 16777216) with (v / 65536 / 256)
      by (rewrite Z.div_div by lia; reflexivity).
    rewrite D2. replace x3 with (x3 + 256 * 0) at 2 by lia.
    replace (x2 + 256 * x3) with (x2 + 256 * (x3 + 256 * 0)) by lia.
    apply div_256_low; exact H2. }
  rewrite D1, D2, D3. repeat split.
  - unfold v.
    replace (x0 + 256 * x1 + 65536 * x2 + 16777216 * x3)
      with (x0 + 256 * (x1 + 256 * (x2 + 256 * x3))) by lia.
    apply Z_to_byte_low; exact H0.
  - apply Z_to_byte_low; exact H1.
  - apply Z_to_byte_low; exact H2.
Qed.

Lemma store32_load32 (le : bool) (bs : list byte) :
  length bs = 4%nat -> store32 le (load32 le bs) = bs.
Proof.
  intros Hlen.
  destruct bs as [|b0 [|b1 [|b2 [|b3 [|? ?]]]]]; try discriminate Hlen.
  pose proof (byte_to_Z_range b0) as H0. pose proof (byte_to_Z_range b1) as H1.
  pose proof (byte_to_Z_range b2) as H2. pose proof (byte_to_Z_range b3) as H3.
  unfold store32, load32. destruct le.
  - destruct (digits4 _ _ _ _ H0 H1 H2 H3) as (E0 & E1 & E2 & E3).
    cbv zeta in E0, E1, E2, E3.
    rewrite E0, E1, E2, E3, !Z_to_byte_to_Z. reflexivity.
  - destruct (digits4 _ _ _ _ H3 H2 H1 H0) as (E0 & E1 & E2 & E3).
    cbv zeta in E0, E1, E2, E3.
    replace (16777216 * byte_to_Z b0 + 65536 * byte_to_Z b1
             + 256 * byte_to_Z b2 + byte_to_Z b3)
      with (byte_to_Z b3 + 256 * byte_to_Z b2 + 65536 * byte_to_Z b1
            + 16777216 * byte_to_Z b0) by lia.
    rewrite E0, E1, E2, E3, !Z_to_byte_to_Z. reflexivity.
Qed.

Lemma byteswap32_digits (a : Z) :
  u32 a ->
  exists a0 a1 a2 a3,
    (0 <= a0 < 256 /\ 0 <= a1 < 256 /\ 0 <= a2 < 256 /\ 0 <= a3 < 256) /\
    a = a0 + 256 * a1 + 65536 * a2 + 16777216 * a3 /\
    byteswap32 a = a0 * 16777216 + a1 * 65536 + a2 * 256 + a3.
Proof.
  intros Ha. unfold u32 in Ha. unfold byteswap32.
  replace (a / 65536) with (a / 256 / 256)
    by (rewrite Z.div_div by lia; reflexivity).
  replace (a / 16777216) with (a / 256 / 256 / 256)
    by (rewrite !Z.div_div by lia; reflexivity).
  pose proof (Z.div_mod a 256 ltac:(lia)) as E0.
  pose proof (Z.div_mod (a / 256) 256 ltac:(lia)) as E1.
  pose proof (Z.div_mod (a / 256 / 256) 256 ltac:(lia)) as E2.
  pose proof (Z.mod_pos_bound a 256 ltac:(lia)) as B0.
  pose proof (Z.mod_pos_bound (a / 256) 256 ltac:(lia)) as B1.
  pose proof (Z.mod_pos_bound (a / 256 / 256) 256 ltac:(lia)) as B2.
  set (q1 := a / 256) in *. set (q2 := q1 / 256) in *.
  set (q3 := q2 / 256) in *.
  assert (B3 : 0 <= q3 < 256) by lia.
  rewrite (Z.mod_small q3) by exact B3.
  exists (a mod 256), (q1 mod 256), (q2 mod 256), q3.
  repeat split; lia.
Qed.

Lemma byteswap32_inj (a b : Z) :
  u32 a -> u32 b -> byteswap32 a = byteswap32 b -> a = b.
Proof.
  intros Ha Hb H.
  destruct (byteswap32_digits a Ha) as (a0 & a1 & a2 & a3 & Ba & -> & Ea).
  destruct (byteswap32_digits b Hb) as (b0 & b1 & b2 & b3 & Bb & -> & Eb).
  rewrite Ea, Eb in H. lia.
Qed.

Lemma ntoh32_inj (le : bool) (a b : Z) :
  u32 a -> u32 b -> ntoh32 le a = ntoh32 le b -> a = b.
Proof.
  unfold ntoh32. destruct le; [apply byteswap32_inj | auto].
Qed.

Lemma ntoh32_eqb (le : bool) (a b : Z) :
  u32 a -> u32 b -> (ntoh32 le a =? ntoh32 le b) = (a =? b).
Proof.
  intros Ha Hb. destruct (Z.eqb_spec a b) as [->|Hne].
  - apply Z.eqb_refl.
  - apply Z.eqb_neq. intros H. apply Hne. eapply ntoh32_inj; eauto.
Qed.

End UtilFacts.

(** ** The ARP cache *)

Module ArpCacheFacts.
Import Arp Spec UtilFacts.

Lemma timercmp_gt_true (a b : timeval) : timercmp_gt a b = true <-> tv_lt b a.
Proof.
  unfold timercmp_gt, tv_lt.
  destruct (Z.eqb_spec (tv_sec a) (tv_sec b)); rewrite Z.gtb_ltb, Z.ltb_lt; lia.
Qed.

Lemma timercmp_gt_false (a b : timeval) : timercmp_gt a b = false <-> tv_le a b.
Proof.
  unfold timercmp_gt, tv_le.
  destruct (Z.eqb_spec (tv_sec a) (tv_sec b)); rewrite Z.gtb_ltb, Z.ltb_ge; lia.
Qed.

Lemma tv_le_refl (a : timeval) : tv_le a a.
Proof. unfold tv_le. lia. Qed.

Lemma tv_lt_le_trans (a b c : timeval) : tv_lt a b -> tv_le b c -> tv_lt a c.
Proof. unfold tv_lt, tv_le. lia. Qed.

Lemma tv_lt_le (a b : timeval) : tv_lt a b -> tv_le a b.
Proof. unfold tv_lt, tv_le. lia. Qed.

(** A scan that meets no FREE slot runs to the end and keeps the invariant. *)
Lemma alloc_scan_full (rest pre : list arp_cache)
    (o : option (nat * arp_cache)) :
  Forall non_free rest -> scan_inv pre o ->
  exists o', alloc_scan rest (length pre) o = inr o' /\
             scan_inv (pre ++ rest) o'.
Proof.
  revert pre o. induction rest as [|e rest IH]; intros pre o Hnf Hinv.
  - exists o. rewrite app_nil_r. split; [reflexivity | exact Hinv].
  - apply Forall_cons in Hnf as [He Hnf]. cbn [alloc_scan].
    destruct (Z.eqb_spec (state e) ARP_CACHE_STATE_FREE) as [Hf|_];
      [contradiction|].
    replace (S (length pre)) with (length (pre ++ [e]))
      by (rewrite length_app; cbn; lia).
    replace (pre ++ e :: rest) with ((pre ++ [e]) ++ rest)
      by (rewrite <- app_assoc; reflexivity).
    apply IH; [exact Hnf|].
    destruct o as [[i ei]|]; cbn [scan_inv] in *.
    + destruct Hinv as [Hi Hmin].
      pose proof (lookup_lt_Some _ _ _ Hi) as Hlt.
      destruct (timercmp_gt (timestamp ei) (timestamp e)) eqn:Hcmp.
      * apply timercmp_gt_true in Hcmp. cbn [scan_inv]. split.
        { rewrite lookup_app_r by lia. rewrite Nat.sub_diag. reflexivity. }
        intros j ej Hj.
        destruct (decide (j < length pre)%nat) as [Hjl|Hjl].
        { rewrite lookup_app_l in Hj by exact Hjl.
          destruct (Hmin j ej Hj) as [Hle _].
          pose proof (tv_lt_le_trans _ _ _ Hcmp Hle) as Hlt'.
          split; [apply tv_lt_le; exact Hlt' | intros _; exact Hlt']. }
        { rewrite lookup_app_r in Hj by lia.
          destruct (j - length pre)%nat as [|n] eqn:Hn; [|destruct n; discriminate].
          cbn in Hj. injection Hj as <-. split; [apply tv_le_refl | lia]. }
      * apply timercmp_gt_false in Hcmp. cbn [scan_inv]. split.
        { rewrite lookup_app_l by exact Hlt. exact Hi. }
        intros j ej Hj.
        destruct (decide (j < length pre)%nat) as [Hjl|Hjl].
        { rewrite lookup_app_l in Hj by exact Hjl. apply Hmin; exact Hj. }
        { rewrite lookup_app_r in Hj by lia.
          destruct (j - length pre)%nat as [|n] eqn:Hn; [|destruct n; discriminate].
          cbn in Hj. injection Hj as <-. split; [exact Hcmp | lia]. }
    + subst pre. cbn. split; [reflexivity|].
      intros j ej Hj. destruct j as [|j]; [|destruct j; discriminate].
      cbn in Hj. injection Hj as <-. split; [apply tv_le_refl | lia].
Qed.

(** A scan returns the first FREE slot it meets. *)
Lemma alloc_scan_free (rest : list arp_cache) (entry : nat)
    (o : option (nat * arp_cache)) (k : nat) :
  first_slot is_free rest k ->
  alloc_scan rest entry o = inl (entry + k)%nat.
Proof.
  revert entry o k. induction rest as [|e rest IH]; intros entry o k [[ek [Hk Hfree]] Hbefore].
  - discriminate Hk.
  - cbn [alloc_scan]. destruct k as [|k].
    + cbn in Hk. injection Hk as ->. rewrite Hfree, Z.eqb_refl.
      f_equal. lia.
    + destruct (Z.eqb_spec (state e) ARP_CACHE_STATE_FREE) as [Hf|_].
      { exfalso. apply (Hbefore 0%nat e); [lia | reflexivity | exact Hf]. }
      rewrite (IH (S entry) _ k).
      * f_equal. lia.
      * split; [exists ek; split; assumption|].
        intros j ej Hj Hlk. apply (Hbefore (S j) ej); [lia | exact Hlk].
Qed.

Lemma alloc_when_full (cs : list arp_cache) :
  cs <> [] -> Forall non_free cs ->
  exists i e, cs !! i = Some e /\ first_oldest cs i /\
    arp_cache_alloc cs = Ret (Some i, <[i := arp_cache_delete e]> cs).
Proof.
  intros Hne Hnf.
  destruct (alloc_scan_full cs [] None Hnf eq_refl) as [o' [Hscan Hinv]].
  cbn in Hscan, Hinv. unfold arp_cache_alloc. rewrite Hscan.
  destruct o' as [[i e]|]; [|contradiction].
  destruct Hinv as [Hi Hmin].
  exists i, e. split; [exact Hi|]. split; [|reflexivity].
  exists e. split; assumption.
Qed.

Lemma alloc_when_free (cs : list arp_cache) (i : nat) :
  first_slot is_free cs i ->
  arp_cache_alloc cs = Ret (Some i, cs).
Proof.
  intros Hfirst. unfold arp_cache_alloc.
  rewrite (alloc_scan_free cs 0 None i Hfirst). reflexivity.
Qed.

Lemma first_slot_or_none (P : arp_cache -> Prop)
    `{forall e, Decision (P e)} (cs : list arp_cache) :
  (exists i, first_slot P cs i) \/ Forall (fun e => ~ P e) cs.
Proof.
  destruct (list_find P cs) as [[i e]|] eqn:Hfind.
  - left. apply list_find_Some in Hfind as (Hi & HP & Hbefore).
    exists i. split; [exists e; split; assumption|].
    intros j ej Hj Hlk. eapply Hbefore; eassumption.
  - right. apply list_find_None in Hfind. exact Hfind.
Qed.

End ArpCacheFacts.

Module ArpCacheClaims.
Import Arp Spec UtilFacts ArpCacheFacts Examples.

Lemma select_scan_none (le : bool) (p : ip_addr_t) (rest : list arp_cache)
    (entry : nat) :
  u32 p -> Forall (fun e => u32 (pa e)) rest ->
  Forall (fun e => ~ holds p e) rest ->
  select_scan le p rest entry = None.
Proof.
  intros Hp. revert entry.
  induction rest as [|e rest IH]; intros entry Hwf Hno; [reflexivity|].
  apply Forall_cons in Hwf as [He Hwf]. apply Forall_cons in Hno as [Hne Hno].
  cbn [select_scan].
  destruct (Z.eqb_spec (state e) ARP_CACHE_STATE_FREE) as [_|Hnf];
    [apply IH; assumption|].
  rewrite ntoh32_eqb by assumption.
  destruct (Z.eqb_spec (pa e) p) as [Heq|_]; [|apply IH; assumption].
  exfalso. apply Hne. split; assumption.
Qed.

Lemma select_scan_first (le : bool) (p : ip_addr_t) (rest : list arp_cache)
    (entry k : nat) (e : arp_cache) :
  u32 p -> Forall (fun e => u32 (pa e)) rest ->
  first_slot (holds p) rest k -> rest !! k = Some e ->
  select_scan le p rest entry = Some ((entry + k)%nat, e).
Proof.
  intros Hp. revert entry k.
  induction rest as [|e0 rest IH]; intros entry k Hwf [[ek [Hk Hholds]] Hbefore] Hke;
    [discriminate Hk|].
  apply Forall_cons in Hwf as [He0 Hwf]. cbn [select_scan].
  destruct k as [|k].
  - cbn in Hk, Hke. injection Hk as ->. injection Hke as ->.
    destruct Hholds as [Hnf Hpa].
    destruct (Z.eqb_spec (state e) ARP_CACHE_STATE_FREE); [contradiction|].
    rewrite Hpa, Z.eqb_refl. do 2 f_equal. lia.
  - assert (Hnot : ~ holds p e0).
    { apply (Hbefore 0%nat e0); [lia | reflexivity]. }
    assert (Hrec : select_scan le p rest (S entry) = Some ((entry + S k)%nat, e)).
    { rewrite (IH (S entry) k); try assumption.
      - do 2 f_equal. lia.
      - split; [exists ek; split; assumption|].
        intros j ej Hj Hlk. apply (Hbefore (S j) ej); [lia | exact Hlk]. }
    destruct (Z.eqb_spec (state e0) ARP_CACHE_STATE_FREE) as [_|Hnf];
      [exact Hrec|].
    rewrite ntoh32_eqb by assumption.
    destruct (Z.eqb_spec (pa e0) p) as [Heq|_]; [|exact Hrec].
    exfalso. apply Hnot. split; assumption.
Qed.

(** C4: with all 32 slots non-FREE, [arp_cache_alloc] zeroes the slot with
    the smallest timestamp, the first such slot in scan order, and
    [arp_cache_insert] fills that slot with state RESOLVED, the new
    protocol and hardware address and the fresh timestamp; when some slot
    is FREE, the first FREE slot is used and the table is otherwise left
    as it was. *)
Theorem C4_insert_evicts_first_oldest (now : timeval) (p : ip_addr_t)
    (h : list byte) (cs : list arp_cache) :
  length cs = ARP_CACHE_SIZE -> length h = ETHER_ADDR_LEN ->
  (Forall non_free cs ->
     exists i, first_oldest cs i /\
       arp_cache_alloc cs = Ret (Some i, <[i := free_entry]> cs) /\
       arp_cache_insert now p h cs
       = Ret (Some i, <[i := resolved_entry p h now]> cs))
  /\ (forall i, first_slot is_free cs i ->
        arp_cache_alloc cs = Ret (Some i, cs) /\
        arp_cache_insert now p h cs
        = Ret (Some i, <[i := resolved_entry p h now]> cs)).
Proof.
  intros Hlen Hh.
  assert (Htake : take ETHER_ADDR_LEN h = h).
  { apply take_ge. lia. }
  split.
  - intros Hnf.
    assert (Hne : cs <> []) by (intros ->; discriminate Hlen).
    destruct (alloc_when_full cs Hne Hnf) as (i & e & Hi & Hfirst & Halloc).
    exists i. split; [exact Hfirst|]. split; [exact Halloc|].
    unfold arp_cache_insert. rewrite Halloc, list_insert_insert_eq, Htake.
    reflexivity.
  - intros i Hfirst. pose proof (alloc_when_free cs i Hfirst) as Halloc.
    split; [exact Halloc|].
    unfold arp_cache_insert. rewrite Halloc, Htake. reflexivity.
Qed.

Lemma C4_witness :
  length ex_full = ARP_CACHE_SIZE /\ length ex_ha = ETHER_ADDR_LEN /\
  Forall non_free ex_full /\ first_slot is_free ex_partial 3 /\
  arp_cache_insert ex_now ex_ip1 ex_ha ex_full
  = Ret (Some 7%nat, <[7%nat := resolved_entry ex_ip1 ex_ha ex_now]> ex_full) /\
  arp_cache_insert ex_now ex_ip1 ex_ha ex_partial
  = Ret (Some 3%nat, <[3%nat := resolved_entry ex_ip1 ex_ha ex_now]> ex_partial).
Proof.
  assert (Hnf : Forall non_free ex_full).
  { unfold ex_full. apply Forall_forall. intros e He.
    apply list_elem_of_fmap in He as (k & -> & _). discriminate. }
  assert (Hfree : first_slot is_free ex_partial 3).
  { split; [exists free_entry; split; reflexivity|].
    intros j ej Hj Hlk.
    destruct j as [|[|[|j]]]; [| | |lia];
      cbn in Hlk; injection Hlk as <-; discriminate. }
  split; [reflexivity|]. split; [reflexivity|].
  split; [exact Hnf|]. split; [exact Hfree|].
  destruct (C4_insert_evicts_first_oldest ex_now ex_ip1 ex_ha ex_full
              eq_refl eq_refl) as [Hfull _].
  destruct (C4_insert_evicts_first_oldest ex_now ex_ip1 ex_ha ex_partial
              eq_refl eq_refl) as [_ Hpart].
  split; [|apply (Hpart 3%nat Hfree)].
  destruct (Hfull Hnf) as (i & _ & _ & Hins).
  assert (Hi : i = 7%nat).
  { vm_compute in Hins. injection Hins as Hi _. symmetry. exact Hi. }
  subst i. exact Hins.
Defined.

(** On the 32-slot table the scan ends in one of two ways. *)
Lemma alloc_cases (cs : list arp_cache) :
  length cs = ARP_CACHE_SIZE ->
  exists i, (i < ARP_CACHE_SIZE)%nat /\
    ((first_slot is_free cs i /\ arp_cache_alloc cs = Ret (Some i, cs))
     \/ (Forall non_free cs /\ first_oldest cs i /\
         arp_cache_alloc cs = Ret (Some i, <[i := free_entry]> cs))).
Proof.
  intros Hlen.
  assert (Hne : cs <> []) by (intros ->; discriminate Hlen).
  destruct (first_slot_or_none is_free cs) as [[i Hfirst]|Hnf].
  - exists i. pose proof Hfirst as [[e [Hi _]] _].
    pose proof (lookup_lt_Some _ _ _ Hi) as Hlt.
    split; [lia|]. left. split; [exact Hfirst|].
    apply alloc_when_free; exact Hfirst.
  - destruct (alloc_when_full cs Hne Hnf) as (i & e & Hi & Hfirst & Halloc).
    pose proof (lookup_lt_Some _ _ _ Hi) as Hlt.
    exists i. split; [lia|]. right. repeat split; assumption.
Qed.

Lemma insert_total (now : timeval) (p : ip_addr_t) (h : list byte)
    (cs : list arp_cache) :
  length cs = ARP_CACHE_SIZE ->
  exists i, (i < ARP_CACHE_SIZE)%nat /\
    arp_cache_insert now p h cs
    = Ret (Some i, <[i := resolved_entry p (take ETHER_ADDR_LEN h) now]> cs).
Proof.
  intros Hlen. destruct (alloc_cases cs Hlen) as (i & Hi & Hcase).
  exists i. split; [exact Hi|]. unfold arp_cache_insert.
  destruct Hcase as [[_ Halloc]|(_ & _ & Halloc)]; rewrite Halloc.
  - reflexivity.
  - rewrite list_insert_insert_eq. reflexivity.
Qed.

(** C10: on the 32-slot table [arp_cache_alloc] always returns a slot, never
    NULL and never faulting, and that slot is FREE in the table it leaves
    (with no FREE slot before the call it is the first oldest slot,
    zeroed); hence [arp_cache_insert] always returns the slot, filled. *)
Theorem C10_alloc_never_fails (cs : list arp_cache) :
  length cs = ARP_CACHE_SIZE ->
  exists i cs',
    arp_cache_alloc cs = Ret (Some i, cs') /\
    (i < ARP_CACHE_SIZE)%nat /\ length cs' = ARP_CACHE_SIZE /\
    (exists e, cs' !! i = Some e /\ is_free e) /\
    (Forall non_free cs -> first_oldest cs i /\ cs' !! i = Some free_entry) /\
    forall now p h,
      arp_cache_insert now p h cs
      = Ret (Some i,
             <[i := resolved_entry p (take ETHER_ADDR_LEN h) now]> cs).
Proof.
  intros Hlen. destruct (alloc_cases cs Hlen) as (i & Hi & Hcase).
  assert (Hins : forall now p h,
    arp_cache_insert now p h cs
    = Ret (Some i, <[i := resolved_entry p (take ETHER_ADDR_LEN h) now]> cs)).
  { intros now p h. unfold arp_cache_insert.
    destruct Hcase as [[_ Halloc]|(_ & _ & Halloc)]; rewrite Halloc;
      [|rewrite list_insert_insert_eq]; reflexivity. }
  destruct Hcase as [[Hfirst Halloc]|(Hnf & Hfirst & Halloc)].
  - destruct Hfirst as [[e [Hlk Hfree]] _].
    exists i, cs. split; [exact Halloc|]. split; [exact Hi|].
    split; [exact Hlen|]. split; [exists e; split; assumption|].
    split; [|exact Hins].
    intros Hall. exfalso.
    exact (proj1 (Forall_lookup non_free cs) Hall i e Hlk Hfree).
  - assert (Hslot : <[i := free_entry]> cs !! i = Some free_entry)
      by (apply list_lookup_insert_eq; rewrite Hlen; exact Hi).
    exists i, (<[i := free_entry]> cs). split; [exact Halloc|].
    split; [exact Hi|]. split; [rewrite length_insert; exact Hlen|].
    split; [exists free_entry; split; [exact Hslot | reflexivity]|].
    split; [intros _; split; assumption | exact Hins].
Qed.

Lemma C10_witness :
  length ex_full = ARP_CACHE_SIZE /\
  exists cs', arp_cache_alloc ex_full = Ret (Some 7%nat, cs').
Proof.
  split; [reflexivity|].
  destruct (C10_alloc_never_fails ex_full eq_refl)
    as (i & cs' & Halloc & _).
  exists cs'.
  assert (Hi : i = 7%nat).
  { vm_compute in Halloc. injection Halloc as Hi _. symmetry. exact Hi. }
  subst i. exact Halloc.
Defined.

(** C6: [arp_cache_update] returns NULL and leaves the table as it is when
    no non-FREE entry holds the address; otherwise it sets the state of the
    first such entry to RESOLVED and its timestamp to now, keeps that
    entry's protocol and hardware address, and leaves every other slot
    unchanged. *)
Theorem C6_update_frame (le : bool) (now : timeval) (p : ip_addr_t)
    (h : list byte) (cs : list arp_cache) :
  u32 p -> wf_caches cs ->
  (Forall (fun e => ~ holds p e) cs ->
     arp_cache_update le now p h cs = (None, cs))
  /\ (forall i, first_slot (holds p) cs i ->
        exists e cs',
          cs !! i = Some e /\
          arp_cache_update le now p h cs = (Some i, cs') /\
          cs' !! i = Some (resolved_entry (pa e) (ha e) now) /\
          length cs' = length cs /\
          forall j, j <> i -> cs' !! j = cs !! j)
  /\ (Exists (holds p) cs -> exists i, first_slot (holds p) cs i).
Proof.
  intros Hp [Hlen Hwf]. split; [|split].
  - intros Hno. unfold arp_cache_update, arp_cache_select.
    rewrite select_scan_none by assumption. reflexivity.
  - intros i Hfirst. pose proof Hfirst as [[e [Hi Hholds]] _].
    pose proof (lookup_lt_Some _ _ _ Hi) as Hlt.
    exists e, (<[i := resolved_entry (pa e) (ha e) now]> cs).
    split; [exact Hi|]. split.
    + unfold arp_cache_update, arp_cache_select.
      rewrite (select_scan_first le p cs 0 i e) by assumption. reflexivity.
    + split; [apply list_lookup_insert_eq; exact Hlt|].
      split; [apply length_insert|].
      intros j Hj. apply list_lookup_insert_ne. congruence.
  - intros Hex.
    destruct (first_slot_or_none (holds p) cs) as [Hfirst|Hno];
      [exact Hfirst|].
    exfalso. apply Exists_exists in Hex as (e & He & Hholds).
    exact (proj1 (Forall_forall _ cs) Hno e He Hholds).
Qed.

Lemma ex_full_wf : wf_caches ex_full.
Proof.
  split; [reflexivity|]. unfold ex_full. apply Forall_forall. intros e He.
  apply list_elem_of_fmap in He as (k & -> & Hk).
  apply list_elem_of_fmap in Hk as (n & -> & Hn).
  apply elem_of_seq in Hn. unfold u32. cbn. lia.
Qed.

Lemma ex_full_first_holder (k : nat) :
  (k < 32)%nat -> first_slot (holds (100 + Z.of_nat k)) ex_full k.
Proof.
  intros Hk. unfold ex_full. split.
  - eexists. split.
    + rewrite !list_lookup_fmap, lookup_seq_lt by exact Hk. reflexivity.
    + split; [discriminate | reflexivity].
  - intros j ej Hj Hlk [_ Hpa].
    rewrite !list_lookup_fmap, lookup_seq_lt in Hlk by lia.
    injection Hlk as <-. cbn in Hpa. lia.
Qed.

Lemma C6_witness :
  u32 105 /\ wf_caches ex_full /\ first_slot (holds 105) ex_full 5 /\
  fst (arp_cache_update true ex_now 105 ex_ha ex_full) = Some 5%nat.
Proof.
  split; [unfold u32; lia|]. split; [exact ex_full_wf|].
  split; [exact (ex_full_first_holder 5 ltac:(lia))|].
  destruct (C6_update_frame true ex_now 105 ex_ha ex_full
              ltac:(unfold u32; lia) ex_full_wf) as (_ & Hfound & _).
  destruct (Hfound 5%nat (ex_full_first_holder 5 ltac:(lia)))
    as (e & cs' & _ & Hupd & _).
  rewrite Hupd. reflexivity.
Defined.

End ArpCacheClaims.

(** ** The ARP protocol handler *)

Module ArpHandlerClaims.
Import Arp Spec UtilFacts ArpCacheFacts ArpCacheClaims Examples.

(** C5: [arp_resolve] returns the error code with the state untouched (no
    lock taken, no table read) when the device is not Ethernet or the
    family is not IP; otherwise it returns the error code when no non-FREE
    entry holds the address, and FOUND with the entry's hardware address in
    the caller's buffer when one does.  Its only events are the lock and
    unlock of the mutex. *)
Theorem C5_resolve (host_le : bool)
    (NET_DEVICE_TYPE_ETHERNET NET_IFACE_FAMILY_IP : Z)
    (iface : net_iface) (p : ip_addr_t) (buf : list byte) (st : arp_state) :
  let resolve :=
    arp_resolve host_le NET_DEVICE_TYPE_ETHERNET NET_IFACE_FAMILY_IP in
  (type (dev iface) <> NET_DEVICE_TYPE_ETHERNET
   \/ family iface <> NET_IFACE_FAMILY_IP ->
   resolve iface p buf st = (ARP_RESOLVE_ERROR, buf, st))
  /\ (type (dev iface) = NET_DEVICE_TYPE_ETHERNET ->
      family iface = NET_IFACE_FAMILY_IP ->
      u32 p -> wf_caches (caches st) ->
      (Forall (fun e => ~ holds p e) (caches st) ->
         resolve iface p buf st = (ARP_RESOLVE_ERROR, buf, locked st))
      /\ (forall i e,
            first_slot (holds p) (caches st) i -> caches st !! i = Some e ->
            length (ha e) = ETHER_ADDR_LEN -> length buf = ETHER_ADDR_LEN ->
            resolve iface p buf st = (ARP_RESOLVE_FOUND, ha e, locked st))).
Proof.
  intros resolve. subst resolve. split.
  - intros Hbad. unfold arp_resolve.
    destruct (Z.eqb_spec (type (dev iface)) NET_DEVICE_TYPE_ETHERNET) as [Ht|Ht];
      [|reflexivity].
    destruct (Z.eqb_spec (family iface) NET_IFACE_FAMILY_IP) as [Hf|Hf];
      [|reflexivity].
    destruct Hbad; contradiction.
  - intros Ht Hf Hp [Hlen Hwf]. unfold arp_resolve.
    rewrite Ht, Hf, !Z.eqb_refl. cbn [negb].
    split.
    + intros Hno. unfold arp_cache_select.
      rewrite select_scan_none by assumption. reflexivity.
    + intros i e Hfirst Hi Hha Hbuf. unfold arp_cache_select.
      rewrite (select_scan_first host_le p (caches st) 0 i e) by assumption.
      rewrite take_ge by lia. rewrite drop_ge by lia.
      rewrite app_nil_r. reflexivity.
Qed.

Lemma C5_witness :
  arp_resolve true 2 1 ex_loopback_iface 105 ex_ha ex_arp_full
  = (ARP_RESOLVE_ERROR, ex_ha, ex_arp_full) /\
  arp_resolve true 2 1 ex_iface 105 ex_ha ex_arp_full
  = (ARP_RESOLVE_FOUND, [x02; x00; x00; x00; x00; x01], locked ex_arp_full).
Proof.
  split.
  - apply (C5_resolve true 2 1 ex_loopback_iface 105 ex_ha ex_arp_full).
    left. discriminate.
  - destruct (C5_resolve true 2 1 ex_iface 105 ex_ha ex_arp_full)
      as [_ Hok].
    destruct (Hok eq_refl eq_refl ltac:(unfold u32; lia) ex_full_wf)
      as [_ Hfound].
    apply (Hfound 5%nat (ex_entry 15 105));
      [exact (ex_full_first_holder 5 ltac:(lia)) | reflexivity..].
Defined.

Ltac lock_events :=
  repeat (apply List.Forall_cons; [unfold is_lock_event; auto|]);
  apply List.Forall_nil.

Lemma ntoh16_load16 (le : bool) (b0 b1 : byte) :
  ntoh16 le (load16 le [b0; b1]) = 256 * byte_to_Z b0 + byte_to_Z b1.
Proof.
  pose proof (byte_to_Z_range b0) as H0.
  pose proof (byte_to_Z_range b1) as H1.
  unfold ntoh16, load16. destruct le; [|reflexivity].
  unfold byteswap16.
  rewrite (Z.mul_comm 256 (byte_to_Z b1)), Z_mod_plus_full.
  rewrite Z.div_add by lia.
  rewrite (Z.div_small (byte_to_Z b0)) by lia.
  rewrite !Z.mod_small by lia. lia.
Qed.

Lemma store16_hton16_const (le : bool) :
  store16 le (hton16 le ARP_HRD_ETHER) = [x00; x01] /\
  store16 le (hton16 le ARP_PRO_IP) = [x08; x00] /\
  store16 le (hton16 le ARP_OP_REPLY) = [x00; x02].
Proof. destruct le; repeat split; vm_compute; reflexivity. Qed.

Lemma msg_of_bytes_wire (le : bool) (b0 b1 b2 b3 b4 b5 b6 b7 : byte)
    (sha0 spa0 tha0 tpa0 : list byte) :
  length sha0 = ETHER_ADDR_LEN -> length spa0 = IP_ADDR_LEN ->
  length tha0 = ETHER_ADDR_LEN -> length tpa0 = IP_ADDR_LEN ->
  msg_of_bytes le
    ([b0; b1; b2; b3; b4; b5; b6; b7] ++ sha0 ++ spa0 ++ tha0 ++ tpa0)
  = {| hdr := {| hrd := load16 le [b0; b1]; pro := load16 le [b2; b3];
                 hln := byte_to_Z b4; pln := byte_to_Z b5;
                 op := load16 le [b6; b7] |};
       sha := sha0; spa := spa0; tha := tha0; tpa := tpa0 |}.
Proof.
  intros Hsha Hspa Htha Htpa.
  destruct sha0 as [|s0 [|s1 [|s2 [|s3 [|s4 [|s5 [|? ?]]]]]]];
    try discriminate Hsha.
  destruct spa0 as [|p0 [|p1 [|p2 [|p3 [|? ?]]]]]; try discriminate Hspa.
  destruct tha0 as [|t0 [|t1 [|t2 [|t3 [|t4 [|t5 [|? ?]]]]]]];
    try discriminate Htha.
  destruct tpa0 as [|q0 [|q1 [|q2 [|q3 [|? ?]]]]]; try discriminate Htpa.
  reflexivity.
Qed.

(** C3: a valid 28-byte REQUEST from (spa, sha) whose target protocol
    address is the unicast address of the receiving device's IP interface
    makes [arp_input] hand exactly one message to [net_device_output]: the
    REPLY whose sender is the interface device's hardware address and the
    interface's unicast address and whose target is (sha, spa), destined
    to sha; on a device that is up with room for 28 bytes this is exactly
    one call of the driver's transmit. *)
Theorem C3_request_answered (host_le : bool)
    (NET_DEVICE_FLAG_UP NET_IFACE_FAMILY_IP ETHER_TYPE_ARP : Z)
    (net_device_get_iface : net_device -> Z -> option net_iface)
    (now : timeval) (d : net_device) (iface : net_iface)
    (sha0 spa0 tha0 tpa0 : list byte) (st : arp_state) :
  length sha0 = ETHER_ADDR_LEN -> length spa0 = IP_ADDR_LEN ->
  length tha0 = ETHER_ADDR_LEN -> length tpa0 = IP_ADDR_LEN ->
  length (caches st) = ARP_CACHE_SIZE ->
  net_device_get_iface d NET_IFACE_FAMILY_IP = Some iface ->
  load32 host_le tpa0 = unicast iface ->
  let request := arp_wire ARP_OP_REQUEST sha0 spa0 tha0 tpa0 in
  let reply :=
    arp_wire ARP_OP_REPLY (take ETHER_ADDR_LEN (addr (dev iface)))
      (store32 host_le (unicast iface)) sha0 spa0 in
  exists cs' locks,
    Forall is_lock_event locks /\
    arp_input host_le NET_DEVICE_FLAG_UP NET_IFACE_FAMILY_IP ETHER_TYPE_ARP
      net_device_get_iface now request sizeof_arp_ether_ip d st
    = Ret {| caches := cs';
             log := snd (Net.net_device_output NET_DEVICE_FLAG_UP (dev iface)
                           ETHER_TYPE_ARP reply sizeof_arp_ether_ip
                           (Some sha0) (log st ++ locks)) |} /\
    (Net.NET_DEVICE_IS_UP NET_DEVICE_FLAG_UP (dev iface) = true ->
     sizeof_arp_ether_ip <= mtu (dev iface) ->
     snd (Net.net_device_output NET_DEVICE_FLAG_UP (dev iface)
            ETHER_TYPE_ARP reply sizeof_arp_ether_ip (Some sha0)
            (log st ++ locks))
     = log st ++ locks
       ++ [EvTransmit (dev iface) ETHER_TYPE_ARP reply sizeof_arp_ether_ip
             (Some sha0)]).
Proof.
  intros Hsha Hspa Htha Htpa Hlen Hif Htarget request reply.
  destruct (store16_hton16_const host_le) as (Ehrd & Epro & Eop).
  assert (Ereply :
    bytes_of_msg host_le
      {| hdr := {| hrd := hton16 host_le ARP_HRD_ETHER;
                   pro := hton16 host_le ARP_PRO_IP;
                   hln := Z.of_nat ETHER_ADDR_LEN;
                   pln := Z.of_nat IP_ADDR_LEN;
                   op := hton16 host_le ARP_OP_REPLY |};
         sha := take ETHER_ADDR_LEN (addr (dev iface));
         spa := store32 host_le (unicast iface);
         tha := take ETHER_ADDR_LEN sha0;
         tpa := store32 host_le (load32 host_le spa0) |} = reply).
  { unfold bytes_of_msg. cbn [hdr hrd pro hln pln op sha spa tha tpa].
    rewrite Ehrd, Epro, Eop, store32_load32 by exact Hspa.
    rewrite (take_ge sha0) by lia. reflexivity. }
  assert (Hsent : forall lg,
    Net.NET_DEVICE_IS_UP NET_DEVICE_FLAG_UP (dev iface) = true ->
    sizeof_arp_ether_ip <= mtu (dev iface) ->
    snd (Net.net_device_output NET_DEVICE_FLAG_UP (dev iface) ETHER_TYPE_ARP
           reply sizeof_arp_ether_ip (Some sha0) lg)
    = lg ++ [EvTransmit (dev iface) ETHER_TYPE_ARP reply sizeof_arp_ether_ip
               (Some sha0)]).
  { intros lg Hup Hmtu. unfold Net.net_device_output. rewrite Hup.
    cbn [negb]. destruct (Z.gtb_spec sizeof_arp_ether_ip (mtu (dev iface)));
      [lia|].
    destruct (_ =? -1); reflexivity. }
  unfold arp_input. rewrite Z.ltb_irrefl.
  change request with
    ([x00; x01; x08; x00; x06; x04; x00; x01] ++ sha0 ++ spa0 ++ tha0 ++ tpa0).
  rewrite msg_of_bytes_wire by assumption.
  cbn [hdr hrd pro hln pln op sha spa tha tpa].
  rewrite !ntoh16_load16, Htarget, Hif.
  assert (Hhrd : (256 * byte_to_Z x00 + byte_to_Z x01 =? ARP_HRD_ETHER) = true)
    by reflexivity.
  assert (Hhln : (byte_to_Z x06 =? Z.of_nat ETHER_ADDR_LEN) = true)
    by reflexivity.
  assert (Hpro : (256 * byte_to_Z x08 + byte_to_Z x00 =? ARP_PRO_IP) = true)
    by reflexivity.
  assert (Hpln : (byte_to_Z x04 =? Z.of_nat IP_ADDR_LEN) = true)
    by reflexivity.
  rewrite Hhln, Hpro, Hpln, Hhrd, (Z.eqb_refl (unicast iface)).
  cbn [negb orb].
  cbv iota.
  destruct (arp_cache_update host_le now (load32 host_le spa0) sha0 (caches st))
    as [[slot|] cs1] eqn:Hupd.
  - exists cs1, [EvLock; EvUnlock].
    split; [lock_events|]. split.
    + cbn [Z.eqb]. unfold arp_reply. rewrite Ereply.
      destruct (Net.net_device_output _ _ _ _ _ _ _) as [r lg3].
      reflexivity.
    + intros Hup Hmtu. rewrite app_assoc. apply Hsent; assumption.
  - assert (Hcs1 : cs1 = caches st).
    { unfold arp_cache_update in Hupd.
      destruct (arp_cache_select _ _ _) as [[? ?]|]; [discriminate|].
      injection Hupd as <-. reflexivity. }
    subst cs1.
    destruct (insert_total now (load32 host_le spa0) sha0 (caches st) Hlen)
      as (i & _ & Hins).
    rewrite Z.eqb_refl, Hins.
    exists (<[i := resolved_entry (load32 host_le spa0)
                     (take ETHER_ADDR_LEN sha0) now]> (caches st)),
           [EvLock; EvUnlock; EvLock; EvUnlock].
    split; [lock_events|]. split.
    + unfold arp_reply. rewrite Ereply, <- app_assoc.
      destruct (Net.net_device_output _ _ _ _ _ _ _) as [r lg3].
      reflexivity.
    + intros Hup Hmtu. rewrite app_assoc. apply Hsent; assumption.
Qed.

Lemma C3_witness :
  ex_get_iface ex_dev 1 = Some ex_iface /\
  load32 true [x0a; x00; x00; x02] = unicast ex_iface /\
  exists cs' locks,
    Forall is_lock_event locks /\
    arp_input true 1 1 0x0806 ex_get_iface ex_now ex_request
      sizeof_arp_ether_ip ex_dev ex_arp_empty
    = Ret {| caches := cs';
             log := locks ++ [EvTransmit ex_dev 0x0806 ex_reply
                                sizeof_arp_ether_ip (Some ex_ha)] |}.
Proof.
  split; [reflexivity|]. split; [reflexivity|].
  destruct (C3_request_answered true 1 1 0x0806 ex_get_iface ex_now ex_dev
              ex_iface ex_ha [x0a; x00; x00; x01]
              [x00; x00; x00; x00; x00; x00] [x0a; x00; x00; x02]
              ex_arp_empty eq_refl eq_refl eq_refl eq_refl eq_refl eq_refl
              eq_refl) as (cs' & locks & Hlocks & Hrun & Hsent).
  exists cs', locks. split; [exact Hlocks|].
  unfold ex_request. rewrite Hrun.
  rewrite (Hsent eq_refl ltac:(vm_compute; discriminate)).
  reflexivity.
Defined.

End ArpHandlerClaims.

(** ** Device output, protocol registry and dispatcher *)

Module NetClaims.
Import Net Spec Examples.

(** C8: [net_device_output] fails without calling the driver when the
    device is down or when the length exceeds the MTU (so for MTU + 1);
    otherwise it calls the driver's transmit once, with the payload and
    length it was given, and returns -1 when the driver returned -1 and 0
    otherwise. *)
Theorem C8_output_guards (NET_DEVICE_FLAG_UP : Z) (d : net_device) (ty : Z)
    (data : list byte) (len : Z) (dst : option (list byte))
    (lg : list event) :
  let output := net_device_output NET_DEVICE_FLAG_UP d ty data in
  (NET_DEVICE_IS_UP NET_DEVICE_FLAG_UP d = false ->
     output len dst lg = (-1, lg))
  /\ (len > mtu d -> output len dst lg = (-1, lg))
  /\ output (mtu d + 1) dst lg = (-1, lg)
  /\ (NET_DEVICE_IS_UP NET_DEVICE_FLAG_UP d = true -> len <= mtu d ->
        output len dst lg
        = (if transmit (ops d) ty data len dst =? -1 then -1 else 0,
           lg ++ [EvTransmit d ty data len dst])).
Proof.
  intros output. subst output. unfold net_device_output.
  split; [|split; [|split]].
  - intros ->. reflexivity.
  - intros Hlen. destruct (NET_DEVICE_IS_UP _ d); [|reflexivity].
    cbn [negb]. destruct (Z.gtb_spec len (mtu d)); [reflexivity | lia].
  - destruct (NET_DEVICE_IS_UP _ d); [|reflexivity].
    cbn [negb]. destruct (Z.gtb_spec (mtu d + 1) (mtu d)); [reflexivity | lia].
  - intros -> Hlen. cbn [negb].
    destruct (Z.gtb_spec len (mtu d)); [lia|].
    destruct (_ =? -1); reflexivity.
Qed.

Lemma C8_witness :
  net_device_output 1 ex_dev 0x0800 ex_frame 1501 None [] = (-1, []) /\
  net_device_output 1 ex_dev 0x0800 ex_frame 3 None []
  = (0, [EvTransmit ex_dev 0x0800 ex_frame 3 None]).
Proof.
  destruct (C8_output_guards 1 ex_dev 0x0800 ex_frame 3 None [])
    as (_ & _ & Hover & Hok).
  split; [exact Hover|].
  apply Hok; [reflexivity | vm_compute; discriminate].
Defined.

Lemma register_scan_reaches (hp : list net_protocol) (start : option nat)
    (p : nat) (node : net_protocol) (ty : Z) :
  reaches hp start p -> hp !! p = Some node -> p_type node = ty ->
  exists n, forall fuel, (n <= fuel)%nat ->
    register_scan fuel hp start ty = Ret true.
Proof.
  intros Hreach Hp Hty. induction Hreach as [p|p0 node0 p Hp0 Hreach IH].
  - exists 1%nat. intros [|fuel] Hfuel; [lia|].
    cbn [register_scan]. rewrite Hp, Hty, Z.eqb_refl. reflexivity.
  - destruct (IH Hp) as [n Hn]. exists (S n).
    intros [|fuel] Hfuel; [lia|].
    cbn [register_scan]. rewrite Hp0.
    destruct (ty =? p_type node0); [reflexivity|].
    apply Hn. lia.
Qed.

Lemma input_scan_reaches (hp : list net_protocol) (start : option nat)
    (p : nat) (node : net_protocol) (ty : Z) :
  reaches hp start p -> hp !! p = Some node -> p_type node = ty ->
  exists n q nodeq,
    hp !! q = Some nodeq /\ p_type nodeq = ty /\
    forall fuel, (n <= fuel)%nat ->
      input_scan fuel hp start ty = Ret (Some q).
Proof.
  intros Hreach Hp Hty. induction Hreach as [p|p0 node0 p Hp0 Hreach IH].
  - exists 1%nat, p, node. split; [exact Hp|]. split; [exact Hty|].
    intros [|fuel] Hfuel; [lia|].
    cbn [input_scan]. rewrite Hp, Hty, Z.eqb_refl. reflexivity.
  - destruct (IH Hp) as (n & q & nodeq & Hq & Htyq & Hn).
    destruct (Z.eqb_spec (p_type node0) ty) as [Heq|Hne].
    + exists 1%nat, p0, node0. split; [exact Hp0|]. split; [exact Heq|].
      intros [|fuel] Hfuel; [lia|].
      cbn [input_scan]. rewrite Hp0, Heq, Z.eqb_refl. reflexivity.
    + exists (S n), q, nodeq. split; [exact Hq|]. split; [exact Htyq|].
      intros [|fuel] Hfuel; [lia|].
      cbn [input_scan]. rewrite Hp0.
      destruct (Z.eqb_spec (p_type node0) ty); [contradiction|].
      apply Hn. lia.
Qed.

(** What a successful [net_protocol_register] leaves: the new node is the
    head of the list and its [next] designates the node itself. *)
Lemma register_ok_shape (fuel : nat) (alloc_ok : bool) (ty : Z)
    (handler : nat) (s s1 : net_state) :
  net_protocol_register fuel alloc_ok ty handler s = (Ret 0, s1) ->
  let p := length (heap s) in
  let node := {| p_next := Some p; p_type := ty; p_queue := [];
                 p_handler := handler |} in
  s1 = {| heap := heap s ++ [node]; protocols := Some p; log := log s |} /\
  heap s1 !! p = Some node.
Proof.
  unfold net_protocol_register. intros Hreg.
  destruct (register_scan fuel (heap s) (protocols s) ty) as [[|]| |];
    try discriminate Hreg.
  destruct alloc_ok; [|discriminate Hreg]. cbn [negb] in Hreg.
  injection Hreg as <-. cbn zeta. split; [reflexivity|].
  cbn [heap]. rewrite lookup_app_r by lia. rewrite Nat.sub_diag. reflexivity.
Qed.

(** C9: when a node of type [ty] is on the protocol list,
    [net_protocol_register] for [ty] returns -1 and leaves the whole state
    (list, handlers, queues with their entries) as it was, and the search
    of [net_input_handler] still finds a node of that type; in particular
    this holds right after a successful registration of [ty]. *)
Theorem C9_duplicate_register_rejected (ty : Z) :
  (forall s, registered s ty ->
     exists n q nodeq,
       heap s !! q = Some nodeq /\ p_type nodeq = ty /\
       forall fuel alloc_ok handler, (n <= fuel)%nat ->
         net_protocol_register fuel alloc_ok ty handler s = (Ret (-1), s) /\
         input_scan fuel (heap s) (protocols s) ty = Ret (Some q))
  /\ (forall fuel0 alloc0 handler0 s0 s1,
        net_protocol_register fuel0 alloc0 ty handler0 s0 = (Ret 0, s1) ->
        registered s1 ty /\
        forall fuel alloc_ok handler, (1 <= fuel)%nat ->
          net_protocol_register fuel alloc_ok ty handler s1 = (Ret (-1), s1)).
Proof.
  split.
  - intros s (p & node & Hreach & Hp & Hty).
    destruct (register_scan_reaches _ _ _ _ _ Hreach Hp Hty) as [n1 Hn1].
    destruct (input_scan_reaches _ _ _ _ _ Hreach Hp Hty)
      as (n2 & q & nodeq & Hq & Htyq & Hn2).
    exists (Nat.max n1 n2), q, nodeq.
    split; [exact Hq|]. split; [exact Htyq|].
    intros fuel alloc_ok handler Hfuel. split.
    + unfold net_protocol_register. rewrite Hn1 by lia. reflexivity.
    + apply Hn2. lia.
  - intros fuel0 alloc0 handler0 s0 s1 Hreg.
    destruct (register_ok_shape _ _ _ _ _ _ Hreg) as [Hs1 Hhead].
    assert (Hprot : protocols s1 = Some (length (heap s0)))
      by (rewrite Hs1; reflexivity).
    split.
    + eexists _, _. split; [rewrite Hprot; apply reaches_here|].
      split; [exact Hhead | reflexivity].
    + intros [|fuel] alloc_ok handler Hfuel; [lia|].
      unfold net_protocol_register. rewrite Hprot. cbn [register_scan].
      rewrite Hhead. cbn [p_type]. rewrite Z.eqb_refl. reflexivity.
Qed.

Lemma C9_witness :
  net_protocol_register 1 true 0x0800 1 net_init_state = (Ret 0, ex_net_ip) /\
  net_protocol_register 1 true 0x0800 7 ex_net_ip = (Ret (-1), ex_net_ip).
Proof.
  split; [reflexivity|].
  destruct (C9_duplicate_register_rejected 0x0800) as [_ Hsecond].
  destruct (Hsecond 1%nat true 1%nat net_init_state ex_net_ip eq_refl)
    as [_ Hrej].
  apply Hrej. lia.
Defined.

(** A node whose [next] designates the node itself is never left by the
    three list walks. *)
Lemma register_scan_self_loop (fuel : nat) (hp : list net_protocol)
    (p : nat) (node : net_protocol) (ty : Z) :
  hp !! p = Some node -> p_next node = Some p -> p_type node <> ty ->
  register_scan fuel hp (Some p) ty = OutOfFuel.
Proof.
  intros Hp Hnext Hty. induction fuel as [|fuel IH]; [reflexivity|].
  cbn [register_scan]. rewrite Hp.
  destruct (Z.eqb_spec ty (p_type node)) as [Heq|_]; [congruence|].
  rewrite Hnext. exact IH.
Qed.

Lemma input_scan_self_loop (fuel : nat) (hp : list net_protocol)
    (p : nat) (node : net_protocol) (ty : Z) :
  hp !! p = Some node -> p_next node = Some p -> p_type node <> ty ->
  input_scan fuel hp (Some p) ty = OutOfFuel.
Proof.
  intros Hp Hnext Hty. induction fuel as [|fuel IH]; [reflexivity|].
  cbn [input_scan]. rewrite Hp.
  destruct (Z.eqb_spec (p_type node) ty) as [Heq|_]; [contradiction|].
  rewrite Hnext. exact IH.
Qed.

Lemma softirq_loop_self_loop (fuel : nat) (hp : list net_protocol)
    (lg : list event) (p : nat) (node : net_protocol) :
  hp !! p = Some node -> p_next node = Some p ->
  fst (softirq_loop fuel (Some p) hp lg) = OutOfFuel.
Proof.
  revert hp lg node. induction fuel as [|fuel IH]; intros hp lg node Hp Hnext;
    [reflexivity|].
  cbn [softirq_loop]. rewrite Hp.
  destruct (softirq_drain (p_handler node) (p_queue node) lg) as [q' lg'].
  rewrite Hnext. apply (IH _ _ (set_queue q' node)); [|exact Hnext].
  apply list_lookup_insert_eq. eapply lookup_lt_Some; exact Hp.
Qed.

Lemma softirq_loop_null (fuel : nat) (hp : list net_protocol)
    (lg : list event) :
  softirq_loop fuel None hp lg = (Ret 0, (hp, lg)).
Proof. destruct fuel; reflexivity. Qed.

(** After any successful registration: a further registration of another
    type, an input of another type and the dispatch all fail to return. *)
Lemma after_register_no_return (fuel0 : nat) (alloc0 : bool) (ty0 : Z)
    (handler0 : nat) (s0 s1 : net_state) :
  net_protocol_register fuel0 alloc0 ty0 handler0 s0 = (Ret 0, s1) ->
  forall fuel,
    fst (net_softirq_handler fuel s1) = OutOfFuel /\
    forall ty, ty <> ty0 ->
      (forall alloc_ok handler,
         net_protocol_register fuel alloc_ok ty handler s1 = (OutOfFuel, s1)) /\
      (forall alloc_ok data len d,
         net_input_handler fuel alloc_ok ty data len d s1 = (OutOfFuel, s1)).
Proof.
  intros Hreg fuel.
  destruct (register_ok_shape _ _ _ _ _ _ Hreg) as [Hs1 Hhead].
  assert (Hprot : protocols s1 = Some (length (heap s0)))
    by (rewrite Hs1; reflexivity).
  split.
  - unfold net_softirq_handler. rewrite Hprot.
    pose proof (softirq_loop_self_loop fuel (heap s1) (log s1) _ _ Hhead eq_refl)
      as Hloop.
    destruct (softirq_loop _ _ _ _) as [r [hp lg]]. exact Hloop.
  - intros ty Hty. split.
    + intros alloc_ok handler. unfold net_protocol_register. rewrite Hprot.
      rewrite (register_scan_self_loop fuel _ _ _ ty Hhead eq_refl);
        [reflexivity | cbn; congruence].
    + intros alloc_ok data len d. unfold net_input_handler. rewrite Hprot.
      rewrite (input_scan_self_loop fuel _ _ _ ty Hhead eq_refl);
        [reflexivity | cbn; congruence].
Qed.

(** The inner loop is [queue_pop] until NULL. *)
Lemma softirq_drain_pop (h : nat) (q : list net_protocol_queue_entry)
    (lg : list event) :
  softirq_drain h q lg
  = match queue_pop q with
    | (None, _) => ([], lg)
    | (Some entry, q') => softirq_drain h q' (lg ++ [delivery h entry])
    end.
Proof. destruct q; reflexivity. Qed.

Lemma softirq_drain_log (h : nat) (q : list net_protocol_queue_entry)
    (lg : list event) :
  softirq_drain h q lg = ([], lg ++ map (delivery h) q).
Proof.
  revert lg. induction q as [|e q IH]; intros lg.
  - cbn. rewrite app_nil_r. reflexivity.
  - cbn [softirq_drain map]. rewrite IH, <- app_assoc. reflexivity.
Qed.

Lemma softirq_loop_idle (fuel : nat) (hp : list net_protocol)
    (lg : list event) (p : nat) (ty : Z) (h : nat) :
  hp !! p = Some {| p_next := Some p; p_type := ty; p_queue := [];
                    p_handler := h |} ->
  snd (snd (softirq_loop fuel (Some p) hp lg)) = lg.
Proof.
  revert hp. induction fuel as [|fuel IH]; intros hp Hp; [reflexivity|].
  cbn [softirq_loop]. rewrite Hp. cbn [p_queue p_handler p_next softirq_drain].
  apply IH. apply list_lookup_insert_eq. eapply lookup_lt_Some; exact Hp.
Qed.

Lemma sole_protocol_input (fuel : nat) (ty : Z) (h : nat)
    (q : list net_protocol_queue_entry) (f : list byte * Z * net_device)
    (s : net_state) :
  sole_protocol s ty h q -> (1 <= fuel)%nat ->
  exists s',
    net_input_handler fuel true ty (fst (fst f)) (snd (fst f)) (snd f) s
    = (Ret 0, s') /\
    sole_protocol s' ty h (q ++ [entry_of f]) /\
    log s' = log s ++ [EvRaiseIrq].
Proof.
  intros (p & Hprot & Hp) Hfuel. destruct f as [[data len] d].
  destruct fuel as [|fuel]; [lia|].
  unfold net_input_handler. rewrite Hprot. cbn [input_scan].
  rewrite Hp. cbn [p_type]. rewrite Z.eqb_refl. cbn [negb fst snd].
  eexists. split; [reflexivity|]. split; [|reflexivity].
  exists p. split; [reflexivity|]. cbn [heap].
  rewrite list_lookup_insert_eq by (eapply lookup_lt_Some; exact Hp).
  reflexivity.
Qed.

(** With a single registered protocol the head of the list is that
    protocol, and frames input for it are delivered to its handler in
    arrival order, once each; the dispatch call itself does not return
    (see [after_register_no_return]). *)
Lemma sole_protocol_fifo (ty : Z) (h : nat)
    (frames : list (list byte * Z * net_device)) :
  forall (q : list net_protocol_queue_entry) (s : net_state) (fuel : nat),
    sole_protocol s ty h q -> (1 <= fuel)%nat ->
    exists s',
      input_all fuel ty frames s = (Ret 0, s') /\
      sole_protocol s' ty h (q ++ map entry_of frames) /\
      forall fuel', (1 <= fuel')%nat ->
        log (snd (net_softirq_handler fuel' s'))
        = log s' ++ map (delivery h) (q ++ map entry_of frames).
Proof.
  induction frames as [|f frames IH]; intros q s fuel Hsole Hfuel.
  - exists s. cbn [input_all map]. rewrite app_nil_r.
    split; [reflexivity|]. split; [exact Hsole|].
    intros [|fuel'] Hfuel'; [lia|].
    destruct Hsole as (p & Hprot & Hp).
    unfold net_softirq_handler. rewrite Hprot. cbn [softirq_loop].
    rewrite Hp. cbn [p_queue p_handler p_next]. rewrite softirq_drain_log.
    pose proof (softirq_loop_idle fuel'
                  (<[p := set_queue [] {| p_next := Some p; p_type := ty;
                                          p_queue := q; p_handler := h |}]>
                     (heap s))
                  (log s ++ map (delivery h) q) p ty h) as Hidle.
    destruct (softirq_loop _ _ _ _) as [r [hp lg]]. cbn [snd log] in *.
    apply Hidle. apply list_lookup_insert_eq. eapply lookup_lt_Some; exact Hp.
  - destruct (sole_protocol_input fuel ty h q f s Hsole Hfuel)
      as (s1 & Hin & Hsole1 & _).
    destruct (IH _ s1 fuel Hsole1 Hfuel) as (s' & Hall & Hsole' & Hlog).
    exists s'. destruct f as [[data len] d]. cbn [input_all fst snd] in *.
    rewrite Hin. cbn [map]. rewrite <- app_assoc in Hsole', Hlog.
    split; [exact Hall|]. split; [exact Hsole'|exact Hlog].
Qed.

(** C7: on the empty registry [net_input_handler] returns 0 and queues
    nothing; once IP (0x0800) has been registered, an input of type ARP
    (0x0806) does not return, whatever the fuel. *)
Theorem C7_unregistered_type_after_register :
  forall fuel alloc_ok data len d,
    net_input_handler fuel alloc_ok 0x0806 data len d net_init_state
    = (Ret 0, net_init_state) /\
    net_input_handler fuel alloc_ok 0x0806 data len d ex_net_ip
    = (OutOfFuel, ex_net_ip).
Proof.
  intros fuel alloc_ok data len d. split.
  - destruct fuel; reflexivity.
  - assert (Hreg : net_protocol_register 1 true 0x0800 1 net_init_state
                   = (Ret 0, ex_net_ip)) by reflexivity.
    destruct (after_register_no_return _ _ _ _ _ _ Hreg fuel) as [_ Hno].
    apply (Hno 0x0806). discriminate.
Qed.

(** C2: once a protocol has been registered, [net_softirq_handler] does not
    return, whatever the fuel, even with every queue empty. *)
Theorem C2_dispatch_after_register :
  forall fuel, fst (net_softirq_handler fuel ex_net_ip) = OutOfFuel.
Proof.
  intros fuel.
  assert (Hreg : net_protocol_register 1 true 0x0800 1 net_init_state
                 = (Ret 0, ex_net_ip)) by reflexivity.
  apply (after_register_no_return _ _ _ _ _ _ Hreg fuel).
Qed.

End NetClaims.

(** ** More on the ARP cache *)

Module ArpCacheMore.
Import Arp Spec Props UtilFacts ArpCacheFacts ArpCacheClaims Examples.

Lemma first_slot_unique (P : arp_cache -> Prop) (cs : list arp_cache)
    (i j : nat) :
  first_slot P cs i -> first_slot P cs j -> i = j.
Proof.
  intros [[ei [Hi HPi]] Hbi] [[ej [Hj HPj]] Hbj].
  destruct (Nat.lt_trichotomy i j) as [Hlt|[Heq|Hgt]]; [|exact Heq|].
  - exfalso. exact (Hbj i ei Hlt Hi HPi).
  - exfalso. exact (Hbi j ej Hgt Hj HPj).
Qed.

Lemma table_ok_wf (cs : list arp_cache) : table_ok cs -> wf_caches cs.
Proof.
  intros [Hlen Hall]. split; [exact Hlen|].
  eapply Forall_impl; [exact Hall|]. intros e [He _]. exact He.
Qed.

Lemma select_cases (le : bool) (p : ip_addr_t) (cs : list arp_cache) :
  u32 p -> Forall (fun e => u32 (pa e)) cs ->
  (exists i e, first_slot (holds p) cs i /\ cs !! i = Some e /\
               arp_cache_select le p cs = Some (i, e))
  \/ (Forall (fun e => ~ holds p e) cs /\ arp_cache_select le p cs = None).
Proof.
  intros Hp Hwf. unfold arp_cache_select.
  destruct (first_slot_or_none (holds p) cs) as [[i Hfirst]|Hno].
  - left. pose proof Hfirst as [[e [Hi _]] _]. exists i, e.
    split; [exact Hfirst|]. split; [exact Hi|].
    exact (select_scan_first le p cs 0 i e Hp Hwf Hfirst Hi).
  - right. split; [exact Hno|]. exact (select_scan_none le p cs 0 Hp Hwf Hno).
Qed.

(** [arp_cache_select] returns the first non-FREE slot, in scan order,
    whose protocol address equals the one asked for, with the entry it
    holds, and NULL exactly when no non-FREE slot has that address; FREE
    slots never match, whatever address they carry. *)
Theorem select_first_holder (le : bool) (p : ip_addr_t)
    (cs : list arp_cache) :
  u32 p -> Forall (fun e => u32 (pa e)) cs ->
  (forall i e,
     arp_cache_select le p cs = Some (i, e) <->
     first_slot (holds p) cs i /\ cs !! i = Some e)
  /\ (arp_cache_select le p cs = None <-> Forall (fun e => ~ holds p e) cs).
Proof.
  intros Hp Hwf.
  destruct (select_cases le p cs Hp Hwf)
    as [(i0 & e0 & Hfirst & Hi0 & Hsel)|[Hno Hsel]]; rewrite Hsel.
  - split.
    + intros i e. split.
      * intros H. injection H as <- <-. split; assumption.
      * intros [Hf Hi].
        pose proof (first_slot_unique _ _ _ _ Hf Hfirst) as ->.
        congruence.
    + split; [discriminate|].
      intros Hall. exfalso. destruct Hfirst as [[e1 [Hi1 Hh1]] _].
      apply (proj1 (Forall_lookup _ cs) Hall i0 e1 Hi1 Hh1).
  - split.
    + intros i e. split; [discriminate|].
      intros [[[ei [Hi Hh]] _] _]. exfalso.
      apply (proj1 (Forall_lookup _ cs) Hno i ei Hi Hh).
    + split; [intros _; exact Hno | reflexivity].
Qed.

Lemma select_first_holder_witness :
  u32 105 /\ Forall (fun e => u32 (pa e)) ex_full /\
  arp_cache_select true 105 ex_full = Some (5%nat, ex_entry 15 105).
Proof.
  pose proof ex_full_wf as [_ Hwf].
  split; [unfold u32; lia|]. split; [exact Hwf|].
  destruct (select_first_holder true 105 ex_full ltac:(unfold u32; lia) Hwf)
    as [Hsome _].
  apply Hsome. split; [exact (ex_full_first_holder 5 ltac:(lia)) | reflexivity].
Defined.

Lemma select_after_insert (le : bool) (now : timeval) (p : ip_addr_t)
    (h : list byte) (cs : list arp_cache) (i : nat) :
  u32 p -> Forall (fun e => u32 (pa e)) cs -> (i < length cs)%nat ->
  Forall (fun e => ~ holds p e) cs ->
  arp_cache_select le p (<[i := resolved_entry p h now]> cs)
  = Some (i, resolved_entry p h now).
Proof.
  intros Hp Hwf Hlt Hno. unfold arp_cache_select.
  apply (select_scan_first le p _ 0 i).
  - exact Hp.
  - apply Forall_insert; [exact Hwf | exact Hp].
  - split.
    + exists (resolved_entry p h now).
      split; [apply list_lookup_insert_eq; exact Hlt|].
      split; [discriminate | reflexivity].
    + intros j ej Hj Hlk Hholds.
      rewrite list_lookup_insert_ne in Hlk by lia.
      apply (proj1 (Forall_lookup _ cs) Hno j ej Hlk Hholds).
  - apply list_lookup_insert_eq; exact Hlt.
Qed.

(** After [arp_cache_insert] of an address that no non-FREE slot held,
    [arp_cache_select] of that address finds the slot just filled, with
    the inserted hardware address, state RESOLVED and the new timestamp. *)
Theorem insert_then_select (le : bool) (now : timeval) (p : ip_addr_t)
    (h : list byte) (cs : list arp_cache) :
  u32 p -> wf_caches cs -> length h = ETHER_ADDR_LEN ->
  Forall (fun e => ~ holds p e) cs ->
  exists i cs',
    arp_cache_insert now p h cs = Ret (Some i, cs') /\
    arp_cache_select le p cs' = Some (i, resolved_entry p h now).
Proof.
  intros Hp [Hlen Hwf] Hh Hno.
  destruct (insert_total now p h cs Hlen) as (i & Hi & Hins).
  rewrite take_ge in Hins by lia.
  exists i, (<[i := resolved_entry p h now]> cs). split; [exact Hins|].
  apply select_after_insert; try assumption. rewrite Hlen. exact Hi.
Qed.

Lemma insert_then_select_witness :
  u32 ex_ip1 /\ wf_caches ex_full /\
  exists i cs',
    arp_cache_insert ex_now ex_ip1 ex_ha ex_full = Ret (Some i, cs') /\
    arp_cache_select true ex_ip1 cs'
    = Some (i, resolved_entry ex_ip1 ex_ha ex_now).
Proof.
  assert (Hp : u32 ex_ip1) by (unfold u32, ex_ip1; lia).
  split; [exact Hp|]. split; [exact ex_full_wf|].
  apply (insert_then_select true ex_now ex_ip1 ex_ha ex_full Hp ex_full_wf
           eq_refl).
  unfold ex_full. apply Forall_forall. intros e He [_ Hpa].
  apply list_elem_of_fmap in He as (k & -> & Hk).
  apply list_elem_of_fmap in Hk as (n & -> & Hn).
  apply elem_of_seq in Hn. cbn in Hpa. unfold ex_ip1 in Hpa. lia.
Defined.

(** Eviction frees the address: when the table is full and no address is
    held twice, [arp_cache_alloc] evicts a slot and the evicted entry's
    protocol address is no longer found by [arp_cache_select]. *)
Theorem evicted_address_not_found (le : bool) (cs : list arp_cache) :
  wf_caches cs -> Forall non_free cs -> unique_holders cs ->
  exists i e cs',
    cs !! i = Some e /\ first_oldest cs i /\
    arp_cache_alloc cs = Ret (Some i, cs') /\
    arp_cache_select le (pa e) cs' = None.
Proof.
  intros [Hlen Hwf] Hnf Huniq.
  assert (Hne : cs <> []) by (intros ->; discriminate Hlen).
  destruct (alloc_when_full cs Hne Hnf) as (i & e & Hi & Hfirst & Halloc).
  exists i, e, (<[i := free_entry]> cs).
  split; [exact Hi|]. split; [exact Hfirst|]. split; [exact Halloc|].
  pose proof (proj1 (Forall_lookup _ cs) Hwf i e Hi) as Hpe.
  assert (Hwf' : Forall (fun e => u32 (pa e)) (<[i := free_entry]> cs)).
  { apply Forall_insert; [exact Hwf | unfold u32; cbn; lia]. }
  apply (select_scan_none le (pa e) _ 0 Hpe Hwf').
  apply Forall_lookup. intros j ej Hj [Hnfj Hpa].
  destruct (decide (j = i)) as [->|Hne'].
  - rewrite list_lookup_insert_eq in Hj by (eapply lookup_lt_Some; exact Hi).
    injection Hj as <-. apply Hnfj. reflexivity.
  - rewrite list_lookup_insert_ne in Hj by congruence.
    apply Hne'. apply (Huniq j i ej e Hj Hi Hnfj); [|exact Hpa].
    exact (proj1 (Forall_lookup _ cs) Hnf i e Hi).
Qed.

Lemma ex_full_lookup (k : nat) (e : arp_cache) :
  ex_full !! k = Some e ->
  (k < 32)%nat /\ pa e = 100 + Z.of_nat k /\ non_free e.
Proof.
  unfold ex_full. intros Hk.
  assert (Hlt : (k < 32)%nat).
  { apply lookup_lt_Some in Hk. rewrite !length_fmap, length_seq in Hk.
    exact Hk. }
  rewrite !list_lookup_fmap, lookup_seq_lt in Hk by exact Hlt.
  injection Hk as <-. split; [exact Hlt|]. split; [reflexivity | discriminate].
Qed.

Lemma ex_full_unique : unique_holders ex_full.
Proof.
  intros i j ei ej Hi Hj _ _ Hpa.
  apply ex_full_lookup in Hi as (_ & Hi & _).
  apply ex_full_lookup in Hj as (_ & Hj & _). lia.
Qed.

Lemma ex_full_non_free : Forall non_free ex_full.
Proof.
  apply Forall_lookup. intros k e Hk. apply (ex_full_lookup k e Hk).
Qed.

Lemma evicted_address_not_found_witness :
  wf_caches ex_full /\ Forall non_free ex_full /\ unique_holders ex_full /\
  exists cs',
    arp_cache_alloc ex_full = Ret (Some 7%nat, cs') /\
    arp_cache_select true 107 cs' = None.
Proof.
  split; [exact ex_full_wf|]. split; [exact ex_full_non_free|].
  split; [exact ex_full_unique|].
  destruct (evicted_address_not_found true ex_full ex_full_wf
              ex_full_non_free ex_full_unique)
    as (i & e & cs' & Hi & _ & Halloc & Hsel).
  assert (Hi7 : i = 7%nat).
  { vm_compute in Halloc. injection Halloc as Hi7 _. symmetry. exact Hi7. }
  subst i. apply ex_full_lookup in Hi as (_ & Hpa & _).
  exists cs'. split; [exact Halloc|]. rewrite Hpa in Hsel. exact Hsel.
Defined.

(** A repeated [arp_cache_update] of the same address leaves what a single
    update at the later time leaves: the same slot is found again, and
    only the newest timestamp remains.  The hardware addresses passed to
    the calls play no part: the function never stores its [ha] argument. *)
Theorem update_twice (le : bool) (now1 now2 : timeval) (p : ip_addr_t)
    (h1 h2 h3 : list byte) (cs : list arp_cache) :
  u32 p -> Forall (fun e => u32 (pa e)) cs ->
  arp_cache_update le now2 p h2 (snd (arp_cache_update le now1 p h1 cs))
  = arp_cache_update le now2 p h3 cs.
Proof.
  intros Hp Hwf. unfold arp_cache_update at 2 3.
  destruct (select_cases le p cs Hp Hwf)
    as [(i & e & Hfirst & Hi & Hsel)|[_ Hsel]]; rewrite Hsel.
  - pose proof (lookup_lt_Some _ _ _ Hi) as Hlt.
    cbn [snd]. set (e1 := {| state := ARP_CACHE_STATE_RESOLVED; pa := pa e;
                             ha := ha e; timestamp := now1 |}).
    assert (Hsel1 : arp_cache_select le p (<[i := e1]> cs) = Some (i, e1)).
    { unfold arp_cache_select. apply (select_scan_first le p _ 0 i).
      - exact Hp.
      - apply Forall_insert; [exact Hwf|].
        exact (proj1 (Forall_lookup _ cs) Hwf i e Hi).
      - split.
        + exists e1. split; [apply list_lookup_insert_eq; exact Hlt|].
          destruct Hfirst as [[e' [Hi' [_ Hpa]]] _].
          rewrite Hi in Hi'. injection Hi' as <-.
          split; [discriminate | exact Hpa].
        + intros j ej Hj Hlk. rewrite list_lookup_insert_ne in Hlk by lia.
          destruct Hfirst as [_ Hbefore]. exact (Hbefore j ej Hj Hlk).
      - apply list_lookup_insert_eq; exact Hlt. }
    unfold arp_cache_update. rewrite Hsel1, list_insert_insert_eq.
    reflexivity.
  - cbn [snd]. unfold arp_cache_update. rewrite Hsel. reflexivity.
Qed.

Lemma update_twice_witness :
  u32 105 /\ Forall (fun e => u32 (pa e)) ex_full /\
  arp_cache_update true ex_now 105 ex_ha
    (snd (arp_cache_update true {| tv_sec := 1; tv_usec := 2 |} 105 [] ex_full))
  = arp_cache_update true ex_now 105 [xbb; xbb; xbb; xbb; xbb; xbb] ex_full.
Proof.
  pose proof ex_full_wf as [_ Hwf].
  split; [unfold u32; lia|]. split; [exact Hwf|].
  apply update_twice; [unfold u32; lia | exact Hwf].
Defined.

Lemma select_scan_lookup (le : bool) (p : ip_addr_t) (rest : list arp_cache)
    (entry i : nat) (e : arp_cache) :
  select_scan le p rest entry = Some (i, e) ->
  exists k, i = (entry + k)%nat /\ rest !! k = Some e /\ non_free e.
Proof.
  revert entry. induction rest as [|e0 rest IH]; intros entry Hsel;
    [discriminate|].
  cbn [select_scan] in Hsel.
  assert (Hrec : select_scan le p rest (S entry) = Some (i, e) ->
                 exists k, i = (entry + k)%nat /\ (e0 :: rest) !! k = Some e
                           /\ non_free e).
  { intros H. destruct (IH _ H) as (k & -> & Hk & Hnf).
    exists (S k). split; [lia|]. split; assumption. }
  destruct (Z.eqb_spec (state e0) ARP_CACHE_STATE_FREE) as [|Hnf];
    [exact (Hrec Hsel)|].
  destruct (ntoh32 le (pa e0) =? ntoh32 le p); [|exact (Hrec Hsel)].
  injection Hsel as <- <-. exists 0%nat.
  split; [lia|]. split; [reflexivity | exact Hnf].
Qed.

Lemma update_shape (le : bool) (now : timeval) (p : ip_addr_t)
    (h : list byte) (cs : list arp_cache) :
  (fst (arp_cache_update le now p h cs) = None /\
   snd (arp_cache_update le now p h cs) = cs)
  \/ exists i e,
       cs !! i = Some e /\ non_free e /\
       arp_cache_update le now p h cs
       = (Some i, <[i := resolved_entry (pa e) (ha e) now]> cs).
Proof.
  unfold arp_cache_update, arp_cache_select.
  destruct (select_scan le p cs 0) as [[i e]|] eqn:Hsel.
  - right. destruct (select_scan_lookup _ _ _ _ _ _ Hsel) as (k & -> & Hk & Hnf).
    exists k, e. repeat split; assumption.
  - left. split; reflexivity.
Qed.

Lemma update_keeps_table (le : bool) (now : timeval) (p : ip_addr_t)
    (h : list byte) (cs : list arp_cache) :
  table_ok cs -> table_ok (snd (arp_cache_update le now p h cs)).
Proof.
  intros [Hlen Hall].
  destruct (update_shape le now p h cs) as [[_ ->]|(i & e & Hi & _ & ->)];
    [split; assumption|].
  cbn [snd]. split; [rewrite length_insert; exact Hlen|].
  apply Forall_insert; [exact Hall|].
  exact (proj1 (Forall_lookup _ cs) Hall i e Hi).
Qed.

Lemma update_keeps_unique (le : bool) (now : timeval) (p : ip_addr_t)
    (h : list byte) (cs : list arp_cache) :
  unique_holders cs -> unique_holders (snd (arp_cache_update le now p h cs)).
Proof.
  intros Huniq.
  destruct (update_shape le now p h cs) as [[_ ->]|(i & e & Hi & Hnf & ->)];
    [exact Huniq|].
  cbn [snd].
  assert (Hback : forall a ea,
    <[i := resolved_entry (pa e) (ha e) now]> cs !! a = Some ea ->
    non_free ea ->
    exists ea0, cs !! a = Some ea0 /\ non_free ea0 /\ pa ea0 = pa ea).
  { intros a ea Ha Hnfa. destruct (decide (a = i)) as [->|Hne].
    - rewrite list_lookup_insert_eq in Ha by (eapply lookup_lt_Some; exact Hi).
      injection Ha as <-. exists e. repeat split; assumption.
    - rewrite list_lookup_insert_ne in Ha by congruence.
      exists ea. repeat split; assumption. }
  intros a b ea eb Ha Hb Hnfa Hnfb Hpa.
  destruct (Hback a ea Ha Hnfa) as (ea0 & Ha0 & Hnfa0 & Hpa0).
  destruct (Hback b eb Hb Hnfb) as (eb0 & Hb0 & Hnfb0 & Hpb0).
  apply (Huniq a b ea0 eb0 Ha0 Hb0 Hnfa0 Hnfb0). congruence.
Qed.

Lemma insert_shape (now : timeval) (p : ip_addr_t) (h : list byte)
    (cs cs' : list arp_cache) (i : nat) :
  length cs = ARP_CACHE_SIZE ->
  arp_cache_insert now p h cs = Ret (Some i, cs') ->
  (i < ARP_CACHE_SIZE)%nat /\
  cs' = <[i := resolved_entry p (take ETHER_ADDR_LEN h) now]> cs.
Proof.
  intros Hlen Hins.
  destruct (insert_total now p h cs Hlen) as (i0 & Hi0 & Hins0).
  rewrite Hins0 in Hins. injection Hins as <- <-. split; [exact Hi0|reflexivity].
Qed.

Lemma insert_keeps_table (now : timeval) (p : ip_addr_t) (h : list byte)
    (cs cs' : list arp_cache) (i : nat) :
  table_ok cs -> u32 p -> (ETHER_ADDR_LEN <= length h)%nat ->
  arp_cache_insert now p h cs = Ret (Some i, cs') -> table_ok cs'.
Proof.
  intros [Hlen Hall] Hp Hh Hins.
  destruct (insert_shape _ _ _ _ _ _ Hlen Hins) as [_ ->].
  split; [rewrite length_insert; exact Hlen|].
  apply Forall_insert; [exact Hall|]. split; [exact Hp|].
  cbn [ha resolved_entry]. rewrite length_take. lia.
Qed.

Lemma insert_keeps_unique (now : timeval) (p : ip_addr_t) (h : list byte)
    (cs cs' : list arp_cache) (i : nat) :
  length cs = ARP_CACHE_SIZE -> Forall (fun e => ~ holds p e) cs ->
  unique_holders cs ->
  arp_cache_insert now p h cs = Ret (Some i, cs') -> unique_holders cs'.
Proof.
  intros Hlen Hno Huniq Hins.
  destruct (insert_shape _ _ _ _ _ _ Hlen Hins) as [Hi ->].
  assert (Hlt : (i < length cs)%nat) by (rewrite Hlen; exact Hi).
  assert (Hother : forall a ea,
    a <> i ->
    <[i := resolved_entry p (take ETHER_ADDR_LEN h) now]> cs !! a = Some ea ->
    non_free ea -> cs !! a = Some ea /\ pa ea <> p).
  { intros a ea Hne Ha Hnfa.
    rewrite list_lookup_insert_ne in Ha by congruence.
    split; [exact Ha|]. intros Hpa.
    apply (proj1 (Forall_lookup _ cs) Hno a ea Ha). split; assumption. }
  assert (Hnew : forall ea,
    <[i := resolved_entry p (take ETHER_ADDR_LEN h) now]> cs !! i = Some ea ->
    pa ea = p).
  { intros ea Ha. rewrite list_lookup_insert_eq in Ha by exact Hlt.
    injection Ha as <-. reflexivity. }
  intros a b ea eb Ha Hb Hnfa Hnfb Hpa.
  destruct (decide (a = i)) as [->|Hai]; destruct (decide (b = i)) as [->|Hbi].
  - reflexivity.
  - exfalso. destruct (Hother b eb Hbi Hb Hnfb) as [_ Hpb].
    apply Hpb. rewrite <- Hpa. exact (Hnew ea Ha).
  - exfalso. destruct (Hother a ea Hai Ha Hnfa) as [_ Hpa'].
    apply Hpa'. rewrite Hpa. exact (Hnew eb Hb).
  - destruct (Hother a ea Hai Ha Hnfa) as [Ha0 _].
    destruct (Hother b eb Hbi Hb Hnfb) as [Hb0 _].
    exact (Huniq a b ea eb Ha0 Hb0 Hnfa Hnfb Hpa).
Qed.

Lemma update_found (le : bool) (now : timeval) (p : ip_addr_t)
    (h : list byte) (cs : list arp_cache) (i : nat) (e : arp_cache) :
  u32 p -> Forall (fun e => u32 (pa e)) cs ->
  first_slot (holds p) cs i -> cs !! i = Some e ->
  arp_cache_update le now p h cs
  = (Some i, <[i := resolved_entry (pa e) (ha e) now]> cs) /\
  arp_cache_select le p (<[i := resolved_entry (pa e) (ha e) now]> cs)
  = Some (i, resolved_entry (pa e) (ha e) now).
Proof.
  intros Hp Hwf Hfirst Hi.
  pose proof (lookup_lt_Some _ _ _ Hi) as Hlt.
  split.
  - unfold arp_cache_update, arp_cache_select.
    rewrite (select_scan_first le p cs 0 i e Hp Hwf Hfirst Hi). reflexivity.
  - unfold arp_cache_select. apply (select_scan_first le p _ 0 i).
    + exact Hp.
    + apply Forall_insert; [exact Hwf|].
      exact (proj1 (Forall_lookup _ cs) Hwf i e Hi).
    + split.
      * eexists. split; [apply list_lookup_insert_eq; exact Hlt|].
        destruct Hfirst as [[e' [Hi' [_ Hpa]]] _].
        rewrite Hi in Hi'. injection Hi' as <-.
        split; [discriminate | exact Hpa].
      * intros j ej Hj Hlk. rewrite list_lookup_insert_ne in Hlk by lia.
        destruct Hfirst as [_ Hbefore]. exact (Hbefore j ej Hj Hlk).
    + apply list_lookup_insert_eq; exact Hlt.
Qed.

End ArpCacheMore.

(** ** More on the ARP handler *)

Module ArpHandlerMore.
Import Arp Spec Props UtilFacts ArpCacheFacts ArpCacheClaims ArpHandlerClaims.
Import ArpCacheMore Examples MoreExamples.

Section Input.
Variable host_le : bool.
Variables NET_DEVICE_FLAG_UP NET_IFACE_FAMILY_IP ETHER_TYPE_ARP : Z.
Variable net_device_get_iface : net_device -> Z -> option net_iface.

Let input :=
  arp_input host_le NET_DEVICE_FLAG_UP NET_IFACE_FAMILY_IP ETHER_TYPE_ARP
    net_device_get_iface.
Let reply :=
  arp_reply host_le NET_DEVICE_FLAG_UP ETHER_TYPE_ARP.

(** The paths through [arp_input] on a 32-slot table. *)
Lemma arp_input_cases (now : timeval) (data : list byte) (len : Z)
    (d : net_device) (st : arp_state) :
  length (caches st) = ARP_CACHE_SIZE ->
  let msg := msg_of_bytes host_le data in
  let spa0 := load32 host_le (spa msg) in
  let upd := arp_cache_update host_le now spa0 (sha msg) (caches st) in
  (accepted host_le data len = false /\ input now data len d st = Ret st)
  \/ (accepted host_le data len = true /\
      (forall iface,
         ~ for_us host_le net_device_get_iface NET_IFACE_FAMILY_IP d data
             iface) /\
      input now data len d st
      = Ret {| caches := snd upd; log := log st ++ [EvLock; EvUnlock] |})
  \/ (accepted host_le data len = true /\
      exists iface cs2 lg2,
        for_us host_le net_device_get_iface NET_IFACE_FAMILY_IP d data iface /\
        ((fst upd <> None /\ cs2 = snd upd /\
          lg2 = log st ++ [EvLock; EvUnlock])
         \/ (fst upd = None /\ snd upd = caches st /\
             (exists i, arp_cache_insert now spa0 (sha msg) (caches st)
                        = Ret (Some i, cs2)) /\
             lg2 = log st ++ [EvLock; EvUnlock; EvLock; EvUnlock])) /\
        ((ntoh16 host_le (op (hdr msg)) = ARP_OP_REQUEST /\
          input now data len d st
          = Ret {| caches := cs2;
                   log := snd (reply iface (sha msg) spa0 (sha msg) lg2) |})
         \/ (ntoh16 host_le (op (hdr msg)) <> ARP_OP_REQUEST /\
             input now data len d st = Ret {| caches := cs2; log := lg2 |}))).
Proof.
  intros Hlen msg spa0 upd. subst input reply.
  unfold arp_input, accepted, for_us. fold msg. fold spa0.
  destruct (len <? sizeof_arp_ether_ip); [left; split; reflexivity|].
  destruct (Z.eqb_spec (ntoh16 host_le (hrd (hdr msg))) ARP_HRD_ETHER);
    [|left; split; reflexivity].
  destruct (Z.eqb_spec (hln (hdr msg)) (Z.of_nat ETHER_ADDR_LEN));
    [|left; split; reflexivity].
  destruct (Z.eqb_spec (ntoh16 host_le (pro (hdr msg))) ARP_PRO_IP);
    [|left; split; reflexivity].
  destruct (Z.eqb_spec (pln (hdr msg)) (Z.of_nat IP_ADDR_LEN));
    [|left; split; reflexivity].
  cbn [negb orb andb]. right. fold upd.
  assert (Hupd_none : fst upd = None -> snd upd = caches st).
  { subst upd. unfold arp_cache_update.
    destruct (arp_cache_select _ _ _) as [[? ?]|]; [discriminate|reflexivity]. }
  destruct upd as [updated cs1] eqn:Hupd. cbn [fst snd] in *.
  destruct (net_device_get_iface d NET_IFACE_FAMILY_IP) as [iface|] eqn:Hif.
  2:{ left. split; [reflexivity|]. split; [|reflexivity].
      intros iface [Hsome _]. discriminate Hsome. }
  destruct (Z.eqb_spec (unicast iface) (load32 host_le (tpa msg))) as [Hto|Hto].
  2:{ left. split; [reflexivity|]. split; [|reflexivity].
      intros iface' [Hsome Heq]. injection Hsome as <-. contradiction. }
  right. split; [reflexivity|]. exists iface.
  destruct updated as [slot|].
  - exists cs1, (log st ++ [EvLock; EvUnlock]). split; [split; [reflexivity|exact Hto]|].
    split; [left; repeat split; discriminate|].
    cbn [Z.eqb].
    destruct (Z.eqb_spec (ntoh16 host_le (op (hdr msg))) ARP_OP_REQUEST).
    + left. split; [assumption|].
      destruct (arp_reply _ _ _ _ _ _ _ _) as [r lg3]. reflexivity.
    + right. split; [assumption | reflexivity].
  - rewrite (Hupd_none eq_refl) in *.
    destruct (insert_total now spa0 (sha msg) (caches st) Hlen)
      as (i & _ & Hins).
    rewrite Z.eqb_refl, Hins.
    eexists _, ((log st ++ [EvLock; EvUnlock]) ++ [EvLock; EvUnlock]).
    split; [split; [reflexivity|exact Hto]|].
    split.
    { right. split; [reflexivity|]. split; [reflexivity|].
      split; [exists i; reflexivity|]. rewrite <- app_assoc. reflexivity. }
    destruct (Z.eqb_spec (ntoh16 host_le (op (hdr msg))) ARP_OP_REQUEST).
    + left. split; [assumption|].
      destruct (arp_reply _ _ _ _ _ _ _ _) as [r lg3]. reflexivity.
    + right. split; [assumption | reflexivity].
Qed.

Lemma accepted_len (data : list byte) (len : Z) :
  accepted host_le data len = true -> sizeof_arp_ether_ip <= len.
Proof.
  unfold accepted. destruct (Z.ltb_spec len sizeof_arp_ether_ip); [|lia].
  discriminate.
Qed.

Lemma sha_length (data : list byte) (len : Z) :
  buffer_ok data len -> sizeof_arp_ether_ip <= len ->
  length (sha (msg_of_bytes host_le data)) = ETHER_ADDR_LEN.
Proof.
  unfold buffer_ok, sizeof_arp_ether_ip. intros Hbuf Hlen.
  cbn [msg_of_bytes sha]. rewrite length_take, length_drop.
  unfold ETHER_ADDR_LEN. lia.
Qed.

Lemma update_none_no_holder (now : timeval) (p : ip_addr_t) (h : list byte)
    (cs : list arp_cache) :
  u32 p -> Forall (fun e => u32 (pa e)) cs ->
  (fst (arp_cache_update host_le now p h cs) = None <->
   Forall (fun e => ~ holds p e) cs).
Proof.
  intros Hp Hwf. unfold arp_cache_update.
  destruct (select_cases host_le p cs Hp Hwf)
    as [(i & e & Hfirst & Hi & Hsel)|[Hno Hsel]]; rewrite Hsel; cbn [fst].
  - split; [discriminate|]. intros Hall. exfalso.
    destruct Hfirst as [[e1 [Hi1 Hh1]] _].
    apply (proj1 (Forall_lookup _ cs) Hall i e1 Hi1 Hh1).
  - split; [intros _; exact Hno | reflexivity].
Qed.

(** [arp_input] returns on every message when the table has its 32 slots,
    and keeps the table well formed: 32 slots, 32-bit protocol addresses,
    6-byte hardware addresses, and no protocol address held by two
    non-FREE slots. *)
Theorem arp_input_keeps_table (now : timeval) (data : list byte) (len : Z)
    (d : net_device) (st : arp_state) :
  table_ok (caches st) -> unique_holders (caches st) -> buffer_ok data len ->
  exists st',
    input now data len d st = Ret st' /\
    table_ok (caches st') /\ unique_holders (caches st').
Proof.
  intros Hok Huniq Hbuf. pose proof Hok as [Hlen Hall].
  pose proof (table_ok_wf _ Hok) as [_ Hwf].
  set (msg := msg_of_bytes host_le data).
  set (spa0 := load32 host_le (spa msg)).
  assert (Hspa : u32 spa0) by apply load32_range.
  destruct (arp_input_cases now data len d st Hlen)
    as [[_ Hrun]|[(_ & _ & Hrun)|(Hacc & iface & cs2 & lg2 & _ & Hcs2 & Hrun)]].
  - exists st. repeat split; assumption.
  - eexists. split; [exact Hrun|]. cbn [caches].
    split; [apply update_keeps_table | apply update_keeps_unique]; assumption.
  - assert (Hgood : table_ok cs2 /\ unique_holders cs2).
    { destruct Hcs2 as [(_ & -> & _)|(Hnone & _ & [i Hins] & _)].
      - split; [apply update_keeps_table | apply update_keeps_unique];
          assumption.
      - apply update_none_no_holder in Hnone; [|exact Hspa|exact Hwf].
        split.
        + eapply insert_keeps_table; [exact Hok|exact Hspa| |exact Hins].
          rewrite (sha_length data len Hbuf (accepted_len _ _ Hacc)). lia.
        + eapply insert_keeps_unique; [exact Hlen|exact Hnone|
                                       exact Huniq|exact Hins]. }
    destruct Hrun as [[_ Hrun]|[_ Hrun]]; eexists; (split; [exact Hrun|]);
      exact Hgood.
Qed.

Lemma header_fields (b0 b1 b2 b3 b4 b5 : byte) (rest : list byte) :
  let h := hdr (msg_of_bytes host_le (b0 :: b1 :: b2 :: b3 :: b4 :: b5 :: rest)) in
  ntoh16 host_le (hrd h) = 256 * byte_to_Z b0 + byte_to_Z b1 /\
  ntoh16 host_le (pro h) = 256 * byte_to_Z b2 + byte_to_Z b3 /\
  hln h = byte_to_Z b4 /\ pln h = byte_to_Z b5.
Proof.
  cbn [msg_of_bytes hdr hrd pro hln pln take drop nth].
  rewrite !ntoh16_load16. repeat split.
Qed.

(** [arp_input] drops a message, leaving the table and the log as they
    were and taking no lock, when it is shorter than 28 bytes or when its
    wire header does not say Ethernet (bytes 0-1 = 00 01, byte 4 = 6) and
    IPv4 (bytes 2-3 = 08 00, byte 5 = 4); the test reads the bytes in
    network order whatever the byte order of the host. *)
Theorem arp_input_drops_malformed (now : timeval)
    (b0 b1 b2 b3 b4 b5 : byte) (rest : list byte) (len : Z)
    (d : net_device) (st : arp_state) :
  len < 28
  \/ 256 * byte_to_Z b0 + byte_to_Z b1 <> 1 \/ byte_to_Z b4 <> 6
  \/ 256 * byte_to_Z b2 + byte_to_Z b3 <> 0x0800 \/ byte_to_Z b5 <> 4 ->
  input now (b0 :: b1 :: b2 :: b3 :: b4 :: b5 :: rest) len d st = Ret st.
Proof.
  intros Hbad. subst input. unfold arp_input.
  destruct (header_fields b0 b1 b2 b3 b4 b5 rest) as (-> & -> & -> & ->).
  destruct (Z.ltb_spec len sizeof_arp_ether_ip) as [|Hlen]; [reflexivity|].
  destruct (Z.eqb_spec (256 * byte_to_Z b0 + byte_to_Z b1) ARP_HRD_ETHER)
    as [Hhrd|]; [|reflexivity].
  destruct (Z.eqb_spec (byte_to_Z b4) (Z.of_nat ETHER_ADDR_LEN))
    as [Hhln|]; [|reflexivity].
  destruct (Z.eqb_spec (256 * byte_to_Z b2 + byte_to_Z b3) ARP_PRO_IP)
    as [Hpro|]; [|reflexivity].
  destruct (Z.eqb_spec (byte_to_Z b5) (Z.of_nat IP_ADDR_LEN))
    as [Hpln|]; [|reflexivity].
  exfalso. unfold sizeof_arp_ether_ip, ARP_HRD_ETHER, ARP_PRO_IP in *.
  change (Z.of_nat ETHER_ADDR_LEN) with 6 in Hhln.
  change (Z.of_nat IP_ADDR_LEN) with 4 in Hpln. lia.
Qed.

Lemma reply_events (iface : net_iface) (tha0 : list byte) (tpa0 : ip_addr_t)
    (dst : list byte) (lg : list event) :
  snd (reply iface tha0 tpa0 dst lg) = lg
  \/ exists frame,
       snd (reply iface tha0 tpa0 dst lg)
       = lg ++ [EvTransmit (dev iface) ETHER_TYPE_ARP frame
                  sizeof_arp_ether_ip (Some dst)].
Proof.
  subst reply. unfold arp_reply, Net.net_device_output.
  destruct (negb _); [left; reflexivity|].
  destruct (_ >? _); [left; reflexivity|].
  right. eexists. destruct (_ =? -1); reflexivity.
Qed.

(** [arp_input] calls the driver's transmit at most once, and only for an
    accepted REQUEST addressed to the device's IP interface: the frame
    then goes out through that interface's device with the ARP type,
    28 bytes long, to the sender's hardware address.  Every other event
    of the call is a lock or unlock of the cache mutex. *)
Theorem arp_input_transmits_at_most_once (now : timeval) (data : list byte)
    (len : Z) (d : net_device) (st : arp_state) :
  length (caches st) = ARP_CACHE_SIZE ->
  let msg := msg_of_bytes host_le data in
  exists st' locks tx,
    input now data len d st = Ret st' /\
    log st' = log st ++ locks ++ tx /\ Forall is_lock_event locks /\
    (tx = []
     \/ exists iface frame,
          tx = [EvTransmit (dev iface) ETHER_TYPE_ARP frame
                  sizeof_arp_ether_ip (Some (sha msg))] /\
          accepted host_le data len = true /\
          for_us host_le net_device_get_iface NET_IFACE_FAMILY_IP d data
            iface /\
          ntoh16 host_le (op (hdr msg)) = ARP_OP_REQUEST).
Proof.
  intros Hlen msg.
  destruct (arp_input_cases now data len d st Hlen)
    as [[_ Hrun]|[(_ & _ & Hrun)|(Hacc & iface & cs2 & lg2 & Hus & Hcs2 & Hrun)]].
  - exists st, [], []. split; [exact Hrun|]. rewrite !app_nil_r.
    split; [reflexivity|]. split; [lock_events | left; reflexivity].
  - eexists _, [EvLock; EvUnlock], []. split; [exact Hrun|].
    rewrite app_nil_r. split; [reflexivity|].
    split; [lock_events | left; reflexivity].
  - assert (Hlg2 : exists locks, lg2 = log st ++ locks /\
                                 Forall is_lock_event locks).
    { destruct Hcs2 as [(_ & _ & ->)|(_ & _ & _ & ->)]; eexists;
        (split; [reflexivity | lock_events]). }
    destruct Hlg2 as (locks & -> & Hlocks).
    destruct Hrun as [[Hop Hrun]|[_ Hrun]].
    + destruct (reply_events iface (sha msg) (load32 host_le (spa msg))
                  (sha msg) (log st ++ locks)) as [Hsent|[frame Hsent]].
      * eexists _, locks, []. split; [exact Hrun|]. cbn [log].
        fold msg in Hsent |- *. rewrite Hsent, app_nil_r.
        split; [reflexivity|]. split; [exact Hlocks | left; reflexivity].
      * eexists _, locks, _. split; [exact Hrun|]. cbn [log].
        fold msg in Hsent |- *. rewrite Hsent, <- app_assoc.
        split; [reflexivity|]. split; [exact Hlocks|].
        right. exists iface, frame. repeat split; try assumption.
        apply Hus. apply Hus.
    + eexists _, locks, []. split; [exact Hrun|]. cbn [log].
      rewrite app_nil_r. split; [reflexivity|].
      split; [exact Hlocks | left; reflexivity].
Qed.

(** A message that is not addressed to the device's IP interface (no IP
    interface, or another target address) is never answered and never
    creates an entry: every slot keeps its protocol and hardware address,
    FREE slots stay FREE, and the only events are locks of the mutex. *)
Theorem arp_input_not_for_us (now : timeval) (data : list byte) (len : Z)
    (d : net_device) (st : arp_state) :
  length (caches st) = ARP_CACHE_SIZE ->
  (forall iface,
     ~ for_us host_le net_device_get_iface NET_IFACE_FAMILY_IP d data iface) ->
  exists st' locks,
    input now data len d st = Ret st' /\
    log st' = log st ++ locks /\ Forall is_lock_event locks /\
    length (caches st') = length (caches st) /\
    forall i e, caches st !! i = Some e ->
      exists e', caches st' !! i = Some e' /\
                 pa e' = pa e /\ ha e' = ha e /\ (is_free e' <-> is_free e).
Proof.
  intros Hlen Hnot.
  destruct (arp_input_cases now data len d st Hlen)
    as [[_ Hrun]|[(_ & _ & Hrun)|(_ & iface & _ & _ & Hus & _)]].
  - exists st, []. split; [exact Hrun|]. rewrite app_nil_r.
    split; [reflexivity|]. split; [lock_events|]. split; [reflexivity|].
    intros i e Hi. exists e. repeat split; tauto.
  - eexists _, [EvLock; EvUnlock]. split; [exact Hrun|]. cbn [log caches].
    split; [reflexivity|]. split; [lock_events|].
    destruct (update_shape host_le now
                (load32 host_le (spa (msg_of_bytes host_le data)))
                (sha (msg_of_bytes host_le data)) (caches st))
      as [[_ ->]|(k & ek & Hk & Hnf & ->)].
    + split; [reflexivity|]. intros i e Hi. exists e. repeat split; tauto.
    + cbn [snd]. split; [apply length_insert|]. intros i e Hi.
      destruct (decide (i = k)) as [->|Hne].
      * rewrite Hk in Hi. injection Hi as <-. eexists.
        split; [apply list_lookup_insert_eq; eapply lookup_lt_Some; exact Hk|].
        split; [reflexivity|]. split; [reflexivity|].
        unfold is_free. cbn [state resolved_entry].
        split; [discriminate | intros Hf; contradiction].
      * exists e. rewrite list_lookup_insert_ne by congruence.
        repeat split; tauto.
  - exfalso. exact (Hnot iface Hus).
Qed.

Lemma wire_fields (opcode : Z) (sha0 spa0 tha0 tpa0 : list byte) :
  length sha0 = ETHER_ADDR_LEN -> length spa0 = IP_ADDR_LEN ->
  length tha0 = ETHER_ADDR_LEN -> length tpa0 = IP_ADDR_LEN ->
  let msg := msg_of_bytes host_le (arp_wire opcode sha0 spa0 tha0 tpa0) in
  sha msg = sha0 /\ spa msg = spa0 /\ tpa msg = tpa0 /\
  accepted host_le (arp_wire opcode sha0 spa0 tha0 tpa0) sizeof_arp_ether_ip
  = true.
Proof.
  intros Hsha Hspa Htha Htpa. unfold accepted, arp_wire. cbv zeta.
  rewrite msg_of_bytes_wire by assumption.
  cbn [hdr hrd pro hln pln sha spa tpa]. rewrite !ntoh16_load16.
  repeat split.
Qed.

(** Learning and resolving compose: after [arp_input] of an accepted
    message addressed to the device's IP interface from a sender that no
    entry held, [arp_resolve] of the sender's protocol address returns
    FOUND with the sender's hardware address, whatever the opcode. *)
Theorem learn_then_resolve (now : timeval) (opcode : Z)
    (sha0 spa0 tha0 tpa0 : list byte) (d : net_device) (iface : net_iface)
    (st : arp_state) :
  length sha0 = ETHER_ADDR_LEN -> length spa0 = IP_ADDR_LEN ->
  length tha0 = ETHER_ADDR_LEN -> length tpa0 = IP_ADDR_LEN ->
  wf_caches (caches st) ->
  net_device_get_iface d NET_IFACE_FAMILY_IP = Some iface ->
  load32 host_le tpa0 = unicast iface ->
  Forall (fun e => ~ holds (load32 host_le spa0) e) (caches st) ->
  exists st',
    input now (arp_wire opcode sha0 spa0 tha0 tpa0) sizeof_arp_ether_ip d st
    = Ret st' /\
    forall ether_type family_ip iface' buf,
      type (dev iface') = ether_type -> family iface' = family_ip ->
      length buf = ETHER_ADDR_LEN ->
      arp_resolve host_le ether_type family_ip iface' (load32 host_le spa0)
        buf st'
      = (ARP_RESOLVE_FOUND, sha0, locked st').
Proof.
  intros Hsha Hspa Htha Htpa Hwf Hif Hto Hno. pose proof Hwf as [Hlen Hu32].
  destruct (wire_fields opcode sha0 spa0 tha0 tpa0 Hsha Hspa Htha Htpa)
    as (Esha & Espa & Etpa & Hacc).
  assert (Hp : u32 (load32 host_le spa0)) by apply load32_range.
  assert (Hresolve : forall cs2 lg i,
    arp_cache_insert now (load32 host_le spa0) sha0 (caches st)
    = Ret (Some i, cs2) ->
    forall ether_type family_ip iface' buf,
      type (dev iface') = ether_type -> family iface' = family_ip ->
      length buf = ETHER_ADDR_LEN ->
      arp_resolve host_le ether_type family_ip iface' (load32 host_le spa0)
        buf {| caches := cs2; log := lg |}
      = (ARP_RESOLVE_FOUND, sha0, locked {| caches := cs2; log := lg |})).
  { intros cs2 lg i Hins ether_type family_ip iface' buf Hty Hfam Hbuf.
    destruct (insert_shape _ _ _ _ _ _ Hlen Hins) as [Hi ->].
    rewrite take_ge by lia.
    pose proof (select_after_insert host_le now (load32 host_le spa0) sha0
                  (caches st) i Hp Hu32 ltac:(rewrite Hlen; exact Hi) Hno)
      as Hsel.
    unfold arp_resolve. rewrite Hty, Hfam, !Z.eqb_refl. cbn [negb caches].
    rewrite Hsel. cbn [ha resolved_entry].
    rewrite take_ge by lia. rewrite drop_ge by lia.
    rewrite app_nil_r. reflexivity. }
  destruct (arp_input_cases now (arp_wire opcode sha0 spa0 tha0 tpa0)
              sizeof_arp_ether_ip d st Hlen)
    as [[Hrej _]|[(_ & Hnot & _)|(_ & iface0 & cs2 & lg2 & _ & Hcs2 & Hrun)]].
  - rewrite Hacc in Hrej. discriminate.
  - exfalso. apply (Hnot iface). split; [exact Hif|].
    rewrite Etpa. symmetry. exact Hto.
  - rewrite Esha, Espa in Hcs2.
    destruct Hcs2 as [(Hsome & _)|(_ & _ & [i Hins] & _)].
    + exfalso. apply Hsome.
      apply update_none_no_holder; assumption.
    + destruct Hrun as [[_ Hrun]|[_ Hrun]]; eexists;
        (split; [exact Hrun|]); apply (Hresolve _ _ i Hins).
Qed.

(** A known sender is refreshed, not rewritten: when a non-FREE entry
    already holds the sender's protocol address, [arp_input] of any
    accepted message from that address only sets that entry's state and
    timestamp, and [arp_resolve] afterwards still returns the hardware
    address the entry held before, not the one the message carries. *)
Theorem known_sender_keeps_address (now : timeval) (data : list byte)
    (len : Z) (d : net_device) (st : arp_state) (i : nat) (e : arp_cache) :
  let spa0 := load32 host_le (spa (msg_of_bytes host_le data)) in
  accepted host_le data len = true -> wf_caches (caches st) ->
  first_slot (holds spa0) (caches st) i -> caches st !! i = Some e ->
  length (ha e) = ETHER_ADDR_LEN ->
  exists st',
    input now data len d st = Ret st' /\
    caches st' = <[i := resolved_entry (pa e) (ha e) now]> (caches st) /\
    forall ether_type family_ip iface' buf,
      type (dev iface') = ether_type -> family iface' = family_ip ->
      length buf = ETHER_ADDR_LEN ->
      arp_resolve host_le ether_type family_ip iface' spa0 buf st'
      = (ARP_RESOLVE_FOUND, ha e, locked st').
Proof.
  intros spa0 Hacc [Hlen Hu32] Hfirst Hi Hha.
  assert (Hp : u32 spa0) by apply load32_range.
  destruct (update_found host_le now spa0
              (sha (msg_of_bytes host_le data)) (caches st) i e
              Hp Hu32 Hfirst Hi) as [Hupd Hsel].
  assert (Hresolve : forall lg ether_type family_ip iface' buf,
    type (dev iface') = ether_type -> family iface' = family_ip ->
    length buf = ETHER_ADDR_LEN ->
    arp_resolve host_le ether_type family_ip iface' spa0 buf
      {| caches := <[i := resolved_entry (pa e) (ha e) now]> (caches st);
         log := lg |}
    = (ARP_RESOLVE_FOUND, ha e,
       locked {| caches := <[i := resolved_entry (pa e) (ha e) now]>
                             (caches st);
                 log := lg |})).
  { intros lg ether_type family_ip iface' buf Hty Hfam Hbuf.
    unfold arp_resolve. rewrite Hty, Hfam, !Z.eqb_refl. cbn [negb caches].
    rewrite Hsel. cbn [ha resolved_entry].
    rewrite take_ge by lia. rewrite drop_ge by lia.
    rewrite app_nil_r. reflexivity. }
  destruct (arp_input_cases now data len d st Hlen)
    as [[Hrej _]|[(_ & _ & Hrun)|(_ & iface0 & cs2 & lg2 & _ & Hcs2 & Hrun)]].
  - rewrite Hacc in Hrej. discriminate.
  - fold spa0 in Hrun. rewrite Hupd in Hrun. cbn [snd] in Hrun.
    eexists. split; [exact Hrun|]. split; [reflexivity|]. apply Hresolve.
  - fold spa0 in Hcs2. rewrite Hupd in Hcs2. cbn [fst snd] in Hcs2.
    destruct Hcs2 as [(_ & -> & _)|(Hnone & _)]; [|discriminate].
    destruct Hrun as [[_ Hrun]|[_ Hrun]]; eexists;
      (split; [exact Hrun|]); (split; [reflexivity|]); apply Hresolve.
Qed.

Lemma wire_op (opcode : Z) (sha0 spa0 tha0 tpa0 : list byte) :
  length sha0 = ETHER_ADDR_LEN -> length spa0 = IP_ADDR_LEN ->
  length tha0 = ETHER_ADDR_LEN -> length tpa0 = IP_ADDR_LEN ->
  ntoh16 host_le
    (op (hdr (msg_of_bytes host_le (arp_wire opcode sha0 spa0 tha0 tpa0))))
  = 256 * byte_to_Z (Z_to_byte (opcode / 256)) + byte_to_Z (Z_to_byte opcode).
Proof.
  intros Hsha Hspa Htha Htpa. unfold arp_wire.
  rewrite msg_of_bytes_wire by assumption. cbn [hdr op].
  apply ntoh16_load16.
Qed.

Lemma reply_sent (iface : net_iface) (tha0 : list byte) (tpa0 : ip_addr_t)
    (dst : list byte) (lg : list event) :
  Net.NET_DEVICE_IS_UP NET_DEVICE_FLAG_UP (dev iface) = true ->
  sizeof_arp_ether_ip <= mtu (dev iface) ->
  snd (reply iface tha0 tpa0 dst lg)
  = lg ++ [EvTransmit (dev iface) ETHER_TYPE_ARP
             (arp_wire ARP_OP_REPLY (take ETHER_ADDR_LEN (addr (dev iface)))
                (store32 host_le (unicast iface)) (take ETHER_ADDR_LEN tha0)
                (store32 host_le tpa0))
             sizeof_arp_ether_ip (Some dst)].
Proof.
  intros Hup Hmtu. subst reply. unfold arp_reply, Net.net_device_output.
  rewrite Hup. cbn [negb].
  destruct (Z.gtb_spec sizeof_arp_ether_ip (mtu (dev iface))); [lia|].
  destruct (store16_hton16_const host_le) as (Ehrd & Epro & Eop).
  unfold bytes_of_msg. cbn [hdr hrd pro hln pln op sha spa tha tpa].
  rewrite Ehrd, Epro, Eop.
  destruct (_ =? -1); reflexivity.
Qed.

Lemma resolve_inserted (now : timeval) (p : ip_addr_t) (h : list byte)
    (cs : list arp_cache) (i : nat) (lg : list event)
    (ether_type family_ip : Z) (iface' : net_iface) (buf : list byte) :
  u32 p -> Forall (fun e => u32 (pa e)) cs -> (i < length cs)%nat ->
  Forall (fun e => ~ holds p e) cs -> length h = ETHER_ADDR_LEN ->
  type (dev iface') = ether_type -> family iface' = family_ip ->
  length buf = ETHER_ADDR_LEN ->
  arp_resolve host_le ether_type family_ip iface' p buf
    {| caches := <[i := resolved_entry p h now]> cs; log := lg |}
  = (ARP_RESOLVE_FOUND, h,
     locked {| caches := <[i := resolved_entry p h now]> cs; log := lg |}).
Proof.
  intros Hp Hwf Hlt Hno Hh Hty Hfam Hbuf.
  unfold arp_resolve. rewrite Hty, Hfam, !Z.eqb_refl. cbn [negb caches].
  rewrite (select_after_insert host_le now p h cs i Hp Hwf Hlt Hno).
  cbn [ha resolved_entry]. rewrite take_ge by lia. rewrite drop_ge by lia.
  rewrite app_nil_r. reflexivity.
Qed.

End Input.

Lemma ex_full_table_ok : table_ok ex_full.
Proof.
  split; [reflexivity|]. apply Forall_lookup. intros k e Hk.
  pose proof (ex_full_lookup k e Hk) as (Hlt & Hpa & _).
  split; [unfold u32; lia|].
  unfold ex_full in Hk.
  rewrite !list_lookup_fmap, lookup_seq_lt in Hk by exact Hlt.
  injection Hk as <-. reflexivity.
Qed.

Lemma ex_empty_no_holder (p : ip_addr_t) :
  Forall (fun e => ~ holds p e) (caches ex_arp_empty).
Proof.
  apply Forall_forall. intros e He [Hnf _].
  apply list_elem_of_In, repeat_spec in He. subst e. apply Hnf. reflexivity.
Qed.

Lemma ex_empty_wf : wf_caches (caches ex_arp_empty).
Proof.
  split; [reflexivity|]. apply Forall_forall. intros e He.
  apply list_elem_of_In, repeat_spec in He. subst e. unfold u32. cbn. lia.
Qed.

Lemma arp_input_keeps_table_witness :
  table_ok (caches ex_arp_full) /\ unique_holders (caches ex_arp_full) /\
  buffer_ok ex_request 28 /\
  exists st',
    arp_input true 1 1 0x0806 ex_get_iface ex_now ex_request 28 ex_dev
      ex_arp_full = Ret st' /\
    table_ok (caches st') /\ unique_holders (caches st').
Proof.
  assert (Hbuf : buffer_ok ex_request 28)
    by (unfold buffer_ok; vm_compute; discriminate).
  split; [exact ex_full_table_ok|]. split; [exact ex_full_unique|].
  split; [exact Hbuf|].
  exact (arp_input_keeps_table true 1 1 0x0806 ex_get_iface ex_now ex_request
           28 ex_dev ex_arp_full ex_full_table_ok ex_full_unique Hbuf).
Defined.

Lemma arp_input_drops_malformed_witness :
  256 * byte_to_Z x00 + byte_to_Z x06 <> 1 /\
  arp_input true 1 1 0x0806 ex_get_iface ex_now ex_bad_frame 28 ex_dev
    ex_arp_full = Ret ex_arp_full.
Proof.
  assert (Hbad : 256 * byte_to_Z x00 + byte_to_Z x06 <> 1)
    by (vm_compute; discriminate).
  split; [exact Hbad|].
  apply (arp_input_drops_malformed true 1 1 0x0806 ex_get_iface ex_now
           x00 x06 x08 x00 x06 x04 (x00 :: x01 :: repeat x00 20) 28 ex_dev
           ex_arp_full).
  right. left. exact Hbad.
Defined.

Lemma arp_input_transmits_at_most_once_witness :
  length (caches ex_arp_full) = ARP_CACHE_SIZE /\
  exists st' locks tx,
    arp_input true 1 1 0x0806 ex_get_iface ex_now ex_request 28 ex_dev
      ex_arp_full = Ret st' /\
    log st' = log ex_arp_full ++ locks ++ tx /\ (length tx <= 1)%nat.
Proof.
  split; [reflexivity|].
  destruct (arp_input_transmits_at_most_once true 1 1 0x0806 ex_get_iface
              ex_now ex_request 28 ex_dev ex_arp_full eq_refl)
    as (st' & locks & tx & Hrun & Hlog & _ & Htx).
  exists st', locks, tx. split; [exact Hrun|]. split; [exact Hlog|].
  destruct Htx as [->|(iface & frame & -> & _)]; cbn; lia.
Defined.

Lemma arp_input_not_for_us_witness :
  length (caches ex_arp_empty) = ARP_CACHE_SIZE /\
  exists st' locks,
    arp_input true 1 1 0x0806 ex_no_iface ex_now ex_request 28 ex_dev
      ex_arp_empty = Ret st' /\
    log st' = log ex_arp_empty ++ locks /\ Forall is_lock_event locks.
Proof.
  split; [reflexivity|].
  destruct (arp_input_not_for_us true 1 1 0x0806 ex_no_iface ex_now
              ex_request 28 ex_dev ex_arp_empty eq_refl)
    as (st' & locks & Hrun & Hlog & Hlocks & _).
  - intros iface [Hsome _]. discriminate Hsome.
  - exists st', locks. repeat split; assumption.
Defined.

Lemma learn_then_resolve_witness :
  wf_caches (caches ex_arp_empty) /\
  Forall (fun e => ~ holds ex_ip1 e) (caches ex_arp_empty) /\
  exists st',
    arp_input true 1 1 0x0806 ex_get_iface ex_now ex_request 28 ex_dev
      ex_arp_empty = Ret st' /\
    arp_resolve true 2 1 ex_iface ex_ip1 [x00; x00; x00; x00; x00; x00] st'
    = (ARP_RESOLVE_FOUND, ex_ha, locked st').
Proof.
  split; [exact ex_empty_wf|]. split; [exact (ex_empty_no_holder ex_ip1)|].
  destruct (learn_then_resolve true 1 1 0x0806 ex_get_iface ex_now
              ARP_OP_REQUEST ex_ha [x0a; x00; x00; x01]
              [x00; x00; x00; x00; x00; x00] [x0a; x00; x00; x02]
              ex_dev ex_iface ex_arp_empty eq_refl eq_refl eq_refl eq_refl
              ex_empty_wf eq_refl eq_refl (ex_empty_no_holder ex_ip1))
    as (st' & Hrun & Hres).
  exists st'. split; [exact Hrun|].
  apply (Hres 2 1 ex_iface); reflexivity.
Defined.

Lemma known_sender_keeps_address_witness :
  accepted true ex_known_request 28 = true /\
  first_slot (holds 105) ex_full 5 /\
  exists st',
    arp_input true 1 1 0x0806 ex_get_iface ex_now ex_known_request 28 ex_dev
      ex_arp_full = Ret st' /\
    arp_resolve true 2 1 ex_iface 105 [x00; x00; x00; x00; x00; x00] st'
    = (ARP_RESOLVE_FOUND, [x02; x00; x00; x00; x00; x01], locked st').
Proof.
  split; [reflexivity|].
  split; [exact (ex_full_first_holder 5 ltac:(lia))|].
  destruct (known_sender_keeps_address true 1 1 0x0806 ex_get_iface ex_now
              ex_known_request 28 ex_dev ex_arp_full 5%nat (ex_entry 15 105)
              eq_refl ex_full_wf (ex_full_first_holder 5 ltac:(lia))
              eq_refl eq_refl)
    as (st' & Hrun & _ & Hres).
  exists st'. split; [exact Hrun|].
  apply (Hres 2 1 ex_iface); reflexivity.
Defined.

(** A request and its reply between two hosts, whatever their byte
    orders.  When host B's interface owns the requested address, its
    device is up and its MTU is at least 28, B's [arp_input] of A's
    REQUEST transmits one REPLY to A's hardware address.  A's [arp_input]
    of that REPLY transmits nothing.  Afterwards A's [arp_resolve] of B's
    protocol address returns B's hardware address when A's table held no
    entry for that address; when it held one, the entry is only refreshed
    and [arp_resolve] returns the hardware address it held before. *)
Theorem request_reply_exchange (le_a le_b : bool)
    (NET_DEVICE_FLAG_UP NET_IFACE_FAMILY_IP ETHER_TYPE_ARP : Z)
    (get_iface_a get_iface_b : net_device -> Z -> option net_iface)
    (now_a now_b : timeval) (d_a d_b : net_device)
    (iface_a iface_b : net_iface) (hw_a ip_a ip_b tha0 : list byte)
    (st_a st_b : arp_state) :
  length hw_a = ETHER_ADDR_LEN -> length ip_a = IP_ADDR_LEN ->
  length ip_b = IP_ADDR_LEN -> length tha0 = ETHER_ADDR_LEN ->
  (ETHER_ADDR_LEN <= length (addr (dev iface_b)))%nat ->
  get_iface_a d_a NET_IFACE_FAMILY_IP = Some iface_a ->
  load32 le_a ip_a = unicast iface_a ->
  get_iface_b d_b NET_IFACE_FAMILY_IP = Some iface_b ->
  load32 le_b ip_b = unicast iface_b ->
  Net.NET_DEVICE_IS_UP NET_DEVICE_FLAG_UP (dev iface_b) = true ->
  sizeof_arp_ether_ip <= mtu (dev iface_b) ->
  length (caches st_b) = ARP_CACHE_SIZE -> wf_caches (caches st_a) ->
  let hw_b := take ETHER_ADDR_LEN (addr (dev iface_b)) in
  let request := arp_wire ARP_OP_REQUEST hw_a ip_a tha0 ip_b in
  let answer := arp_wire ARP_OP_REPLY hw_b ip_b hw_a ip_a in
  exists st_b' st_a' locks_b locks_a,
    arp_input le_b NET_DEVICE_FLAG_UP NET_IFACE_FAMILY_IP ETHER_TYPE_ARP
      get_iface_b now_b request sizeof_arp_ether_ip d_b st_b = Ret st_b' /\
    log st_b' = log st_b ++ locks_b
                ++ [EvTransmit (dev iface_b) ETHER_TYPE_ARP answer
                      sizeof_arp_ether_ip (Some hw_a)] /\
    Forall is_lock_event locks_b /\
    arp_input le_a NET_DEVICE_FLAG_UP NET_IFACE_FAMILY_IP ETHER_TYPE_ARP
      get_iface_a now_a answer sizeof_arp_ether_ip d_a st_a = Ret st_a' /\
    log st_a' = log st_a ++ locks_a /\ Forall is_lock_event locks_a /\
    (Forall (fun e => ~ holds (load32 le_a ip_b) e) (caches st_a) ->
     forall ether_type family_ip iface' buf,
       type (dev iface') = ether_type -> family iface' = family_ip ->
       length buf = ETHER_ADDR_LEN ->
       arp_resolve le_a ether_type family_ip iface' (load32 le_a ip_b) buf
         st_a'
       = (ARP_RESOLVE_FOUND, hw_b, locked st_a')) /\
    (forall i e,
       first_slot (holds (load32 le_a ip_b)) (caches st_a) i ->
       caches st_a !! i = Some e -> length (ha e) = ETHER_ADDR_LEN ->
       forall ether_type family_ip iface' buf,
         type (dev iface') = ether_type -> family iface' = family_ip ->
         length buf = ETHER_ADDR_LEN ->
         arp_resolve le_a ether_type family_ip iface' (load32 le_a ip_b) buf
           st_a'
         = (ARP_RESOLVE_FOUND, ha e, locked st_a')).
Proof.
  intros Hhw_a Hip_a Hip_b Htha Haddr Hif_a Hto_a Hif_b Hto_b Hup Hmtu
         Hlen_b Hwf_a hw_b request answer.
  pose proof Hwf_a as [Hlen_a Hu32_a].
  assert (Hhw_b : length hw_b = ETHER_ADDR_LEN).
  { subst hw_b. rewrite length_take. lia. }
  (* host B answers the request *)
  destruct (wire_fields le_b ARP_OP_REQUEST hw_a ip_a tha0 ip_b
              Hhw_a Hip_a Htha Hip_b) as (Bsha & Bspa & Btpa & Bacc).
  pose proof (wire_op le_b ARP_OP_REQUEST hw_a ip_a tha0 ip_b
                Hhw_a Hip_a Htha Hip_b) as Bop.
  change (256 * byte_to_Z (Z_to_byte (ARP_OP_REQUEST / 256))
          + byte_to_Z (Z_to_byte ARP_OP_REQUEST)) with ARP_OP_REQUEST in Bop.
  assert (HB : exists st_b' locks_b,
    arp_input le_b NET_DEVICE_FLAG_UP NET_IFACE_FAMILY_IP ETHER_TYPE_ARP
      get_iface_b now_b request sizeof_arp_ether_ip d_b st_b = Ret st_b' /\
    log st_b' = log st_b ++ locks_b
                ++ [EvTransmit (dev iface_b) ETHER_TYPE_ARP answer
                      sizeof_arp_ether_ip (Some hw_a)] /\
    Forall is_lock_event locks_b).
  { destruct (arp_input_cases le_b NET_DEVICE_FLAG_UP NET_IFACE_FAMILY_IP
                ETHER_TYPE_ARP get_iface_b now_b request sizeof_arp_ether_ip
                d_b st_b Hlen_b)
      as [[Hrej _]|[(_ & Hnot & _)
                   |(_ & iface0 & cs2 & lg2 & Hus & Hcs2 & Hrun)]].
    - fold request in Bacc. rewrite Bacc in Hrej. discriminate.
    - exfalso. apply (Hnot iface_b). split; [exact Hif_b|].
      fold request in Btpa. rewrite Btpa. symmetry. exact Hto_b.
    - destruct Hus as [Hget _]. rewrite Hif_b in Hget. injection Hget as <-.
      fold request in Bsha, Bspa, Bop.
      assert (Hlg2 : exists locks, lg2 = log st_b ++ locks /\
                                   Forall is_lock_event locks).
      { destruct Hcs2 as [(_ & _ & ->)|(_ & _ & _ & ->)]; eexists;
          (split; [reflexivity | lock_events]). }
      destruct Hlg2 as (locks & -> & Hlocks).
      destruct Hrun as [[_ Hrun]|[Hop _]]; [|contradiction].
      eexists _, locks. split; [exact Hrun|]. cbn [log].
      split; [|exact Hlocks].
      rewrite Bsha, Bspa, (reply_sent le_b _ _ _ _ _ _ _ Hup Hmtu).
      rewrite <- Hto_b, !store32_load32 by assumption.
      rewrite (take_ge hw_a) by lia. rewrite <- app_assoc. reflexivity. }
  destruct HB as (st_b' & locks_b & HrunB & HlogB & HlocksB).
  (* host A learns from the reply, or refreshes what it knew *)
  destruct (wire_fields le_a ARP_OP_REPLY hw_b ip_b hw_a ip_a
              Hhw_b Hip_b Hhw_a Hip_a) as (Asha & Aspa & Atpa & Aacc).
  pose proof (wire_op le_a ARP_OP_REPLY hw_b ip_b hw_a ip_a
                Hhw_b Hip_b Hhw_a Hip_a) as Aop.
  change (256 * byte_to_Z (Z_to_byte (ARP_OP_REPLY / 256))
          + byte_to_Z (Z_to_byte ARP_OP_REPLY)) with ARP_OP_REPLY in Aop.
  fold answer in Asha, Aspa, Atpa, Aacc, Aop.
  assert (Hp : u32 (load32 le_a ip_b)) by apply load32_range.
  pose proof (update_none_no_holder le_a now_a (load32 le_a ip_b) hw_b
                (caches st_a) Hp Hu32_a) as Hnone_iff.
  destruct (arp_input_cases le_a NET_DEVICE_FLAG_UP NET_IFACE_FAMILY_IP
              ETHER_TYPE_ARP get_iface_a now_a answer sizeof_arp_ether_ip
              d_a st_a Hlen_a)
    as [[Hrej _]|[(_ & Hnot & _)|(_ & iface0 & cs2 & lg2 & _ & Hcs2 & Hrun)]].
  - rewrite Aacc in Hrej. discriminate.
  - exfalso. apply (Hnot iface_a). split; [exact Hif_a|].
    rewrite Atpa. symmetry. exact Hto_a.
  - rewrite Asha, Aspa in Hcs2.
    destruct Hrun as [[Hop _]|[_ Hrun]].
    { rewrite Aop in Hop. discriminate Hop. }
    assert (Hlg2 : exists locks, lg2 = log st_a ++ locks /\
                                 Forall is_lock_event locks).
    { destruct Hcs2 as [(_ & _ & ->)|(_ & _ & _ & ->)]; eexists;
        (split; [reflexivity | lock_events]). }
    destruct Hlg2 as (locks_a & Hlg2 & Hlocks_a).
    exists st_b', {| caches := cs2; log := lg2 |}, locks_b, locks_a.
    split; [exact HrunB|]. split; [exact HlogB|]. split; [exact HlocksB|].
    split; [exact Hrun|]. cbn [log]. split; [exact Hlg2|].
    split; [exact Hlocks_a|]. split.
    + intros Hno ether_type family_ip iface' buf Hty Hfam Hbuf.
      destruct Hcs2 as [(Hsome & _)|(_ & _ & [i Hins] & _)].
      { exfalso. apply Hsome. apply Hnone_iff. exact Hno. }
      destruct (insert_shape _ _ _ _ _ _ Hlen_a Hins) as [Hi ->].
      rewrite take_ge by lia.
      apply resolve_inserted; try assumption. rewrite Hlen_a. exact Hi.
    + intros i e Hfirst Hi Hha ether_type family_ip iface' buf Hty Hfam Hbuf.
      destruct (update_found le_a now_a (load32 le_a ip_b) hw_b (caches st_a)
                  i e Hp Hu32_a Hfirst Hi) as [Hupd Hsel].
      rewrite Hupd in Hcs2. cbn [fst snd] in Hcs2.
      destruct Hcs2 as [(_ & -> & _)|(Hnone & _)]; [|discriminate].
      unfold arp_resolve. rewrite Hty, Hfam, !Z.eqb_refl. cbn [negb caches].
      rewrite Hsel. cbn [ha resolved_entry].
      rewrite take_ge by lia. rewrite drop_ge by lia.
      rewrite app_nil_r. reflexivity.
Qed.

Lemma request_reply_exchange_witness :
  wf_caches (caches ex_arp_empty) /\ wf_caches (caches ex_arp_full) /\
  (exists st_b' st_a' locks_b,
     arp_input true 1 1 0x0806 ex_get_iface ex_now ex_request 28 ex_dev
       ex_arp_empty = Ret st_b' /\
     log st_b'
     = locks_b ++ [EvTransmit ex_dev 0x0806 ex_reply 28 (Some ex_ha)] /\
     arp_input false 1 1 0x0806 ex_get_iface_a ex_now ex_reply 28 ex_dev
       ex_arp_empty = Ret st_a' /\
     arp_resolve false 2 1 ex_iface (load32 false [x0a; x00; x00; x02])
       [x00; x00; x00; x00; x00; x00] st_a'
     = (ARP_RESOLVE_FOUND, [x02; x00; x00; x00; x00; x02], locked st_a')) /\
  (exists st_a',
     arp_input true 1 1 0x0806 ex_get_iface_105 ex_now ex_stale_reply 28 ex_dev
       ex_arp_full = Ret st_a' /\
     arp_resolve true 2 1 ex_iface 107 [x00; x00; x00; x00; x00; x00] st_a'
     = (ARP_RESOLVE_FOUND, [x02; x00; x00; x00; x00; x01], locked st_a')).
Proof.
  split; [exact ex_empty_wf|]. split; [exact ex_full_wf|]. split.
  - destruct (request_reply_exchange false true 1 1 0x0806 ex_get_iface_a
                ex_get_iface ex_now ex_now ex_dev ex_dev ex_iface_a ex_iface
                ex_ha [x0a; x00; x00; x01] [x0a; x00; x00; x02]
                [x00; x00; x00; x00; x00; x00] ex_arp_empty ex_arp_empty
                eq_refl eq_refl eq_refl eq_refl)
      as (st_b' & st_a' & locks_b & locks_a & HrunB & HlogB & _ & HrunA & _ & _
          & Hres & _).
    + unfold ETHER_ADDR_LEN. cbn. lia.
    + reflexivity.
    + reflexivity.
    + reflexivity.
    + reflexivity.
    + reflexivity.
    + vm_compute. discriminate.
    + reflexivity.
    + exact ex_empty_wf.
    + exists st_b', st_a', locks_b. split; [exact HrunB|].
      split; [exact HlogB|]. split; [exact HrunA|].
      apply (Hres (ex_empty_no_holder _) 2 1 ex_iface); reflexivity.
  - destruct (request_reply_exchange true true 1 1 0x0806 ex_get_iface_105
                ex_get_iface_107 ex_now ex_now ex_dev ex_dev ex_iface_105
                ex_iface_107 ex_ha [x69; x00; x00; x00] [x6b; x00; x00; x00]
                [x00; x00; x00; x00; x00; x00] ex_arp_full ex_arp_empty
                eq_refl eq_refl eq_refl eq_refl)
      as (st_b' & st_a' & locks_b & locks_a & _ & _ & _ & HrunA & _ & _
          & _ & Hres).
    + unfold ETHER_ADDR_LEN. cbn. lia.
    + reflexivity.
    + reflexivity.
    + reflexivity.
    + reflexivity.
    + reflexivity.
    + vm_compute. discriminate.
    + reflexivity.
    + exact ex_full_wf.
    + exists st_a'. split; [exact HrunA|].
      apply (Hres 7%nat (ex_entry 5 107) (ex_full_first_holder 7 ltac:(lia)) eq_refl eq_refl
               2 1 ex_iface); reflexivity.
Defined.

End ArpHandlerMore.

(** ** NULL-terminated lists *)

Module ChainFacts.
Import Props.

Section Chain.
Context {A : Type} (next : A -> option nat).

Lemma chain_det (hp : list A) (start : option nat) (ps ps' : list nat) :
  chain next hp start ps -> chain next hp start ps' -> ps = ps'.
Proof.
  intros H. revert ps'. induction H as [|p node ps Hp Hrest IH]; intros ps' H'.
  - inversion H'. reflexivity.
  - inversion H' as [|p' node' ps0 Hp' Hrest' E1 E2]. subst.
    rewrite Hp in Hp'. injection Hp' as <-. f_equal. apply IH. exact Hrest'.
Qed.

Lemma chain_from_member (hp : list A) (start : option nat) (ps : list nat)
    (p : nat) :
  chain next hp start ps -> p ∈ ps ->
  exists l1 l2, ps = l1 ++ p :: l2 /\ chain next hp (Some p) (p :: l2).
Proof.
  intros H. induction H as [|p0 node ps Hp0 Hrest IH]; intros Hin.
  - apply elem_of_nil in Hin. contradiction.
  - apply elem_of_cons in Hin as [->|Hin].
    + exists [], ps. split; [reflexivity|]. econstructor; eassumption.
    + destruct (IH Hin) as (l1 & l2 & -> & Hsub).
      exists (p0 :: l1), l2. split; [reflexivity | exact Hsub].
Qed.

(** A walk that reaches NULL visits no node twice. *)
Lemma chain_NoDup (hp : list A) (start : option nat) (ps : list nat) :
  chain next hp start ps -> NoDup ps.
Proof.
  intros H. induction H as [|p node ps Hp Hrest IH]; [constructor|].
  constructor; [|exact IH]. intros Hin.
  destruct (chain_from_member hp _ ps p Hrest Hin) as (l1 & l2 & Hps & Hsub).
  assert (Hfull : chain next hp (Some p) (p :: ps))
    by (econstructor; eassumption).
  pose proof (chain_det _ _ _ _ Hfull Hsub) as Heq.
  injection Heq as Heq. rewrite Hps in Heq.
  apply (f_equal length) in Heq. rewrite length_app in Heq. cbn in Heq. lia.
Qed.

Lemma chain_lookup (hp : list A) (start : option nat) (ps : list nat)
    (p : nat) :
  chain next hp start ps -> p ∈ ps -> is_Some (hp !! p).
Proof.
  intros H Hin.
  destruct (chain_from_member hp _ ps p H Hin) as (_ & l2 & _ & Hsub).
  inversion Hsub. eexists. eassumption.
Qed.

(** Overwriting a node off the walk, or one on it with the same [next],
    leaves the walk as it is. *)
Lemma chain_insert (hp : list A) (start : option nat) (ps : list nat)
    (p : nat) (old new : A) :
  chain next hp start ps -> hp !! p = Some old -> next new = next old ->
  chain next (<[p := new]> hp) start ps.
Proof.
  intros H Hold Hnext. induction H as [|q node ps Hq Hrest IH]; [constructor|].
  destruct (decide (q = p)) as [->|Hne].
  - rewrite Hq in Hold. injection Hold as <-.
    apply (chain_cons next _ p new).
    + apply list_lookup_insert_eq. eapply lookup_lt_Some; exact Hq.
    + rewrite Hnext. exact IH.
  - apply (chain_cons next _ q node).
    + rewrite list_lookup_insert_ne by congruence. exact Hq.
    + exact IH.
Qed.

End Chain.

End ChainFacts.

(** ** More on the protocol registry and the dispatcher *)

Module NetMore.
Import Net Spec Props ChainFacts NetClaims Examples MoreExamples.

Lemma input_scan_null (fuel : nat) (hp : list net_protocol) (ty : Z) :
  input_scan fuel hp None ty = Ret None.
Proof. destruct fuel; reflexivity. Qed.

Lemma register_scan_null (fuel : nat) (hp : list net_protocol) (ty : Z) :
  register_scan fuel hp None ty = Ret false.
Proof. destruct fuel; reflexivity. Qed.

Lemma input_scan_chain (hp : list net_protocol) (start : option nat)
    (ps : list nat) (ty : Z) :
  chain p_next hp start ps ->
  forall fuel, (length ps <= fuel)%nat ->
    ((forall p node, p ∈ ps -> hp !! p = Some node -> p_type node <> ty) ->
     input_scan fuel hp start ty = Ret None)
    /\ ((exists p node, p ∈ ps /\ hp !! p = Some node /\ p_type node = ty) ->
        exists q, input_scan fuel hp start ty = Ret (Some q)).
Proof.
  intros H. induction H as [|p node ps Hp Hrest IH]; intros fuel Hfuel.
  - split; [intros _; apply input_scan_null|].
    intros (p & node & Hin & _). apply elem_of_nil in Hin. contradiction.
  - destruct fuel as [|fuel]; [cbn in Hfuel; lia|].
    cbn [length] in Hfuel. destruct (IH fuel ltac:(lia)) as [IHnone IHsome].
    cbn [input_scan]. rewrite Hp.
    destruct (Z.eqb_spec (p_type node) ty) as [Heq|Hne].
    + split; [|intros _; eexists; reflexivity].
      intros Hnone. exfalso.
      apply (Hnone p node); [apply elem_of_cons; left; reflexivity|exact Hp|exact Heq].
    + split.
      * intros Hnone. apply IHnone. intros q nq Hin.
        apply Hnone. apply elem_of_cons. right. exact Hin.
      * intros (q & nq & Hin & Hq & Hty). apply IHsome.
        apply elem_of_cons in Hin as [->|Hin].
        { rewrite Hp in Hq. injection Hq as <-. contradiction. }
        exists q, nq. repeat split; assumption.
Qed.

(** On a NULL-terminated protocol list [net_input_handler] returns: 0 with
    the state untouched when no listed protocol has the type; -1 with the
    state untouched when one has but memory_alloc fails; otherwise 0,
    after appending one entry (the device, the length and the first [len]
    bytes) to the tail of the queue of the node [protocols] points to and
    raising the software interrupt once.  Nothing else changes. *)
Theorem net_input_handler_on_list (fuel : nat) (alloc_ok : bool) (ty : Z)
    (data : list byte) (len : Z) (d : net_device) (s : net_state)
    (ps : list nat) :
  chain p_next (heap s) (protocols s) ps -> (length ps <= fuel)%nat ->
  let listed :=
    exists p node, p ∈ ps /\ heap s !! p = Some node /\ p_type node = ty in
  (~ listed -> net_input_handler fuel alloc_ok ty data len d s = (Ret 0, s))
  /\ (listed -> alloc_ok = false ->
      net_input_handler fuel alloc_ok ty data len d s = (Ret (-1), s))
  /\ (listed -> alloc_ok = true ->
      exists hd node,
        protocols s = Some hd /\ heap s !! hd = Some node /\
        net_input_handler fuel alloc_ok ty data len d s
        = (Ret 0,
           {| heap := <[hd := set_queue
                                (p_queue node ++ [entry_of (data, len, d)])
                                node]> (heap s);
              protocols := protocols s;
              log := log s ++ [EvRaiseIrq] |})).
Proof.
  intros Hchain Hfuel listed.
  destruct (input_scan_chain _ _ _ ty Hchain fuel Hfuel) as [Hnone Hsome].
  unfold net_input_handler. split; [|split].
  - intros Hnot. rewrite Hnone; [reflexivity|].
    intros p node Hin Hp Hty. apply Hnot. exists p, node.
    repeat split; assumption.
  - intros Hl ->. destruct (Hsome Hl) as [q ->]. reflexivity.
  - intros Hl ->. destruct (Hsome Hl) as [q ->]. cbn [negb].
    inversion Hchain as [Hstart|hd node ps' Hhd Hrest Hstart Hps].
    + destruct Hl as (p & _ & Hin & _). subst ps.
      apply elem_of_nil in Hin. contradiction.
    + exists hd, node. split; [reflexivity|]. split; [exact Hhd|].
      rewrite Hhd. reflexivity.
Qed.

Lemma ex_net_two_chain :
  chain p_next (heap ex_net_two) (protocols ex_net_two) [1%nat; 0%nat].
Proof.
  eapply chain_cons; [reflexivity|].
  eapply chain_cons; [reflexivity|]. apply chain_nil.
Qed.

Lemma net_input_handler_on_list_witness :
  chain p_next (heap ex_net_two) (protocols ex_net_two) [1%nat; 0%nat] /\
  net_input_handler 2 true 0x86dd ex_frame 3 ex_dev ex_net_two
  = (Ret 0, ex_net_two).
Proof.
  split; [exact ex_net_two_chain|].
  apply (net_input_handler_on_list 2 true 0x86dd ex_frame 3 ex_dev ex_net_two
           [1%nat; 0%nat] ex_net_two_chain (le_n 2)).
  intros (p & node & Hin & Hp & Hty).
  apply elem_of_cons in Hin as [->|Hin].
  - injection Hp as <-. discriminate Hty.
  - apply elem_of_cons in Hin as [->|Hin].
    + injection Hp as <-. discriminate Hty.
    + apply elem_of_nil in Hin. contradiction.
Defined.

Lemma softirq_loop_chain (ps : list nat) :
  forall (hp : list net_protocol) (start : option nat) (fuel : nat)
         (lg : list event),
    chain p_next hp start ps -> (length ps <= fuel)%nat ->
    exists hp',
      softirq_loop fuel start hp lg
      = (Ret 0, (hp', lg ++ concat (map (deliveries hp) ps))) /\
      length hp' = length hp /\
      (forall p, p ∈ ps ->
         exists node, hp !! p = Some node /\
                      hp' !! p = Some (set_queue [] node)) /\
      (forall p, p ∉ ps -> hp' !! p = hp !! p).
Proof.
  induction ps as [|p ps IH]; intros hp start fuel lg Hchain Hfuel.
  - inversion Hchain. exists hp. rewrite softirq_loop_null.
    cbn. rewrite app_nil_r. split; [reflexivity|]. split; [reflexivity|].
    split; [|reflexivity]. intros p Hin. apply elem_of_nil in Hin.
    contradiction.
  - pose proof (chain_NoDup _ _ _ _ Hchain) as Hnd.
    apply NoDup_cons in Hnd as [Hnotin _].
    inversion Hchain as [|p0 node ps0 Hp Hrest E1 E2]. subst.
    destruct fuel as [|fuel]; [cbn in Hfuel; lia|]. cbn [length] in Hfuel.
    pose proof (lookup_lt_Some _ _ _ Hp) as Hlt.
    assert (Hrest1 : chain p_next (<[p := set_queue [] node]> hp)
                       (p_next node) ps).
    { eapply chain_insert; [exact Hrest | exact Hp | reflexivity]. }
    destruct (IH _ _ fuel (lg ++ map (delivery (p_handler node)) (p_queue node))
                Hrest1 ltac:(lia))
      as (hp' & Hrun & Hlen & Hon & Hoff).
    exists hp'. cbn [softirq_loop]. rewrite Hp, softirq_drain_log, Hrun.
    assert (Hsame : concat (map (deliveries (<[p := set_queue [] node]> hp)) ps)
                    = concat (map (deliveries hp) ps)).
    { f_equal. apply map_ext_in. intros q Hq. unfold deliveries.
      rewrite list_lookup_insert_ne; [reflexivity|].
      intros ->. apply Hnotin. apply list_elem_of_In. exact Hq. }
    split.
    { rewrite Hsame. cbn [map concat]. unfold deliveries at 2. rewrite Hp.
      rewrite <- app_assoc. reflexivity. }
    split; [rewrite Hlen; apply length_insert|]. split.
    + intros q Hq. apply elem_of_cons in Hq as [->|Hq].
      * exists node. split; [exact Hp|].
        rewrite (Hoff p Hnotin). apply list_lookup_insert_eq. exact Hlt.
      * destruct (Hon q Hq) as (nq & Hq1 & Hq').
        rewrite list_lookup_insert_ne in Hq1
          by (intros ->; contradiction).
        exists nq. split; assumption.
    + intros q Hq. rewrite not_elem_of_cons in Hq. destruct Hq as [Hne Hq].
      rewrite (Hoff q Hq). apply list_lookup_insert_ne. congruence.
Qed.

(** On a NULL-terminated protocol list [net_softirq_handler] returns 0
    after calling, node by node in list order and entry by entry in queue
    order, the node's handler on each queued entry, exactly once; every
    listed queue is empty afterwards, and links, types, handlers and
    unlisted nodes are as before. *)
Theorem net_softirq_handler_on_list (fuel : nat) (s : net_state)
    (ps : list nat) :
  chain p_next (heap s) (protocols s) ps -> (length ps <= fuel)%nat ->
  exists s',
    net_softirq_handler fuel s = (Ret 0, s') /\
    log s' = log s ++ concat (map (deliveries (heap s)) ps) /\
    protocols s' = protocols s /\ length (heap s') = length (heap s) /\
    (forall p, p ∈ ps ->
       exists node, heap s !! p = Some node /\
                    heap s' !! p = Some (set_queue [] node)) /\
    (forall p, p ∉ ps -> heap s' !! p = heap s !! p).
Proof.
  intros Hchain Hfuel.
  destruct (softirq_loop_chain ps _ _ fuel (log s) Hchain Hfuel)
    as (hp' & Hrun & Hlen & Hon & Hoff).
  unfold net_softirq_handler. rewrite Hrun.
  eexists. split; [reflexivity|]. cbn [log protocols heap].
  repeat split; assumption.
Qed.

Lemma net_softirq_handler_on_list_witness :
  chain p_next (heap ex_net_backlog) (protocols ex_net_backlog)
    [1%nat; 0%nat] /\
  exists s',
    net_softirq_handler 2 ex_net_backlog = (Ret 0, s') /\
    log s' = [delivery 1 ex_entry1; delivery 1 ex_entry2;
              delivery 2 ex_entry3].
Proof.
  assert (Hchain : chain p_next (heap ex_net_backlog)
                     (protocols ex_net_backlog) [1%nat; 0%nat]).
  { eapply chain_cons; [reflexivity|].
    eapply chain_cons; [reflexivity|]. apply chain_nil. }
  split; [exact Hchain|].
  destruct (net_softirq_handler_on_list 2 ex_net_backlog [1%nat; 0%nat]
              Hchain (le_n 2)) as (s' & Hrun & Hlog & _).
  exists s'. split; [exact Hrun|]. rewrite Hlog. reflexivity.
Defined.

Lemma reaches_self_loop (hp : list net_protocol) (p q : nat)
    (node : net_protocol) :
  hp !! p = Some node -> p_next node = Some p ->
  reaches hp (Some p) q -> q = p.
Proof.
  intros Hp Hnext Hreach. remember (Some p) as start eqn:Hstart.
  induction Hreach as [p0|p0 node0 q Hp0 Hreach IH].
  - injection Hstart as ->. reflexivity.
  - injection Hstart as ->. rewrite Hp in Hp0. injection Hp0 as <-.
    apply IH; [exact Hnext | reflexivity].
Qed.

Lemma reachable_shape (s : net_state) :
  reachable s ->
  protocols s = None \/ exists ty h q, sole_protocol s ty h q.
Proof.
  intros Hreach.
  induction Hreach
    as [|fuel alloc_ok ty handler s r s' _ IH Hcall
        |fuel alloc_ok ty data len d s r s' _ IH Hcall
        |fuel s r s' _ IH Hcall].
  - left. reflexivity.
  - unfold net_protocol_register in Hcall.
    destruct IH as [Hnone|(ty0 & h0 & q & p & Hprot & Hp)].
    + rewrite Hnone, register_scan_null in Hcall.
      destruct alloc_ok; cbn [negb] in Hcall; injection Hcall as _ <-.
      * right. exists ty, handler, [], (length (heap s)).
        split; [reflexivity|]. cbn [heap].
        rewrite lookup_app_r by lia. rewrite Nat.sub_diag. reflexivity.
      * left. exact Hnone.
    + rewrite Hprot in Hcall. destruct (Z.eq_dec ty0 ty) as [->|Hne].
      * destruct fuel as [|fuel]; [discriminate Hcall|].
        cbn [register_scan] in Hcall. rewrite Hp in Hcall.
        cbn [p_type] in Hcall. rewrite Z.eqb_refl in Hcall.
        injection Hcall as _ <-. right. exists ty, h0, q, p.
        split; assumption.
      * rewrite (register_scan_self_loop fuel _ _ _ ty Hp eq_refl Hne)
          in Hcall.
        discriminate Hcall.
  - unfold net_input_handler in Hcall.
    destruct IH as [Hnone|(ty0 & h0 & q & p & Hprot & Hp)].
    + rewrite Hnone, input_scan_null in Hcall. injection Hcall as _ <-.
      left. exact Hnone.
    + rewrite Hprot in Hcall. destruct (Z.eq_dec ty0 ty) as [->|Hne].
      * destruct fuel as [|fuel]; [discriminate Hcall|].
        cbn [input_scan] in Hcall. rewrite Hp in Hcall.
        cbn [p_type] in Hcall. rewrite Z.eqb_refl in Hcall.
        destruct alloc_ok; cbn [negb] in Hcall.
        { injection Hcall as _ <-.
          right. eexists ty, h0, _, p. split; [reflexivity|]. cbn [heap].
          rewrite list_lookup_insert_eq by (eapply lookup_lt_Some; exact Hp).
          reflexivity. }
        { injection Hcall as _ <-. right. exists ty, h0, q, p.
          split; assumption. }
      * rewrite (input_scan_self_loop fuel _ _ _ ty Hp eq_refl Hne) in Hcall.
        discriminate Hcall.
  - unfold net_softirq_handler in Hcall.
    destruct IH as [Hnone|(ty0 & h0 & q & p & Hprot & Hp)].
    + rewrite Hnone, softirq_loop_null in Hcall. injection Hcall as _ <-.
      left. reflexivity.
    + rewrite Hprot in Hcall.
      pose proof (softirq_loop_self_loop fuel (heap s) (log s) p _ Hp eq_refl)
        as Hloop.
      destruct (softirq_loop fuel (Some p) (heap s) (log s)) as [r0 [hp lg]].
      cbn [fst] in Hloop. subst r0. discriminate Hcall.
Qed.

(** In every state the registry can reach through returning calls of
    [net_protocol_register], [net_input_handler] and
    [net_softirq_handler], the list is empty or holds a single protocol
    that is its own successor: at most one type is ever registered, and
    [net_softirq_handler] returns only while the list is empty. *)
Theorem reachable_registry (s : net_state) :
  reachable s ->
  (protocols s = None \/ exists ty h q, sole_protocol s ty h q)
  /\ (forall ty1 ty2, registered s ty1 -> registered s ty2 -> ty1 = ty2)
  /\ (forall fuel r s',
        net_softirq_handler fuel s = (Ret r, s') ->
        protocols s = None /\ r = 0).
Proof.
  intros Hreach. pose proof (reachable_shape s Hreach) as Hshape.
  split; [exact Hshape|]. split.
  - intros ty1 ty2 (p1 & n1 & Hr1 & Hp1 & <-) (p2 & n2 & Hr2 & Hp2 & <-).
    destruct Hshape as [Hnone|(ty & h & q & p & Hprot & Hp)].
    + rewrite Hnone in Hr1. inversion Hr1.
    + rewrite Hprot in Hr1, Hr2.
      apply (reaches_self_loop _ _ _ _ Hp eq_refl) in Hr1.
      apply (reaches_self_loop _ _ _ _ Hp eq_refl) in Hr2.
      subst p1 p2. congruence.
  - intros fuel r s' Hcall. unfold net_softirq_handler in Hcall.
    destruct Hshape as [Hnone|(ty & h & q & p & Hprot & Hp)].
    + rewrite Hnone, softirq_loop_null in Hcall. injection Hcall as <- _.
      split; [exact Hnone | reflexivity].
    + rewrite Hprot in Hcall.
      pose proof (softirq_loop_self_loop fuel (heap s) (log s) p _ Hp eq_refl)
        as Hloop.
      destruct (softirq_loop fuel (Some p) (heap s) (log s)) as [r0 [hp lg]].
      cbn [fst] in Hloop. subst r0. discriminate Hcall.
Qed.

Lemma reachable_registry_witness :
  reachable ex_net_ip /\
  forall ty, registered ex_net_ip ty -> ty = 0x0800.
Proof.
  assert (Hreach : reachable ex_net_ip).
  { apply (reachable_register 1 true 0x0800 1 net_init_state 0 ex_net_ip
             reachable_init). reflexivity. }
  split; [exact Hreach|].
  destruct (reachable_registry ex_net_ip Hreach) as (_ & Huniq & _).
  intros ty Hty. apply (Huniq ty 0x0800 Hty).
  eexists 0%nat, _. split; [apply reaches_here|]. split; reflexivity.
Defined.

(** In every state the registry can reach, frames input for a registered
    type are all accepted (memory being available) and queued behind what
    was already waiting, and the dispatch that follows calls the
    protocol's handler once per queued entry, oldest first (the dispatch
    call itself does not return: the list it walks is cyclic). *)
Theorem reachable_fifo (s : net_state) (ty : Z)
    (frames : list (list byte * Z * net_device)) :
  reachable s -> registered s ty ->
  exists h q,
    sole_protocol s ty h q /\
    forall fuel, (1 <= fuel)%nat ->
      exists s',
        input_all fuel ty frames s = (Ret 0, s') /\
        sole_protocol s' ty h (q ++ map entry_of frames) /\
        forall fuel', (1 <= fuel')%nat ->
          log (snd (net_softirq_handler fuel' s'))
          = log s' ++ map (delivery h) (q ++ map entry_of frames).
Proof.
  intros Hreach (p1 & n1 & Hr1 & Hp1 & Hty).
  destruct (reachable_shape s Hreach)
    as [Hnone|(ty0 & h & q & p & Hprot & Hp)].
  { rewrite Hnone in Hr1. inversion Hr1. }
  rewrite Hprot in Hr1.
  apply (reaches_self_loop _ _ _ _ Hp eq_refl) in Hr1. subst p1.
  rewrite Hp in Hp1. injection Hp1 as <-. cbn [p_type] in Hty. subst ty0.
  assert (Hsole : sole_protocol s ty h q) by (exists p; split; assumption).
  exists h, q. split; [exact Hsole|].
  intros fuel Hfuel. exact (sole_protocol_fifo ty h frames q s fuel Hsole Hfuel).
Qed.

Lemma reachable_fifo_witness :
  reachable ex_net_ip /\ registered ex_net_ip 0x0800 /\
  exists s',
    input_all 1 0x0800 [(ex_frame, 3, ex_dev); ([xca; xfe], 2, ex_dev)]
      ex_net_ip = (Ret 0, s') /\
    log (snd (net_softirq_handler 5 s'))
    = log s' ++ [EvHandler 1 ex_frame 3 ex_dev; EvHandler 1 [xca; xfe] 2 ex_dev].
Proof.
  assert (Hreach : reachable ex_net_ip).
  { apply (reachable_register 1 true 0x0800 1 net_init_state 0 ex_net_ip
             reachable_init). reflexivity. }
  assert (Hreg : registered ex_net_ip 0x0800).
  { eexists 0%nat, _. split; [apply reaches_here|]. split; reflexivity. }
  split; [exact Hreach|]. split; [exact Hreg|].
  destruct (reachable_fifo ex_net_ip 0x0800
              [(ex_frame, 3, ex_dev); ([xca; xfe], 2, ex_dev)] Hreach Hreg)
    as (h & q & (p & Hprot & Hp) & Hall).
  injection Hprot as <-. injection Hp as <- <-.
  destruct (Hall 1%nat ltac:(lia)) as (s' & Hin & _ & Hlog).
  exists s'. split; [exact Hin|]. apply (Hlog 5%nat). lia.
Defined.

Lemma sole_protocol_input_all (ty : Z) (h : nat)
    (frames : list (list byte * Z * net_device)) :
  forall (q : list net_protocol_queue_entry) (s : net_state) (fuel : nat),
    reachable s -> sole_protocol s ty h q -> (1 <= fuel)%nat ->
    exists s',
      input_all fuel ty frames s = (Ret 0, s') /\
      reachable s' /\
      sole_protocol s' ty h (q ++ map entry_of frames) /\
      log s' = log s ++ repeat EvRaiseIrq (length frames).
Proof.
  induction frames as [|f frames IH]; intros q s fuel Hreach Hsole Hfuel.
  - exists s. cbn [input_all map length repeat]. rewrite !app_nil_r.
    repeat split; assumption.
  - destruct (sole_protocol_input fuel ty h q f s Hsole Hfuel)
      as (s1 & Hin & Hsole1 & Hlog1).
    assert (Hreach1 : reachable s1)
      by exact (reachable_input _ _ _ _ _ _ _ _ _ Hreach Hin).
    destruct (IH _ s1 fuel Hreach1 Hsole1 Hfuel)
      as (s' & Hall & Hreach' & Hsole' & Hlog').
    exists s'. destruct f as [[data len] d]. cbn [input_all fst snd] in *.
    rewrite Hin. cbn [map length repeat].
    rewrite <- app_assoc in Hsole'.
    split; [exact Hall|]. split; [exact Hreach'|]. split; [exact Hsole'|].
    rewrite Hlog', Hlog1, <- app_assoc. reflexivity.
Qed.

(** C1: in every state the registry reaches through its entry points,
    frames passed to [net_input_handler] with a registered type T (memory
    being available) are each copied into a new entry that is appended to
    the queue of T's node, with one software interrupt raised per frame;
    the dispatch that follows calls T's handler once per queued entry,
    oldest first, with the first [len] bytes of the frame, the length and
    the arrival device, and makes no other call, however long it runs. *)
Theorem C1_registered_frames_fifo (s : net_state) (ty : Z)
    (frames : list (list byte * Z * net_device)) (fuel fuel' : nat) :
  reachable s -> registered s ty ->
  (1 <= fuel)%nat -> (1 <= fuel')%nat ->
  exists h q s',
    sole_protocol s ty h q /\
    input_all fuel ty frames s = (Ret 0, s') /\
    reachable s' /\
    registered s' ty /\
    sole_protocol s' ty h
      (q ++ map (fun f => {| entry_dev := snd f; entry_len := snd (fst f);
                             entry_data := take (Z.to_nat (snd (fst f)))
                                             (fst (fst f)) |}) frames) /\
    log s' = log s ++ repeat EvRaiseIrq (length frames) /\
    log (snd (net_softirq_handler fuel' s'))
    = log s' ++ map (delivery h) q
        ++ map (fun f => EvHandler h (take (Z.to_nat (snd (fst f)))
                                        (fst (fst f)))
                           (snd (fst f)) (snd f)) frames.
Proof.
  intros Hreach (p1 & n1 & Hr1 & Hp1 & Hty) Hfuel Hfuel'.
  destruct (reachable_shape s Hreach)
    as [Hnone|(ty0 & h & q & p & Hprot & Hp)].
  { rewrite Hnone in Hr1. inversion Hr1. }
  rewrite Hprot in Hr1.
  apply (reaches_self_loop _ _ _ _ Hp eq_refl) in Hr1. subst p1.
  rewrite Hp in Hp1. injection Hp1 as <-. cbn [p_type] in Hty. subst ty0.
  assert (Hsole : sole_protocol s ty h q) by (exists p; split; assumption).
  destruct (sole_protocol_input_all ty h frames q s fuel Hreach Hsole Hfuel)
    as (s' & Hall & Hreach' & Hsole' & Hlog').
  assert (Hentries :
    map entry_of frames
    = map (fun f => {| entry_dev := snd f; entry_len := snd (fst f);
                       entry_data := take (Z.to_nat (snd (fst f)))
                                       (fst (fst f)) |}) frames).
  { apply map_ext. intros [[data len] d]. reflexivity. }
  destruct (sole_protocol_fifo ty h [] _ s' 1 Hsole' (le_n 1))
    as (s'' & Hsame & _ & Hdispatch).
  cbn [input_all] in Hsame. injection Hsame as <-.
  cbn [map] in Hdispatch. rewrite app_nil_r in Hdispatch.
  exists h, q, s'. split; [exact Hsole|]. split; [exact Hall|].
  split; [exact Hreach'|]. split.
  - destruct Hsole' as (p' & Hprot' & Hp').
    eexists p', _. split; [rewrite Hprot'; apply reaches_here|].
    split; [exact Hp' | reflexivity].
  - split; [rewrite <- Hentries; exact Hsole'|]. split; [exact Hlog'|].
    rewrite (Hdispatch fuel' Hfuel'), map_app, map_map.
    f_equal. f_equal. apply map_ext. intros [[data len] d]. reflexivity.
Qed.

Lemma C1_witness :
  reachable ex_net_ip /\ registered ex_net_ip 0x0800 /\
  exists s',
    input_all 1 0x0800 [(ex_frame, 2, ex_dev); ([xca; xfe], 2, ex_dev)]
      ex_net_ip = (Ret 0, s') /\
    log s' = [EvRaiseIrq; EvRaiseIrq] /\
    log (snd (net_softirq_handler 7 s'))
    = log s' ++ [EvHandler 1 [xde; xad] 2 ex_dev;
                 EvHandler 1 [xca; xfe] 2 ex_dev].
Proof.
  assert (Hreach : reachable ex_net_ip).
  { apply (reachable_register 1 true 0x0800 1 net_init_state 0 ex_net_ip
             reachable_init). reflexivity. }
  assert (Hreg : registered ex_net_ip 0x0800).
  { eexists 0%nat, _. split; [apply reaches_here|]. split; reflexivity. }
  split; [exact Hreach|]. split; [exact Hreg|].
  destruct (C1_registered_frames_fifo ex_net_ip 0x0800
              [(ex_frame, 2, ex_dev); ([xca; xfe], 2, ex_dev)] 1 7
              Hreach Hreg (le_n 1) ltac:(lia))
    as (h & q & s' & (p & Hprot & Hp) & Hin & _ & _ & _ & Hlog & Hcalls).
  injection Hprot as <-. injection Hp as <- <-.
  exists s'. split; [exact Hin|]. split; [exact Hlog|]. exact Hcalls.
Defined.

Lemma register_returns (fuel : nat) (alloc_ok : bool) (ty : Z) (h : nat)
    (s s' : net_state) (r : Z) :
  net_protocol_register fuel alloc_ok ty h s = (Ret r, s') ->
  r = 0 \/ (r = -1 /\ s' = s).
Proof.
  unfold net_protocol_register.
  destruct (register_scan fuel (heap s) (protocols s) ty) as [[|]| |];
    try discriminate.
  - intros H. injection H as <- <-. right. split; reflexivity.
  - destruct alloc_ok; cbn [negb]; intros H; injection H as <- <-.
    + left. reflexivity.
    + right. split; reflexivity.
Qed.

(** [arp_init]: on an empty registry it returns -1 when memory_alloc
    fails and 0 otherwise, leaving ARP as the one listed protocol with
    arp_input as handler and an empty queue; once it has returned 0 a
    further call returns -1 and changes nothing; but after a successful
    registration of any other protocol type it does not return at all. *)
Theorem arp_init_outcomes (NET_PROTOCOL_TYPE_ARP : Z) (h : nat) :
  let init := Arp.arp_init NET_PROTOCOL_TYPE_ARP h in
  (forall fuel s, protocols s = None ->
     init fuel false s = (Ret (-1), s) /\
     exists s1, init fuel true s = (Ret 0, s1) /\
                sole_protocol s1 NET_PROTOCOL_TYPE_ARP h [])
  /\ (forall fuel0 alloc0 s0 s1,
        init fuel0 alloc0 s0 = (Ret 0, s1) ->
        forall fuel alloc_ok, (1 <= fuel)%nat ->
          init fuel alloc_ok s1 = (Ret (-1), s1))
  /\ (forall fuel0 alloc0 ty0 h0 s0 s1,
        net_protocol_register fuel0 alloc0 ty0 h0 s0 = (Ret 0, s1) ->
        ty0 <> NET_PROTOCOL_TYPE_ARP ->
        forall fuel alloc_ok, init fuel alloc_ok s1 = (OutOfFuel, s1)).
Proof.
  intros init. subst init. unfold Arp.arp_init. split; [|split].
  - intros fuel s Hnone. unfold net_protocol_register.
    rewrite Hnone, register_scan_null. cbn [negb]. split; [reflexivity|].
    eexists. split; [reflexivity|].
    exists (length (heap s)). split; [reflexivity|]. cbn [heap].
    rewrite lookup_app_r by lia. rewrite Nat.sub_diag. reflexivity.
  - intros fuel0 alloc0 s0 s1 Hinit fuel alloc_ok Hfuel.
    destruct (net_protocol_register fuel0 alloc0 NET_PROTOCOL_TYPE_ARP h s0)
      as [[r| |] s1'] eqn:Hreg; try discriminate Hinit.
    assert (Hr : r = 0 /\ s1' = s1).
    { destruct (Z.eqb_spec r (-1)); [discriminate Hinit|].
      injection Hinit as <-.
      destruct (register_returns _ _ _ _ _ _ _ Hreg) as [->|[-> _]];
        [split; reflexivity | contradiction]. }
    destruct Hr as [-> ->].
    destruct (register_ok_shape _ _ _ _ _ _ Hreg) as [Hs1 Hhead].
    assert (Hprot : protocols s1 = Some (length (heap s0)))
      by (rewrite Hs1; reflexivity).
    destruct fuel as [|fuel]; [lia|].
    unfold net_protocol_register. rewrite Hprot. cbn [register_scan].
    rewrite Hhead. cbn [p_type]. rewrite Z.eqb_refl. reflexivity.
  - intros fuel0 alloc0 ty0 h0 s0 s1 Hreg Hne fuel alloc_ok.
    destruct (after_register_no_return _ _ _ _ _ _ Hreg fuel) as [_ Hno].
    destruct (Hno NET_PROTOCOL_TYPE_ARP ltac:(congruence)) as [Hr _].
    rewrite Hr. reflexivity.
Qed.

Lemma arp_init_outcomes_witness :
  net_protocol_register 1 true 0x0800 1 net_init_state = (Ret 0, ex_net_ip) /\
  (exists s1, Arp.arp_init 0x0806 2 1 true net_init_state = (Ret 0, s1)) /\
  forall fuel, Arp.arp_init 0x0806 2 fuel true ex_net_ip
               = (OutOfFuel, ex_net_ip).
Proof.
  destruct (arp_init_outcomes 0x0806 2) as (Hempty & _ & Hafter).
  split; [reflexivity|]. split.
  - destruct (Hempty 1%nat net_init_state eq_refl) as [_ (s1 & Hs1 & _)].
    exists s1. exact Hs1.
  - intros fuel.
    apply (Hafter 1%nat true 0x0800 1%nat net_init_state ex_net_ip eq_refl).
    discriminate.
Defined.

End NetMore.

(** ** The device list *)

Module NetDevMore.
Import Net Spec Props ChainFacts Examples MoreExamples.

Lemma land_lor_same (f F : Z) : Z.land (Z.lor f F) F = F.
Proof.
  apply Z.bits_inj'. intros n Hn. rewrite Z.land_spec, Z.lor_spec.
  destruct (Z.testbit f n), (Z.testbit F n); reflexivity.
Qed.

Lemma land_lnot_same (f F : Z) : Z.land (Z.land f (Z.lnot F)) F = 0.
Proof.
  apply Z.bits_inj'. intros n Hn.
  rewrite !Z.land_spec, Z.lnot_spec, Z.bits_0 by exact Hn.
  destruct (Z.testbit f n), (Z.testbit F n); reflexivity.
Qed.

Lemma lor_lnot_restore (f F : Z) :
  Z.land f F = 0 -> Z.land (Z.lor f F) (Z.lnot F) = f.
Proof.
  intros Hdown. apply Z.bits_inj'. intros n Hn.
  rewrite Z.land_spec, Z.lor_spec, Z.lnot_spec by exact Hn.
  assert (Hbit : Z.testbit (Z.land f F) n = false)
    by (rewrite Hdown; apply Z.bits_0).
  rewrite Z.land_spec in Hbit.
  destruct (Z.testbit f n), (Z.testbit F n); try reflexivity; discriminate.
Qed.

Lemma set_node_same (a : nat) (st : dev_state) (node : net_device_node) :
  dev_heap st !! a = Some node -> set_node a node st = st.
Proof.
  intros Ha. destruct st as [hp ds ix lg]. unfold set_node. cbn in *.
  rewrite list_insert_id by exact Ha. reflexivity.
Qed.

Section Flag.
Variable NET_DEVICE_FLAG_UP : Z.
Hypothesis flag_nonzero : NET_DEVICE_FLAG_UP <> 0.

Lemma marked_up_is_up (n : net_device_node) :
  is_up NET_DEVICE_FLAG_UP (marked_up NET_DEVICE_FLAG_UP n).
Proof.
  unfold is_up, NET_DEVICE_IS_UP, marked_up. cbn [nd_dev set_dev flags set_flags].
  rewrite land_lor_same.
  destruct (Z.eqb_spec NET_DEVICE_FLAG_UP 0); [contradiction | reflexivity].
Qed.

Lemma marked_down_is_down (n : net_device_node) :
  NET_DEVICE_IS_UP NET_DEVICE_FLAG_UP (nd_dev (marked_down NET_DEVICE_FLAG_UP n))
  = false.
Proof.
  unfold NET_DEVICE_IS_UP, marked_down. cbn [nd_dev set_dev flags set_flags].
  rewrite land_lnot_same. reflexivity.
Qed.

Lemma open_effect (a : nat) (st : dev_state) (node : net_device_node) :
  dev_heap st !! a = Some node ->
  exists r node' lg,
    net_device_open NET_DEVICE_FLAG_UP a st
    = (Ret r, {| dev_heap := <[a := node']> (dev_heap st);
                 devices := devices st; dev_index := dev_index st;
                 dev_log := lg |}) /\
    opened_as NET_DEVICE_FLAG_UP node node' /\
    (r = 0 <-> node' = marked_up NET_DEVICE_FLAG_UP node /\
               ~ is_up NET_DEVICE_FLAG_UP node).
Proof.
  intros Ha. unfold net_device_open, opened_as, is_up, open_succeeds.
  rewrite Ha.
  assert (Hsame : forall lg,
    {| dev_heap := dev_heap st; devices := devices st;
       dev_index := dev_index st; dev_log := lg |}
    = {| dev_heap := <[a := node]> (dev_heap st); devices := devices st;
         dev_index := dev_index st; dev_log := lg |}).
  { intros lg. rewrite list_insert_id by exact Ha. reflexivity. }
  destruct (NET_DEVICE_IS_UP NET_DEVICE_FLAG_UP (nd_dev node)) eqn:Hup.
  - exists (-1), node, (dev_log st). split.
    + rewrite <- Hsame. destruct st; reflexivity.
    + split; [left; split; reflexivity|].
      split; [discriminate | intros [_ H]; contradiction].
  - destruct (nd_open node) as [open|].
    + destruct (Z.eqb_spec (open (nd_dev node)) (-1)) as [Hfail|Hok].
      * exists (-1), node, (dev_log st ++ [EvOpen a]). split.
        { rewrite <- Hsame. reflexivity. }
        split; [right; left; repeat split; [discriminate|tauto]|].
        split; [discriminate|].
        intros [Heq _]. exfalso.
        pose proof (marked_up_is_up node) as Hnow. rewrite <- Heq in Hnow.
        unfold is_up in Hnow. congruence.
      * exists 0, (marked_up NET_DEVICE_FLAG_UP node),
               (dev_log st ++ [EvOpen a]).
        split; [reflexivity|].
        split; [right; right; repeat split; [discriminate|assumption]|].
        split; [intros _; split; [reflexivity|discriminate] | reflexivity].
    + exists 0, (marked_up NET_DEVICE_FLAG_UP node), (dev_log st).
      split; [reflexivity|].
      split; [right; right; repeat split; discriminate|].
      split; [intros _; split; [reflexivity|discriminate] | reflexivity].
Qed.

Lemma close_effect (a : nat) (st : dev_state) (node : net_device_node) :
  dev_heap st !! a = Some node ->
  exists r node' lg,
    net_device_close NET_DEVICE_FLAG_UP a st
    = (Ret r, {| dev_heap := <[a := node']> (dev_heap st);
                 devices := devices st; dev_index := dev_index st;
                 dev_log := lg |}) /\
    closed_as NET_DEVICE_FLAG_UP node node'.
Proof.
  intros Ha. unfold net_device_close, closed_as, is_up, close_succeeds.
  rewrite Ha.
  assert (Hsame : forall lg,
    {| dev_heap := dev_heap st; devices := devices st;
       dev_index := dev_index st; dev_log := lg |}
    = {| dev_heap := <[a := node]> (dev_heap st); devices := devices st;
         dev_index := dev_index st; dev_log := lg |}).
  { intros lg. rewrite list_insert_id by exact Ha. reflexivity. }
  destruct (NET_DEVICE_IS_UP NET_DEVICE_FLAG_UP (nd_dev node)) eqn:Hup;
    cbn [negb].
  - destruct (nd_close node) as [close|].
    + destruct (Z.eqb_spec (close (nd_dev node)) (-1)) as [Hfail|Hok].
      * exists (-1), node, (dev_log st ++ [EvClose a]). split.
        { rewrite <- Hsame. reflexivity. }
        right; left; repeat split; tauto.
      * exists 0, (marked_down NET_DEVICE_FLAG_UP node),
               (dev_log st ++ [EvClose a]).
        split; [reflexivity|]. right; right; repeat split; assumption.
    + exists 0, (marked_down NET_DEVICE_FLAG_UP node), (dev_log st).
      split; [reflexivity|]. right; right; repeat split.
  - exists (-1), node, (dev_log st). split.
    + rewrite <- Hsame. destruct st; reflexivity.
    + left. split; [discriminate | reflexivity].
Qed.

(** [net_device_open]: an up device is refused without a driver call; a
    failing driver open leaves the device as it was; otherwise the device
    is marked up, only its flags change, and opening it again is refused
    without a second driver call. *)
Theorem net_device_open_outcomes (a : nat) (st : dev_state)
    (node : net_device_node) :
  dev_heap st !! a = Some node ->
  let open_dev := net_device_open NET_DEVICE_FLAG_UP in
  (is_up NET_DEVICE_FLAG_UP node -> open_dev a st = (Ret (-1), st))
  /\ (~ is_up NET_DEVICE_FLAG_UP node -> ~ open_succeeds node ->
      open_dev a st = (Ret (-1), log_dev (EvOpen a) st))
  /\ (~ is_up NET_DEVICE_FLAG_UP node -> open_succeeds node ->
      exists st',
        open_dev a st = (Ret 0, st') /\
        dev_heap st' = <[a := marked_up NET_DEVICE_FLAG_UP node]> (dev_heap st) /\
        devices st' = devices st /\
        is_up NET_DEVICE_FLAG_UP (marked_up NET_DEVICE_FLAG_UP node) /\
        open_dev a st' = (Ret (-1), st')).
Proof.
  intros Ha open_dev. subst open_dev. unfold net_device_open, is_up.
  rewrite Ha. split; [|split].
  - intros ->. reflexivity.
  - intros Hdown Hfail. apply not_true_is_false in Hdown. rewrite Hdown.
    unfold open_succeeds in Hfail. destruct (nd_open node) as [open|].
    + destruct (Z.eqb_spec (open (nd_dev node)) (-1)); [reflexivity|].
      contradiction.
    + exfalso. apply Hfail. exact I.
  - intros Hdown Hok. apply not_true_is_false in Hdown. rewrite Hdown.
    pose proof (marked_up_is_up node) as Hup. unfold is_up in Hup.
    assert (Hlt : (a < length (dev_heap st))%nat)
      by (eapply lookup_lt_Some; exact Ha).
    unfold open_succeeds in Hok. destruct (nd_open node) as [open|].
    + destruct (Z.eqb_spec (open (nd_dev node)) (-1)); [contradiction|].
      eexists. split; [reflexivity|]. cbn [dev_heap devices set_node log_dev].
      split; [reflexivity|]. split; [reflexivity|]. split; [exact Hup|].
      rewrite list_lookup_insert_eq by exact Hlt.
      fold (marked_up NET_DEVICE_FLAG_UP node). rewrite Hup. reflexivity.
    + eexists. split; [reflexivity|]. cbn [dev_heap devices set_node].
      split; [reflexivity|]. split; [reflexivity|]. split; [exact Hup|].
      rewrite list_lookup_insert_eq by exact Hlt.
      fold (marked_up NET_DEVICE_FLAG_UP node). rewrite Hup. reflexivity.
Qed.

(** Opening and then closing a device.  After a successful
    [net_device_open] on a down device: when the driver's close entry is
    absent or does not return -1, [net_device_close] returns 0 and the
    device list and every device are exactly as before the open, and
    closing once more is refused; when the driver's close returns -1,
    [net_device_close] returns -1 and the device stays up. *)
Theorem open_then_close_restores (a : nat) (st : dev_state)
    (node : net_device_node) :
  dev_heap st !! a = Some node ->
  ~ is_up NET_DEVICE_FLAG_UP node -> open_succeeds node ->
  exists st1,
    net_device_open NET_DEVICE_FLAG_UP a st = (Ret 0, st1) /\
    dev_heap st1 !! a = Some (marked_up NET_DEVICE_FLAG_UP node) /\
    (close_succeeds (marked_up NET_DEVICE_FLAG_UP node) ->
     exists st2,
       net_device_close NET_DEVICE_FLAG_UP a st1 = (Ret 0, st2) /\
       dev_heap st2 = dev_heap st /\ devices st2 = devices st /\
       dev_index st2 = dev_index st /\
       net_device_close NET_DEVICE_FLAG_UP a st2 = (Ret (-1), st2)) /\
    (~ close_succeeds (marked_up NET_DEVICE_FLAG_UP node) ->
     net_device_close NET_DEVICE_FLAG_UP a st1
     = (Ret (-1), log_dev (EvClose a) st1) /\
     is_up NET_DEVICE_FLAG_UP (marked_up NET_DEVICE_FLAG_UP node)).
Proof.
  intros Ha Hdown Hok.
  destruct (open_effect a st node Ha) as (r & n1 & lg1 & Hrun & Has & Hr).
  assert (Hn1 : r = 0 /\ n1 = marked_up NET_DEVICE_FLAG_UP node).
  { destruct Has as [[Hup _]|[(_ & Hfail & _)|(_ & _ & ->)]];
      [contradiction | contradiction |].
    split; [|reflexivity]. apply Hr. split; [reflexivity | exact Hdown]. }
  destruct Hn1 as [-> ->].
  set (st1 := {| dev_heap := <[a := marked_up NET_DEVICE_FLAG_UP node]>
                               (dev_heap st);
                 devices := devices st; dev_index := dev_index st;
                 dev_log := lg1 |}) in *.
  assert (Hheap : dev_heap st1
                  = <[a := marked_up NET_DEVICE_FLAG_UP node]> (dev_heap st))
    by reflexivity.
  assert (Hdevs : devices st1 = devices st) by reflexivity.
  pose proof (marked_up_is_up node) as Hup.
  assert (Hlt : (a < length (dev_heap st))%nat)
    by (eapply lookup_lt_Some; exact Ha).
  assert (Ha1 : dev_heap st1 !! a = Some (marked_up NET_DEVICE_FLAG_UP node)).
  { rewrite Hheap. apply list_lookup_insert_eq. exact Hlt. }
  assert (Hback : marked_down NET_DEVICE_FLAG_UP
                    (marked_up NET_DEVICE_FLAG_UP node) = node).
  { unfold is_up, NET_DEVICE_IS_UP in Hdown.
    assert (Hbits : Z.land (flags (nd_dev node)) NET_DEVICE_FLAG_UP = 0).
    { destruct (Z.eqb_spec (Z.land (flags (nd_dev node)) NET_DEVICE_FLAG_UP) 0);
        [assumption | exfalso; apply Hdown; reflexivity]. }
    unfold marked_down, marked_up. destruct node as [d nx nm op cl].
    destruct d as [ix ty mt fl ad os]. cbn in *.
    unfold set_dev, set_flags. cbn. rewrite lor_lnot_restore by exact Hbits.
    reflexivity. }
  assert (Hindex : dev_index st1 = dev_index st) by reflexivity.
  assert (Hrestored : <[a := node]> (dev_heap st1) = dev_heap st).
  { rewrite Hheap, list_insert_insert_eq. apply list_insert_id. exact Ha. }
  assert (Hdown' : NET_DEVICE_IS_UP NET_DEVICE_FLAG_UP (nd_dev node) = false)
    by (apply not_true_is_false; exact Hdown).
  assert (Hagain : forall lg,
    net_device_close NET_DEVICE_FLAG_UP a
      {| dev_heap := <[a := node]> (dev_heap st1); devices := devices st1;
         dev_index := dev_index st1; dev_log := lg |}
    = (Ret (-1),
       {| dev_heap := <[a := node]> (dev_heap st1); devices := devices st1;
          dev_index := dev_index st1; dev_log := lg |})).
  { intros lg. unfold net_device_close. cbn [dev_heap].
    rewrite Hrestored, Ha, Hdown'. reflexivity. }
  exists st1. split; [exact Hrun|]. split; [exact Ha1|].
  unfold net_device_close at 1 3. rewrite Ha1. unfold is_up in Hup.
  rewrite Hup. cbn [negb].
  fold (marked_down NET_DEVICE_FLAG_UP (marked_up NET_DEVICE_FLAG_UP node)).
  rewrite Hback. unfold close_succeeds.
  destruct (nd_close (marked_up NET_DEVICE_FLAG_UP node)) as [close|].
  - destruct (Z.eqb_spec (close (nd_dev (marked_up NET_DEVICE_FLAG_UP node)))
                (-1)) as [Hfail|Hfine].
    + split; [intros Hclose; contradiction|].
      intros _. split; [reflexivity | exact Hup].
    + split; [|intros Hclose; contradiction].
      intros _. eexists. split; [reflexivity|].
      cbn [dev_heap devices dev_index set_node log_dev].
      split; [exact Hrestored|]. split; [exact Hdevs|].
      split; [exact Hindex|]. apply Hagain.
  - split; [|intros Hclose; exfalso; apply Hclose; exact I].
    intros _. eexists. split; [reflexivity|].
    cbn [dev_heap devices dev_index set_node].
    split; [exact Hrestored|]. split; [exact Hdevs|]. split; [exact Hindex|].
    apply Hagain.
Qed.

(** The driver's transmit is reachable after open and not after close:
    once [net_device_open] has returned 0, [net_device_output] on the
    device hands any payload within the MTU to the driver, once; once
    [net_device_close] has returned 0, it fails without a driver call. *)
Theorem output_between_open_and_close (a : nat) (ty : Z) (data : list byte)
    (len : Z) (dst : option (list byte)) (lg : list event) :
  (forall st st1,
     net_device_open NET_DEVICE_FLAG_UP a st = (Ret 0, st1) ->
     exists n1,
       dev_heap st1 !! a = Some n1 /\
       (len <= mtu (nd_dev n1) ->
        snd (net_device_output NET_DEVICE_FLAG_UP (nd_dev n1) ty data len dst
               lg)
        = lg ++ [EvTransmit (nd_dev n1) ty data len dst]))
  /\ (forall st st2,
        net_device_close NET_DEVICE_FLAG_UP a st = (Ret 0, st2) ->
        exists n2,
          dev_heap st2 !! a = Some n2 /\
          net_device_output NET_DEVICE_FLAG_UP (nd_dev n2) ty data len dst lg
          = (-1, lg)).
Proof.
  split.
  - intros st st1 Hopen.
    assert (Ha : exists node, dev_heap st !! a = Some node).
    { unfold net_device_open in Hopen.
      destruct (dev_heap st !! a) as [node|]; [eauto | discriminate]. }
    destruct Ha as [node Ha].
    assert (Hlt : (a < length (dev_heap st))%nat)
      by (eapply lookup_lt_Some; exact Ha).
    destruct (open_effect a st node Ha) as (r & n1 & lg1 & Hrun & _ & Hr).
    rewrite Hrun in Hopen. injection Hopen as -> <-.
    destruct (proj1 Hr eq_refl) as [-> _].
    pose proof (marked_up_is_up node) as Hup. unfold is_up in Hup.
    exists (marked_up NET_DEVICE_FLAG_UP node). split.
    + apply list_lookup_insert_eq. exact Hlt.
    + intros Hlen. unfold net_device_output. rewrite Hup. cbn [negb].
      destruct (Z.gtb_spec len
                  (mtu (nd_dev (marked_up NET_DEVICE_FLAG_UP node)))); [lia|].
      destruct (_ =? -1); reflexivity.
  - intros st st2 Hclose. unfold net_device_close in Hclose.
    destruct (dev_heap st !! a) as [node|] eqn:Ha; [|discriminate Hclose].
    assert (Hlt : (a < length (dev_heap st))%nat)
      by (eapply lookup_lt_Some; exact Ha).
    destruct (NET_DEVICE_IS_UP NET_DEVICE_FLAG_UP (nd_dev node));
      cbn [negb] in Hclose; [|discriminate Hclose].
    fold (marked_down NET_DEVICE_FLAG_UP node) in Hclose.
    exists (marked_down NET_DEVICE_FLAG_UP node). split.
    + destruct (nd_close node) as [close|].
      * destruct (_ =? -1); [discriminate Hclose|]. injection Hclose as <-.
        apply list_lookup_insert_eq. exact Hlt.
      * injection Hclose as <-. apply list_lookup_insert_eq. exact Hlt.
    + unfold net_device_output. rewrite marked_down_is_down. reflexivity.
Qed.

Lemma open_all_null (fuel : nat) (st : dev_state) :
  open_all NET_DEVICE_FLAG_UP fuel None st = (Ret tt, st).
Proof. destruct fuel; reflexivity. Qed.

Lemma close_all_null (fuel : nat) (st : dev_state) :
  close_all NET_DEVICE_FLAG_UP fuel None st = (Ret tt, st).
Proof. destruct fuel; reflexivity. Qed.

Lemma opened_as_next (n n' : net_device_node) :
  opened_as NET_DEVICE_FLAG_UP n n' -> nd_next n' = nd_next n.
Proof. intros [[_ ->]|[(_ & _ & ->)|(_ & _ & ->)]]; reflexivity. Qed.

Lemma closed_as_next (n n' : net_device_node) :
  closed_as NET_DEVICE_FLAG_UP n n' -> nd_next n' = nd_next n.
Proof. intros [[_ ->]|[(_ & _ & ->)|(_ & _ & ->)]]; reflexivity. Qed.

Lemma open_all_chain (ps : list nat) :
  forall (st : dev_state) (start : option nat) (fuel : nat),
    chain nd_next (dev_heap st) start ps -> (length ps <= fuel)%nat ->
    exists st',
      open_all NET_DEVICE_FLAG_UP fuel start st = (Ret tt, st') /\
      devices st' = devices st /\ dev_index st' = dev_index st /\
      length (dev_heap st') = length (dev_heap st) /\
      (forall p, p ∈ ps ->
         exists n n', dev_heap st !! p = Some n /\
                      dev_heap st' !! p = Some n' /\
                      opened_as NET_DEVICE_FLAG_UP n n') /\
      (forall p, p ∉ ps -> dev_heap st' !! p = dev_heap st !! p).
Proof.
  induction ps as [|p ps IH]; intros st start fuel Hchain Hfuel.
  - inversion Hchain. exists st. rewrite open_all_null.
    repeat split; try reflexivity.
    intros p Hin. apply elem_of_nil in Hin. contradiction.
  - pose proof (chain_NoDup _ _ _ _ Hchain) as Hnd.
    apply NoDup_cons in Hnd as [Hnotin _].
    inversion Hchain as [|p0 node ps0 Hp Hrest E1 E2]. subst.
    destruct fuel as [|fuel]; [cbn in Hfuel; lia|]. cbn [length] in Hfuel.
    pose proof (lookup_lt_Some _ _ _ Hp) as Hlt.
    destruct (open_effect p st node Hp) as (r & n' & lg & Hrun & Has & _).
    pose proof (opened_as_next _ _ Has) as Hnext.
    set (st1 := {| dev_heap := <[p := n']> (dev_heap st);
                   devices := devices st; dev_index := dev_index st;
                   dev_log := lg |}) in *.
    assert (Hp1 : dev_heap st1 !! p = Some n')
      by (apply list_lookup_insert_eq; exact Hlt).
    assert (Hrest1 : chain nd_next (dev_heap st1) (nd_next n') ps).
    { rewrite Hnext. eapply chain_insert; [exact Hrest | exact Hp | exact Hnext]. }
    destruct (IH st1 _ fuel Hrest1 ltac:(lia))
      as (st' & Hall & Hdevs & Hidx & Hlen & Hon & Hoff).
    exists st'. cbn [open_all]. rewrite Hrun, Hp1, Hall.
    split; [reflexivity|]. split; [exact Hdevs|]. split; [exact Hidx|].
    split; [rewrite Hlen; apply length_insert|]. split.
    + intros q Hq. apply elem_of_cons in Hq as [->|Hq].
      * exists node, n'. split; [exact Hp|].
        rewrite (Hoff p Hnotin). split; [exact Hp1 | exact Has].
      * destruct (Hon q Hq) as (nq & nq' & Hq1 & Hq' & Hasq).
        cbn [dev_heap st1] in Hq1.
        rewrite list_lookup_insert_ne in Hq1 by (intros ->; contradiction).
        exists nq, nq'. repeat split; assumption.
    + intros q Hq. rewrite not_elem_of_cons in Hq. destruct Hq as [Hne Hq].
      rewrite (Hoff q Hq). apply list_lookup_insert_ne. congruence.
Qed.

Lemma close_all_chain (ps : list nat) :
  forall (st : dev_state) (start : option nat) (fuel : nat),
    chain nd_next (dev_heap st) start ps -> (length ps <= fuel)%nat ->
    exists st',
      close_all NET_DEVICE_FLAG_UP fuel start st = (Ret tt, st') /\
      devices st' = devices st /\ dev_index st' = dev_index st /\
      length (dev_heap st') = length (dev_heap st) /\
      (forall p, p ∈ ps ->
         exists n n', dev_heap st !! p = Some n /\
                      dev_heap st' !! p = Some n' /\
                      closed_as NET_DEVICE_FLAG_UP n n') /\
      (forall p, p ∉ ps -> dev_heap st' !! p = dev_heap st !! p).
Proof.
  induction ps as [|p ps IH]; intros st start fuel Hchain Hfuel.
  - inversion Hchain. exists st. rewrite close_all_null.
    repeat split; try reflexivity.
    intros p Hin. apply elem_of_nil in Hin. contradiction.
  - pose proof (chain_NoDup _ _ _ _ Hchain) as Hnd.
    apply NoDup_cons in Hnd as [Hnotin _].
    inversion Hchain as [|p0 node ps0 Hp Hrest E1 E2]. subst.
    destruct fuel as [|fuel]; [cbn in Hfuel; lia|]. cbn [length] in Hfuel.
    pose proof (lookup_lt_Some _ _ _ Hp) as Hlt.
    destruct (close_effect p st node Hp) as (r & n' & lg & Hrun & Has).
    pose proof (closed_as_next _ _ Has) as Hnext.
    set (st1 := {| dev_heap := <[p := n']> (dev_heap st);
                   devices := devices st; dev_index := dev_index st;
                   dev_log := lg |}) in *.
    assert (Hp1 : dev_heap st1 !! p = Some n')
      by (apply list_lookup_insert_eq; exact Hlt).
    assert (Hrest1 : chain nd_next (dev_heap st1) (nd_next n') ps).
    { rewrite Hnext. eapply chain_insert; [exact Hrest | exact Hp | exact Hnext]. }
    destruct (IH st1 _ fuel Hrest1 ltac:(lia))
      as (st' & Hall & Hdevs & Hidx & Hlen & Hon & Hoff).
    exists st'. cbn [close_all]. rewrite Hrun, Hp1, Hall.
    split; [reflexivity|]. split; [exact Hdevs|]. split; [exact Hidx|].
    split; [rewrite Hlen; apply length_insert|]. split.
    + intros q Hq. apply elem_of_cons in Hq as [->|Hq].
      * exists node, n'. split; [exact Hp|].
        rewrite (Hoff p Hnotin). split; [exact Hp1 | exact Has].
      * destruct (Hon q Hq) as (nq & nq' & Hq1 & Hq' & Hasq).
        cbn [dev_heap st1] in Hq1.
        rewrite list_lookup_insert_ne in Hq1 by (intros ->; contradiction).
        exists nq, nq'. repeat split; assumption.
    + intros q Hq. rewrite not_elem_of_cons in Hq. destruct Hq as [Hne Hq].
      rewrite (Hoff q Hq). apply list_lookup_insert_ne. congruence.
Qed.

(** [net_run] on a NULL-terminated device list: when intr_run fails it
    returns -1 and opens nothing; otherwise it returns 0 even when some
    open fails, every listed device that was up or whose driver open
    succeeds is up afterwards with at most its flags changed, a device
    whose driver open fails stays as it was, and unlisted devices are not
    touched. *)
Theorem net_run_on_list (fuel : nat) (ret_intr_run : Z) (st : dev_state)
    (ps : list nat) :
  chain nd_next (dev_heap st) (devices st) ps -> (length ps <= fuel)%nat ->
  (ret_intr_run = -1 ->
   net_run NET_DEVICE_FLAG_UP fuel ret_intr_run st
   = (Ret (-1), log_dev EvIntrRun st))
  /\ (ret_intr_run <> -1 ->
      exists st',
        net_run NET_DEVICE_FLAG_UP fuel ret_intr_run st = (Ret 0, st') /\
        devices st' = devices st /\
        (forall p, p ∈ ps ->
           exists n n', dev_heap st !! p = Some n /\
                        dev_heap st' !! p = Some n' /\
                        opened_as NET_DEVICE_FLAG_UP n n' /\
                        (is_up NET_DEVICE_FLAG_UP n \/ open_succeeds n ->
                         is_up NET_DEVICE_FLAG_UP n')) /\
        (forall p, p ∉ ps -> dev_heap st' !! p = dev_heap st !! p)).
Proof.
  intros Hchain Hfuel. unfold net_run. split.
  - intros ->. reflexivity.
  - intros Hret. destruct (Z.eqb_spec ret_intr_run (-1)); [contradiction|].
    destruct (open_all_chain ps (log_dev EvIntrRun st) _ fuel Hchain Hfuel)
      as (st' & Hall & Hdevs & _ & _ & Hon & Hoff).
    cbn [devices log_dev]. rewrite Hall.
    exists st'. split; [reflexivity|]. split; [exact Hdevs|].
    split; [|exact Hoff].
    intros p Hp. destruct (Hon p Hp) as (n0 & n' & Hn & Hn' & Has).
    exists n0, n'. repeat split; try assumption.
    intros Hcan.
    destruct Has as [[Hup ->]|[(Hdown & Hfail & ->)|(_ & _ & ->)]].
    + exact Hup.
    + destruct Hcan; contradiction.
    + apply marked_up_is_up.
Qed.

(** [net_shutdown] on a NULL-terminated device list returns after closing
    the devices best effort and then stopping the interrupt subsystem:
    every listed device that was down or whose driver close succeeds is
    down afterwards, one whose driver close fails stays up, and unlisted
    devices are not touched. *)
Theorem net_shutdown_on_list (fuel : nat) (st : dev_state) (ps : list nat) :
  chain nd_next (dev_heap st) (devices st) ps -> (length ps <= fuel)%nat ->
  exists st' lg,
    net_shutdown NET_DEVICE_FLAG_UP fuel st = (Ret tt, st') /\
    dev_log st' = lg ++ [EvIntrShutdown] /\
    devices st' = devices st /\
    (forall p, p ∈ ps ->
       exists n n', dev_heap st !! p = Some n /\
                    dev_heap st' !! p = Some n' /\
                    closed_as NET_DEVICE_FLAG_UP n n' /\
                    (~ is_up NET_DEVICE_FLAG_UP n \/ close_succeeds n ->
                     ~ is_up NET_DEVICE_FLAG_UP n')) /\
    (forall p, p ∉ ps -> dev_heap st' !! p = dev_heap st !! p).
Proof.
  intros Hchain Hfuel. unfold net_shutdown.
  destruct (close_all_chain ps st _ fuel Hchain Hfuel)
    as (st1 & Hall & Hdevs & _ & _ & Hon & Hoff).
  rewrite Hall. exists (log_dev EvIntrShutdown st1), (dev_log st1).
  split; [reflexivity|]. cbn [dev_log devices dev_heap log_dev].
  split; [reflexivity|]. split; [exact Hdevs|]. split; [|exact Hoff].
  intros p Hp. destruct (Hon p Hp) as (n0 & n' & Hn & Hn' & Has).
  exists n0, n'. repeat split; try assumption.
  intros Hcan Hup'.
  destruct Has as [[Hdown ->]|[(Hup & Hfail & ->)|(_ & _ & ->)]].
  - contradiction.
  - destruct Hcan; contradiction.
  - unfold is_up in Hup'. rewrite marked_down_is_down in Hup'.
    discriminate.
Qed.

End Flag.

(** [net_device_register] prepends: on a NULL-terminated list that does
    not yet hold the device, it returns 0, the list is the device followed
    by the old list, the device gets the current value of the counter as
    index and the name made from it, the counter advances by one (modulo
    2^32), and no other device and no flag is changed. *)
Theorem net_device_register_prepends (snprintf_name : Z -> list byte)
    (a : nat) (st : dev_state) (ps : list nat) (node : net_device_node) :
  chain nd_next (dev_heap st) (devices st) ps ->
  a ∉ ps -> dev_heap st !! a = Some node ->
  exists st' node',
    net_device_register snprintf_name a st = (Ret 0, st') /\
    chain nd_next (dev_heap st') (devices st') (a :: ps) /\
    dev_heap st' !! a = Some node' /\
    index (nd_dev node') = dev_index st /\
    nd_name node' = snprintf_name (dev_index st) /\
    flags (nd_dev node') = flags (nd_dev node) /\
    dev_index st' = (dev_index st + 1) mod 4294967296 /\
    (forall p, p <> a -> dev_heap st' !! p = dev_heap st !! p).
Proof.
  intros Hchain Hnotin Ha. unfold net_device_register. rewrite Ha.
  pose proof (lookup_lt_Some _ _ _ Ha) as Hlt.
  eexists _, _. split; [reflexivity|]. cbn [dev_heap devices dev_index].
  assert (Hkeep : forall start,
    chain nd_next (dev_heap st) start ps ->
    forall new, chain nd_next (<[a := new]> (dev_heap st)) start ps).
  { clear Hchain. intros start H new.
    induction H as [|q nq ps Hq Hrest IH]; [constructor|].
    apply not_elem_of_cons in Hnotin as [Hne Hnotin].
    apply (chain_cons nd_next _ q nq).
    - rewrite list_lookup_insert_ne by congruence. exact Hq.
    - apply IH. exact Hnotin. }
  split.
  { eapply chain_cons.
    - apply list_lookup_insert_eq. exact Hlt.
    - cbn [nd_next]. apply Hkeep. exact Hchain. }
  split; [apply list_lookup_insert_eq; exact Hlt|].
  cbn [nd_dev nd_name set_index index flags].
  repeat split.
  intros p Hp. apply list_lookup_insert_ne. congruence.
Qed.

Lemma flag_one_nonzero : 1 <> 0.
Proof. discriminate. Qed.

Lemma ex_devs2_chain :
  chain nd_next (dev_heap ex_devs2) (devices ex_devs2) [1%nat; 0%nat].
Proof.
  eapply chain_cons; [reflexivity|].
  eapply chain_cons; [reflexivity|]. apply chain_nil.
Qed.

Lemma net_device_register_prepends_witness :
  chain nd_next (dev_heap ex_devs0) (devices ex_devs0) [] /\
  exists st' node',
    net_device_register ex_name 0 ex_devs0 = (Ret 0, st') /\
    chain nd_next (dev_heap st') (devices st') [0%nat] /\
    dev_heap st' !! 0%nat = Some node' /\ index (nd_dev node') = 0.
Proof.
  split; [apply chain_nil|].
  destruct (net_device_register_prepends ex_name 0 ex_devs0 [] ex_node_lo
              (chain_nil _ _) ltac:(apply not_elem_of_nil) eq_refl)
    as (st' & node' & Hrun & Hchain & Hlk & Hidx & _).
  exists st', node'. repeat split; assumption.
Defined.

Lemma ex_eth_down : ~ is_up 1 ex_node_eth.
Proof. unfold is_up. vm_compute. discriminate. Qed.

Lemma ex_eth_opens : open_succeeds ex_node_eth.
Proof. unfold open_succeeds. cbn. discriminate. Qed.

Lemma net_device_open_outcomes_witness :
  dev_heap ex_devs0 !! 1%nat = Some ex_node_eth /\
  exists st',
    net_device_open 1 1 ex_devs0 = (Ret 0, st') /\
    net_device_open 1 1 st' = (Ret (-1), st').
Proof.
  split; [reflexivity|].
  destruct (net_device_open_outcomes 1 flag_one_nonzero 1 ex_devs0 ex_node_eth
              eq_refl) as (_ & _ & Hopen).
  destruct (Hopen ex_eth_down ex_eth_opens) as (st' & Hrun & _ & _ & _ & Hagain).
  exists st'. split; assumption.
Defined.

Lemma open_then_close_restores_witness :
  dev_heap ex_devs0 !! 1%nat = Some ex_node_eth /\
  (exists st1 st2,
     net_device_open 1 1 ex_devs0 = (Ret 0, st1) /\
     net_device_close 1 1 st1 = (Ret 0, st2) /\
     dev_heap st2 = dev_heap ex_devs0) /\
  (exists st1,
     net_device_open 1 0 ex_devs_stuck = (Ret 0, st1) /\
     net_device_close 1 0 st1 = (Ret (-1), log_dev (EvClose 0) st1)).
Proof.
  split; [reflexivity|]. split.
  - destruct (open_then_close_restores 1 flag_one_nonzero 1 ex_devs0
                ex_node_eth eq_refl ex_eth_down ex_eth_opens)
      as (st1 & Hopen & _ & Hfine & _).
    destruct Hfine as (st2 & Hclose & Hheap & _).
    + unfold close_succeeds. cbn. discriminate.
    + exists st1, st2. repeat split; assumption.
  - destruct (open_then_close_restores 1 flag_one_nonzero 0 ex_devs_stuck
                ex_node_stuck eq_refl)
      as (st1 & Hopen & _ & _ & Hstuck).
    + unfold is_up. vm_compute. discriminate.
    + unfold open_succeeds. cbn. discriminate.
    + exists st1. split; [exact Hopen|]. apply Hstuck.
      unfold close_succeeds. cbn. intros H. apply H. reflexivity.
Defined.

Lemma output_between_open_and_close_witness :
  exists st1 st2 n1 n2,
    net_device_open 1 1 ex_devs0 = (Ret 0, st1) /\
    dev_heap st1 !! 1%nat = Some n1 /\
    snd (net_device_output 1 (nd_dev n1) 0x0800 ex_frame 3 None [])
    = [EvTransmit (nd_dev n1) 0x0800 ex_frame 3 None] /\
    net_device_close 1 1 st1 = (Ret 0, st2) /\
    dev_heap st2 !! 1%nat = Some n2 /\
    net_device_output 1 (nd_dev n2) 0x0800 ex_frame 3 None [] = (-1, []).
Proof.
  destruct (output_between_open_and_close 1 flag_one_nonzero 1 0x0800 ex_frame
              3 None []) as [Hafter_open Hafter_close].
  set (st1 := snd (net_device_open 1 1 ex_devs0)).
  set (st2 := snd (net_device_close 1 1 st1)).
  exists st1, st2.
  destruct (Hafter_open ex_devs0 st1 eq_refl) as (n1 & H1 & Hsend).
  destruct (Hafter_close st1 st2 eq_refl) as (n2 & H2 & Hrefused).
  exists n1, n2. split; [reflexivity|]. split; [exact H1|]. split.
  - apply Hsend. vm_compute in H1. injection H1 as <-. vm_compute.
    discriminate.
  - split; [reflexivity|]. split; [exact H2 | exact Hrefused].
Defined.

Lemma net_run_on_list_witness :
  chain nd_next (dev_heap ex_devs2) (devices ex_devs2) [1%nat; 0%nat] /\
  net_run 1 2 (-1) ex_devs2 = (Ret (-1), log_dev EvIntrRun ex_devs2) /\
  exists st' n0 n1,
    net_run 1 2 0 ex_devs2 = (Ret 0, st') /\
    dev_heap st' !! 0%nat = Some n0 /\ is_up 1 n0 /\
    dev_heap st' !! 1%nat = Some n1 /\ is_up 1 n1.
Proof.
  split; [exact ex_devs2_chain|].
  destruct (net_run_on_list 1 flag_one_nonzero 2 (-1) ex_devs2 [1%nat; 0%nat]
              ex_devs2_chain (le_n 2)) as [Hfail _].
  split; [exact (Hfail eq_refl)|].
  destruct (net_run_on_list 1 flag_one_nonzero 2 0 ex_devs2 [1%nat; 0%nat]
              ex_devs2_chain (le_n 2)) as [_ Hok].
  destruct (Hok ltac:(discriminate)) as (st' & Hrun & _ & Hon & _).
  destruct (Hon 0%nat ltac:(apply elem_of_cons; right; apply elem_of_cons;
                            left; reflexivity))
    as (m0 & n0 & Hm0 & Hn0 & _ & Hup0).
  destruct (Hon 1%nat ltac:(apply elem_of_cons; left; reflexivity))
    as (m1 & n1 & Hm1 & Hn1 & _ & Hup1).
  exists st', n0, n1. split; [exact Hrun|].
  split; [exact Hn0|]. split.
  - apply Hup0. right. vm_compute in Hm0. injection Hm0 as <-. exact I.
  - split; [exact Hn1|]. apply Hup1. right.
    vm_compute in Hm1. injection Hm1 as <-. cbn. discriminate.
Defined.

Lemma net_shutdown_on_list_witness :
  chain nd_next (dev_heap ex_devs2) (devices ex_devs2) [1%nat; 0%nat] /\
  exists st' lg,
    net_shutdown 1 2 ex_devs2 = (Ret tt, st') /\
    dev_log st' = lg ++ [EvIntrShutdown].
Proof.
  split; [exact ex_devs2_chain|].
  destruct (net_shutdown_on_list 1 2 ex_devs2 [1%nat; 0%nat] ex_devs2_chain
              (le_n 2)) as (st' & lg & Hrun & Hlog & _).
  exists st', lg. split; assumption.
Defined.

End NetDevMore.
